(** * PolyLingua-Hub: the streaming speech pipeline of [speech_Recognizer.p.py]

    A shallow embedding of the capture loop, the model provisioner
    ([auto_download_model]), the VOSK streaming wrapper and the Google
    fallback worker, with the properties the specification states about
    them; then the startup thread, the device menu and the transcript
    window of the application, with further properties of the code.

    Conventions of the embedding:
    - bytes are [list byte], text is [string] (one character per code point
      below 256; a literal of the source that holds a character beyond
      stands as the bytes of its UTF-8 encoding);
    - Python [int] is [Z]; [int(a / b)] on integers is [int_truediv]: the
      quotient rounded to the nearest float, then truncated toward zero
      (it is [Z.quot a b] where [|a| < 2^53] and [b] is 1000);
    - wall-clock readings [time.time()*1000.0] are [Z] milliseconds;
    - a float computed by numpy is kept symbolic ([amp]);
    - paths are lists of components relative to the working directory;
    - queues are lists, oldest element first;
    - what other threads do between two iterations of a loop is part of
      the input of the loop (a schedule). *)

From stdpp Require Import base tactics option list strings pretty gmap fin_maps.
From Stdlib Require Import ZArith Lia Ascii String.
From Stdlib.Strings Require Import Byte.

Local Open Scope string_scope.
Local Open Scope list_scope.
Local Open Scope Z_scope.

(** ** Python helpers *)

Abbreviation bytes := (list Byte.byte).

(** [str.isspace] on one character: the white space of the ASCII range,
    and U+0085 and U+00A0. *)
Definition py_isspace (a : ascii) : bool :=
  let n := N_of_ascii a in
  ((9 <=? n) && (n <=? 13) || (28 <=? n) && (n <=? 32)
   || (n =? 133) || (n =? 160))%N.

Fixpoint lstrip_chars (l : list ascii) : list ascii :=
  match l with
  | [] => []
  | a :: l' => if py_isspace a then lstrip_chars l' else l
  end.

(** [s.strip()] *)
Definition strip (s : string) : string :=
  string_of_list_ascii
    (rev (lstrip_chars (rev (lstrip_chars (list_ascii_of_string s))))).

(** Truth value of a [str]: [if s:] *)
Definition truthy (s : string) : bool :=
  match s with EmptyString => false | _ => true end.

(** An exception is told by a text, which stands for what [f"{e}"]
    prints. *)
Definition exn := string.

(** ** True division followed by [int] *)

(** [n / d] rounded to the nearest integer, ties to the even one
    ([0 <= n], [0 < d]). *)
Definition round_half_even (n d : Z) : Z :=
  let q := n / d in
  let r := n mod d in
  if 2 * r <? d then q
  else if d <? 2 * r then q + 1
  else if Z.even q then q else q + 1.

(** The float nearest to [a / b] for [0 < a] and [0 < b], as a pair
    [(m, e)] that stands for [m * 2^e]: a mantissa of 53 bits, exponents
    from -1074 on. *)
Definition nearest_float (a b : Z) : Z * Z :=
  let e1 := Z.log2 a - Z.log2 b - 52 in
  let scaled := fun e =>
    if 0 <=? e then (a, b * 2 ^ e) else (a * 2 ^ (- e), b) in
  let e2 := if (scaled e1).1 <? 2 ^ 52 * (scaled e1).2 then e1 - 1 else e1 in
  let e := Z.max e2 (-1074) in
  (round_half_even (scaled e).1 (scaled e).2, e).

(** [int(a / b)] on two [int]s: [a / b] is the float nearest to the
    quotient (an [OverflowError] when no float is that large), and [int]
    truncates it toward zero. *)
Definition int_truediv (a b : Z) : exn + Z :=
  if b =? 0 then inl "division by zero"
  else if a =? 0 then inr 0
  else
    let '(m, e) := nearest_float (Z.abs a) (Z.abs b) in
    if 0 <=? e then
      if 2 ^ 1024 <=? m * 2 ^ e
      then inl "integer division result too large for a float"
      else inr (Z.sgn a * Z.sgn b * (m * 2 ^ e))
    else inr (Z.sgn a * Z.sgn b * (m / 2 ^ (- e))).

(** The value of [int(a / b)] where it has one. *)
Definition int_truediv_value (a b : Z) : Z :=
  match int_truediv a b with
  | inr n => n
  | inl _ => 0
  end.

(** ** CONFIG *)

Module CONFIG.
Definition listening : string := "#63FF88".
Definition ready : string := "#87CEEB".
Definition error : string := "#FF6B6B".
Definition sample_rate : Z := 16000.
Definition chunk_ms : Z := 20.
Definition partial_update_ms : Z := 80.
Definition model_name : string := "vosk-model-small-en-us-0.15".
Definition model_zip : string := "vosk-model-small-en-us-0.15.zip".
Definition model_target_dir : list string :=
  ["models"; "vosk-model-small-en-us-0.15"].
End CONFIG.

(** ** Messages on [message_queue] *)

(** The float [math.sqrt(float(np.mean(arr*arr))) / 32768.0], kept as the
    expression it is computed from. *)
Inductive amp : Type :=
| AmpZero                      (* the literal 0.0 *)
| AmpRms (samples : list Z).   (* RMS of the int16 samples, over 32768 *)

Inductive message : Type :=
| MsgAmplitude (value : amp)
| MsgStatus (text : string) (color : string)
| MsgTranscription (text : string) (time : string)
| MsgPartial (text : string).

Definition is_partial (m : message) : bool :=
  match m with MsgPartial _ => true | _ => false end.

(** The clock readings of the iterations that put a partial result on the
    queue, given the readings and the output of each iteration. *)
Fixpoint partial_times (nows : list Z) (outs : list (list message))
    : list Z :=
  match nows, outs with
  | now :: nows', out :: outs' =>
    if existsb is_partial out then now :: partial_times nows' outs'
    else partial_times nows' outs'
  | _, _ => []
  end.

(** Each reading of [ts] comes at least [interval] after the one before,
    the first after [last]. *)
Fixpoint spaced (interval last : Z) (ts : list Z) : Prop :=
  match ts with
  | [] => True
  | t :: ts' => interval <= t - last /\ spaced interval t ts'
  end.

Definition is_transcription (m : message) : bool :=
  match m with MsgTranscription _ _ => true | _ => false end.

Definition is_error_status (m : message) : bool :=
  match m with
  | MsgStatus _ c => if decide (c = CONFIG.error) then true else false
  | _ => false
  end.

(** ** Low-latency capture *)

Module LowLatencyCapture.

(** What [pa.open(format=paInt16, channels=1, rate=..., input=True,
    frames_per_buffer=..., input_device_index=...)] was called with. *)
Record stream : Type := Stream {
  sample_width : Z;          (* paInt16: 2 bytes per sample *)
  channels : Z;
  stream_rate : Z;
  frames_per_buffer : Z;
  input_device_index : option Z
}.

(** The callable stored in [self.sink]. The only function of the program
    with the sink's signature is the bound method
    [GeminiStreamingAutoDLApp._capture_sink]. *)
Inductive callable : Type :=
| Bound_capture_sink.

Record t : Type := Capture {
  rate : Z;
  chunk_ms : Z;
  chunk : Z;
  pa : bool;                  (* a PyAudio instance, or None *)
  opened : option stream;     (* self.stream *)
  running : bool;
  device_index : option Z;
  sink : option callable
}.

(** [max(1, int(rate * chunk_ms / 1000))]. (Where the quotient is beyond
    the floats, at 2^1024 and more, [int(...)] raises [OverflowError]
    instead.) *)
Definition frames_per_chunk (rate chunk_ms : Z) : Z :=
  Z.max 1 (int_truediv_value (rate * chunk_ms) 1000).

(** [LowLatencyCapture.__init__]; [pa_ok] tells whether PyAudio is
    importable and [pyaudio.PyAudio()] returned. *)
Definition __init__ (pa_ok : bool) (rate chunk_ms : Z)
    (device_index : option Z) : t :=
  {| rate := rate;
     chunk_ms := chunk_ms;
     chunk := frames_per_chunk rate chunk_ms;
     pa := pa_ok;
     opened := None;
     running := false;
     device_index := device_index;
     sink := None |}.

(** The stream [start] asks the device for. *)
Definition open_params (c : t) : stream :=
  {| sample_width := 2;
     channels := 1;
     stream_rate := rate c;
     frames_per_buffer := chunk c;
     input_device_index := device_index c |}.

(** Size in bytes of the buffer one [stream.read(frames_per_buffer)]
    returns. *)
Definition frame_bytes (s : stream) : Z :=
  frames_per_buffer s * channels s * sample_width s.

(** Everything the program does to a capture object once it is built:
    [start()] (with what [pa.open] does), [stop()], and the assignments of
    [_auto_model_and_start] and [_on_chunk_change]. *)
Inductive method : Type :=
| Start (pyaudio_available : bool) (open_error : option exn)
| Stop
| Set_chunk_ms (v : Z)
| Set_device_index (idx : Z).

Definition start (pyaudio_available : bool) (open_error : option exn)
    (c : t) : bool * t * list message :=
  if negb pyaudio_available || negb (pa c) then (false, c, [])
  else if running c then (true, c, [])
  else
    match open_error with
    | None =>
      (true,
       {| rate := rate c; chunk_ms := chunk_ms c; chunk := chunk c;
          pa := pa c; opened := Some (open_params c); running := true;
          device_index := device_index c; sink := sink c |}, [])
    | Some e =>
      (false, c, [MsgStatus ("Mic start failed: " +:+ e) CONFIG.error])
    end.

Definition stop (c : t) : t :=
  {| rate := rate c; chunk_ms := chunk_ms c; chunk := chunk c;
     pa := pa c; opened := None; running := false;
     device_index := device_index c; sink := sink c |}.

(** [capture.chunk_ms = v; capture.chunk = max(1, int(capture.rate * v / 1000))] *)
Definition set_chunk_ms (v : Z) (c : t) : t :=
  {| rate := rate c; chunk_ms := v;
     chunk := frames_per_chunk (rate c) v;
     pa := pa c; opened := opened c; running := running c;
     device_index := device_index c; sink := sink c |}.

Definition set_device_index (idx : Z) (c : t) : t :=
  {| rate := rate c; chunk_ms := chunk_ms c; chunk := chunk c;
     pa := pa c; opened := opened c; running := running c;
     device_index := Some idx; sink := sink c |}.

Definition apply (m : method) (c : t) : t :=
  match m with
  | Start av err => (start av err c).1.2
  | Stop => stop c
  | Set_chunk_ms v => set_chunk_ms v c
  | Set_device_index idx => set_device_index idx c
  end.

End LowLatencyCapture.

(** ** The file system, as the [os], [shutil] and [zipfile] calls see it *)

Module FS.

Abbreviation path := (list string).

Inductive node : Type :=
| File (content : bytes)
| Dir.

(** [os.path.dirname], [os.path.basename], [os.path.join d name] and
    [p + ".part"] on component lists. *)
Definition dirname (p : path) : path := removelast p.
Definition basename (p : path) : string := List.last p "".
Definition join (d : path) (name : string) : path := d ++ [name].
Definition add_suffix (p : path) (suffix : string) : path :=
  dirname p ++ [basename p +:+ suffix].

Definition exists_ (f : gmap path node) (p : path) : bool :=
  match f !! p with Some _ => true | None => false end.

Definition isdir (f : gmap path node) (p : path) : bool :=
  match f !! p with Some Dir => true | _ => false end.

(** The directory an entry is created in has to exist; the working
    directory (empty dirname) always does. *)
Definition parent_ok (f : gmap path node) (p : path) : bool :=
  match dirname p with
  | [] => true
  | d => isdir f d
  end.

(** [open(p, "wb")]: creates the file or truncates it. *)
Definition open_wb (f : gmap path node) (p : path) : exn + gmap path node :=
  match p with
  | [] => inl "FileNotFoundError"
  | _ =>
    match f !! p with
    | Some Dir => inl "IsADirectoryError"
    | _ => if parent_ok f p then inr (<[p := File []]> f)
           else inl "FileNotFoundError"
    end
  end.

(** [out.write(chunk)] on the handle opened at [p]. *)
Definition write (f : gmap path node) (p : path) (chunk : bytes)
    : gmap path node :=
  match f !! p with
  | Some (File c) => <[p := File (c ++ chunk)]> f
  | _ => f
  end.

(** [os.replace(src, dst)] for a regular file [src]. *)
Definition replace (f : gmap path node) (src dst : path)
    : exn + gmap path node :=
  match f !! src with
  | Some (File c) =>
    match f !! dst with
    | Some Dir => inl "IsADirectoryError"
    | _ => if parent_ok f dst then inr (<[dst := File c]> (delete src f))
           else inl "FileNotFoundError"
    end
  | Some Dir => inl "NotADirectoryError"
  | None => inl "FileNotFoundError"
  end.

(** [os.remove(p)] *)
Definition remove (f : gmap path node) (p : path) : exn + gmap path node :=
  match f !! p with
  | Some (File _) => inr (delete p f)
  | Some Dir => inl "IsADirectoryError"
  | None => inl "FileNotFoundError"
  end.

(** One [mkdir] of [os.makedirs(..., exist_ok=True)]. *)
Definition mkdir_exist_ok (f : gmap path node) (p : path)
    : exn + gmap path node :=
  match f !! p with
  | Some Dir => inr f
  | Some (File _) => inl "FileExistsError"
  | None => inr (<[p := Dir]> f)
  end.

Fixpoint mkdirs_from (f : gmap path node) (done : path) (todo : list string)
    : exn + gmap path node :=
  match todo with
  | [] => inr f
  | name :: todo' =>
    match mkdir_exist_ok f (done ++ [name]) with
    | inl e => inl e
    | inr f' => mkdirs_from f' (done ++ [name]) todo'
    end
  end.

(** [os.makedirs(p, exist_ok=True)]; the empty path raises. *)
Definition makedirs (f : gmap path node) (p : path) : exn + gmap path node :=
  match p with
  | [] => inl "FileNotFoundError"
  | _ => mkdirs_from f [] p
  end.

Fixpoint strip_prefix (pre k : path) : option path :=
  match pre, k with
  | [], _ => Some k
  | a :: pre', b :: k' => if decide (a = b) then strip_prefix pre' k' else None
  | _ :: _, [] => None
  end.

Definition under (pre k : path) : bool :=
  match strip_prefix pre k with Some _ => true | None => false end.

(** [os.listdir(d)], in the order the map enumerates its entries (the
    order of [os.listdir] is arbitrary as well). *)
Definition listdir (f : gmap path node) (d : path) : list string :=
  omap (fun k => match strip_prefix d k with
                 | Some [name] => Some name
                 | _ => None
                 end) (map_to_list f).*1.

(** [shutil.rmtree(p)] *)
Definition rmtree (f : gmap path node) (p : path) : exn + gmap path node :=
  match f !! p with
  | Some Dir => inr (filter (fun kv => under p kv.1 = false) f)
  | Some (File _) => inl "NotADirectoryError"
  | None => inl "FileNotFoundError"
  end.

Definition rekey (src dst k : path) : path :=
  match strip_prefix src k with
  | Some rest => dst ++ rest
  | None => k
  end.

(** [shutil.move(src, dst)]: into [dst] when that is a directory, else a
    rename of the whole tree to [dst], which must be free. *)
Definition move (f : gmap path node) (src dst : path)
    : exn + gmap path node :=
  let real_dst := if isdir f dst then join dst (basename src) else dst in
  if exists_ f real_dst then inl "Error: destination path already exists"
  else if negb (exists_ f src) then inl "FileNotFoundError"
  else if negb (parent_ok f real_dst) then inl "FileNotFoundError"
  else inr (list_to_map
              (map (fun kv => (rekey src real_dst kv.1, kv.2))
                   (map_to_list f))).

(** The members of an archive, as [zipfile] lists and extracts them. *)
Inductive member_body : Type :=
| MDir
| MFile (content : bytes)
| MBad (written : option bytes) (e : exn).
    (* [zf.extract] raises on this member: when it opens the member
       ([None]), or while it copies it, after [written] has gone to the
       file *)

Record member : Type := Member {
  m_name : string;     (* the entry of [zf.namelist()] *)
  m_path : path;       (* where it lands below the extraction directory *)
  m_body : member_body
}.

(** [zf.extract(name, path=extract_to)]: the disk it leaves, and the
    exception it raises, if any. The directories above the target are
    made first; a member that is a file is opened in the archive, then
    the target file is created and the content copied. *)
Definition extract (f : gmap path node) (extract_to : path) (m : member)
    : gmap path node * option exn :=
  let target := (extract_to ++ m_path m)%list in
  let made := match dirname target with
              | [] => inr f
              | d => makedirs f d
              end in
  match made with
  | inl e => (f, Some e)
  | inr f1 =>
    match m_body m with
    | MDir =>
      if isdir f1 target then (f1, None)
      else match mkdir_exist_ok f1 target with
           | inl e => (f1, Some e)
           | inr f2 => (f2, None)
           end
    | MFile c =>
      match open_wb f1 target with
      | inl e => (f1, Some e)
      | inr f2 => (write f2 target c, None)
      end
    | MBad None e => (f1, Some e)
    | MBad (Some c) e =>
      match open_wb f1 target with
      | inl e' => (f1, Some e')
      | inr f2 => (write f2 target c, Some e)
      end
    end
  end.

End FS.

(** ** Download and extraction of the model *)

(** What a mirror answers to [urllib.request.urlopen]: the call raises, or
    it returns a response whose [read] calls yield the chunks of [body]. *)
Inductive body : Type :=
| SEof                              (* [read] returns [b""] *)
| SChunk (c : bytes) (rest : body)  (* [read] returns [c] *)
| SError (e : exn).                 (* [read] raises *)

Inductive response : Type :=
| ConnError (e : exn)
| Response (content_length : option string) (data : body).

(** The world outside the program: the mirrors and the zip decoder. *)
Class Env : Type := {
  fetch : string -> response;
  unzip : bytes -> option (list FS.member)
}.

(** The calls that change the disk. *)
Inductive fs_op : Type :=
| OpOpenWb (p : FS.path)
| OpWrite (p : FS.path) (chunk : bytes)
| OpReplace (src dst : FS.path)
| OpRemove (p : FS.path)
| OpMakedirs (p : FS.path)
| OpExtract (m : FS.member)
| OpRmtree (p : FS.path)
| OpMove (src dst : FS.path).

(** One call [status_cb(percent, done, total, text)]. *)
Record status_call : Type := StatusCall {
  sc_percent : option Z;
  sc_done : Z;
  sc_total : option Z;
  sc_text : string
}.

(** The state the provisioner acts on: the disk, the urls [urlopen] has
    been called with so far (the requests), the calls made to the status
    callback, and the history of the disk (each change with the disk it
    left). *)
Record world : Type := World {
  fs : gmap FS.path FS.node;
  requests : list string;
  progress : list status_call;
  disk_trace : list (fs_op * gmap FS.path FS.node)
}.

Definition set_fs (op : fs_op) (f : gmap FS.path FS.node) (w : world)
    : world :=
  {| fs := f;
     requests := requests w;
     progress := progress w;
     disk_trace := disk_trace w ++ [(op, f)] |}.

(** [urllib.parse.unwrap]: white space, the brackets of ["<...>"] and
    the prefix ["URL:"] are taken off. *)
Definition strip_chars (l : list ascii) : list ascii :=
  list_ascii_of_string (strip (string_of_list_ascii l)).

Definition unwrap (url : list ascii) : list ascii :=
  let u := strip_chars url in
  let u1 := match u with
            | "<"%char :: rest =>
              match last rest with
              | Some ">"%char => strip_chars (removelast rest)
              | _ => u
              end
            | _ => u
            end in
  match u1 with
  | "U"%char :: "R"%char :: "L"%char :: ":"%char :: rest => strip_chars rest
  | _ => u1
  end.

(** [url.rpartition('#')[0]] when there is a ['#'], else [url]. *)
Fixpoint after_first (c : ascii) (l : list ascii) : option (list ascii) :=
  match l with
  | [] => None
  | a :: l' => if Ascii.eqb a c then Some l' else after_first c l'
  end.

Definition without_fragment (url : list ascii) : list ascii :=
  match after_first "#" (rev url) with
  | Some r => rev r
  | None => url
  end.

(** The type of a url: what stands before its first colon, when that
    holds no slash (and is not empty, which [Request] tests). *)
Fixpoint url_type (l : list ascii) : option (list ascii) :=
  match l with
  | [] => None
  | a :: l' =>
    if Ascii.eqb a ":" then Some []
    else if Ascii.eqb a "/" then None
    else cons a <$> url_type l'
  end.

(** [urllib.request.Request(url, headers=...)]: the constructor raises
    [ValueError] for a url without a type. *)
Definition Request (url : string) : option exn :=
  match url_type (without_fragment (unwrap (list_ascii_of_string url))) with
  | Some (_ :: _) => None
  | _ => Some ("unknown url type: " +:+ url)
  end.

(** [req = Request(url); urlopen(req)]: nothing is sent for a url that
    [Request] refuses. *)
Definition urlopen `{Env} (url : string) (w : world) : response * world :=
  match Request url with
  | Some e => (ConnError e, w)
  | None =>
    (fetch url,
     {| fs := fs w;
        requests := requests w ++ [url];
        progress := progress w;
        disk_trace := disk_trace w |})
  end.

(** The callback handed to the provisioner records its arguments (the one
    the application passes, [ui_progress], formats them and puts a status
    message on the unbounded [message_queue]). *)
Definition status_cb (percent : option Z) (done : Z) (total : option Z)
    (text : string) (w : world) : world :=
  {| fs := fs w;
     requests := requests w;
     progress := progress w ++ [StatusCall percent done total text];
     disk_trace := disk_trace w |}.

Definition digit_value (a : ascii) : option Z :=
  let n := N_of_ascii a in
  if ((48 <=? n) && (n <=? 57))%N then Some (Z.of_N n - 48) else None.

Fixpoint int_of_digits (acc : Z) (l : list ascii) : option Z :=
  match l with
  | [] => Some acc
  | a :: l' =>
    match digit_value a with
    | Some d => int_of_digits (10 * acc + d) l'
    | None => None
    end
  end.

(** [str.isdigit] on one character: the decimal digits, and the
    superscripts U+00B2, U+00B3 and U+00B9. *)
Definition py_isdigit (a : ascii) : bool :=
  let n := N_of_ascii a in
  ((48 <=? n) && (n <=? 57) || (n =? 178) || (n =? 179) || (n =? 185))%N.

(** The longest integer string [int] converts (the default of
    [sys.set_int_max_str_digits]). *)
Definition max_str_digits : nat := 4300.

(** [int(total) if total and total.isdigit() else None]: [int] raises
    [ValueError] on a superscript digit, and on more digits than
    [max_str_digits]. *)
Definition parse_content_length (header : option string)
    : exn + option Z :=
  match header with
  | Some s =>
    let l := list_ascii_of_string s in
    if truthy s && forallb py_isdigit l then
      match int_of_digits 0 l with
      | Some n =>
        if decide (List.length l <= max_str_digits)%nat then inr (Some n)
        else inl "Exceeds the limit (4300 digits) for integer string conversion"
      | None => inl ("invalid literal for int() with base 10: " +:+ s)
      end
    else inr None
  | None => inr None
  end.

(** [int(downloaded*100/total) if total else None] *)
Definition percent_of (downloaded : Z) (total : option Z)
    : exn + option Z :=
  match total with
  | Some t => if decide (t = 0) then inr None
              else match int_truediv (downloaded * 100) t with
                   | inl e => inl e
                   | inr p => inr (Some p)
                   end
  | None => inr None
  end.

(** [try: percent = ...; status_cb(percent, downloaded, total, text)
    except Exception: pass] *)
Definition report_progress (downloaded : Z) (total : option Z)
    (text : string) (w : world) : world :=
  match percent_of downloaded total with
  | inr percent => status_cb percent downloaded total text w
  | inl _ => w
  end.

(** The [while True:] loop of [_download_with_progress]: the number of
    bytes written, or the exception [resp.read] raised. *)
Fixpoint read_chunks (data : body) (tmp_path dest_path : FS.path)
    (total : option Z) (downloaded : Z) (w : world) : (exn + Z) * world :=
  match data with
  | SEof => (inr downloaded, w)
  | SError e => (inl e, w)
  | SChunk [] _ => (inr downloaded, w)
  | SChunk chunk rest =>
    let w1 := set_fs (OpWrite tmp_path chunk) (FS.write (fs w) tmp_path chunk) w in
    let downloaded := downloaded + Z.of_nat (List.length chunk) in
    let w2 := report_progress downloaded total
                ("Downloading " +:+ FS.basename dest_path) w1 in
    read_chunks rest tmp_path dest_path total downloaded w2
  end.

Definition download_error (e : exn) (w : world) : bool * world :=
  (false, status_cb None 0 (Some 0) ("Download error: " +:+ e) w).

Definition _download_with_progress `{Env} (url : string)
    (dest_path : FS.path) (w : world) : bool * world :=
  let '(resp, w0) := urlopen url w in
  match resp with
  | ConnError e => download_error e w0
  | Response header data =>
    match parse_content_length header with
    | inl e => download_error e w0
    | inr total =>
      let tmp_path := FS.add_suffix dest_path ".part" in
      match FS.open_wb (fs w0) tmp_path with
      | inl e => download_error e w0
      | inr f1 =>
        let w1 := set_fs (OpOpenWb tmp_path) f1 w0 in
        match read_chunks data tmp_path dest_path total 0 w1 with
        | (inl e, w2) => download_error e w2
        | (inr downloaded, w2) =>
          match FS.replace (fs w2) tmp_path dest_path with
          | inl e => download_error e w2
          | inr f3 =>
            (true, status_cb (Some 100) downloaded total "Download complete"
                     (set_fs (OpReplace tmp_path dest_path) f3 w2))
          end
        end
      end
    end
  end.

Definition extract_error (e : exn) (w : world) : bool * world :=
  (false, status_cb None 0 (Some 0) ("Extract error: " +:+ e) w).

(** The [for i, name in enumerate(members, start=1)] loop; the call of
    the status callback is skipped when computing the percent raises. *)
Fixpoint extract_members (members : list FS.member) (i total : Z)
    (extract_to : FS.path) (w : world) : bool * world :=
  match members with
  | [] => (true, w)
  | m :: members' =>
    match FS.extract (fs w) extract_to m with
    | (f', Some e) => extract_error e (set_fs (OpExtract m) f' w)
    | (f', None) =>
      let w1 := set_fs (OpExtract m) f' w in
      let w2 := match int_truediv (i * 100) total with
                | inr percent =>
                  status_cb (Some percent) i (Some total)
                    ("Extracting " +:+ FS.m_name m) w1
                | inl _ => w1
                end in
      extract_members members' (i + 1) total extract_to w2
    end
  end.

Definition _extract_zip `{Env} (zip_path extract_to : FS.path) (w : world)
    : bool * world :=
  match fs w !! zip_path with
  | Some (FS.File content) =>
    match unzip content with
    | Some members =>
      extract_members members 1 (Z.of_nat (List.length members)) extract_to w
    | None => extract_error "File is not a zip file" w
    end
  | Some FS.Dir => extract_error "IsADirectoryError" w
  | None => extract_error "FileNotFoundError" w
  end.

(** [try: os.remove(zip_path) except Exception: pass] *)
Definition try_remove (p : FS.path) (w : world) : world :=
  match FS.remove (fs w) p with
  | inl _ => w
  | inr f' => set_fs (OpRemove p) f' w
  end.

(** The guarded move of the extracted directory onto [target_dir]:
    [if abspath(src) != abspath(target_dir): try: ... except: pass]. *)
Definition try_move_into_place (src target_dir : FS.path) (w : world)
    : world :=
  if decide (src = target_dir) then w
  else
    let cleared :=
      if FS.exists_ (fs w) target_dir then
        match FS.rmtree (fs w) target_dir with
        | inl e => inl e
        | inr f' => inr (set_fs (OpRmtree target_dir) f' w)
        end
      else inr w in
    match cleared with
    | inl _ => w
    | inr w1 =>
      match FS.move (fs w1) src target_dir with
      | inl _ => w1
      | inr f' => set_fs (OpMove src target_dir) f' w1
      end
    end.

(** First sibling whose name starts with ["vosk-model"] and which is a
    directory. *)
Fixpoint find_model_dir (f : gmap FS.path FS.node) (parent : FS.path)
    (names : list string) : option FS.path :=
  match names with
  | [] => None
  | nm :: names' =>
    let p := FS.join parent nm in
    if String.prefix "vosk-model" nm && FS.isdir f p then Some p
    else find_model_dir f parent names'
  end.

(** What one round of the [for url in urls] loop does once its download
    has succeeded: [Some true] is [return True], [None] falls through to
    the next url. *)
Definition install_downloaded `{Env} (target_dir zip_path : FS.path)
    (w : world) : option bool * world :=
  let parent := FS.dirname target_dir in
  let w1 := status_cb None 0 (Some 0) "Extracting model..." w in
  let '(ok2, w2) := _extract_zip zip_path parent w1 in
  if ok2 then
    let possible := FS.join parent CONFIG.model_name in
    if FS.isdir (fs w2) possible then
      let w3 := try_remove zip_path w2 in
      let w4 := status_cb (Some 100) 0 (Some 0) "Model ready" w3 in
      (Some true, try_move_into_place possible target_dir w4)
    else
      match find_model_dir (fs w2) parent (FS.listdir (fs w2) parent) with
      | Some found =>
        let w3 := try_remove zip_path w2 in
        let w4 := status_cb (Some 100) 0 (Some 0)
                    ("Model ready (" +:+ FS.basename found +:+ ")") w3 in
        (Some true, try_move_into_place found target_dir w4)
      | None => (None, w2)
      end
  else (None, w2).

(** The [for url in urls:] loop and the two statements after it. *)
Fixpoint try_urls `{Env} (target_dir zip_path : FS.path)
    (urls : list string) (w : world) : bool * world :=
  match urls with
  | [] => (false, status_cb None 0 (Some 0) "All downloads failed" w)
  | url :: urls' =>
    let w1 := status_cb None 0 (Some 0) ("Trying: " +:+ url) w in
    let '(ok, w2) := _download_with_progress url zip_path w1 in
    if ok then
      match install_downloaded target_dir zip_path w2 with
      | (Some r, w3) => (r, w3)
      | (None, w3) => try_urls target_dir zip_path urls' w3
      end
    else try_urls target_dir zip_path urls' w2
  end.

(** [auto_download_model(target_dir, urls, ui_status_callback)]: the value
    returned, or the exception of [os.makedirs] that leaves the
    function. *)
Definition auto_download_model `{Env} (target_dir : FS.path)
    (urls : list string) (w : world) : (exn + bool) * world :=
  if FS.isdir (fs w) target_dir then
    (inr true, status_cb (Some 100) 0 (Some 0) "Model already present" w)
  else
    match FS.makedirs (fs w) (FS.dirname target_dir) with
    | inl e => (inl e, w)
    | inr f1 =>
      let w1 := set_fs (OpMakedirs (FS.dirname target_dir)) f1 w in
      let zip_path := FS.join (FS.dirname target_dir) CONFIG.model_zip in
      let '(r, w2) := try_urls target_dir zip_path urls w1 in
      (inr r, w2)
    end.

(** ** JSON values, as [json.loads] builds them *)

(** As far as the program looks into them: a value inside an object is a
    string or something else (a number, a list, null, an object); the
    document is an object or something else. *)
Inductive jvalue : Type :=
| VStr (s : string)
| VOther.

Inductive json : Type :=
| JObj (fields : list (string * jvalue))
| JOther.

(** [d.get(key)] on the dict of an object: of two fields with one key,
    [json.loads] keeps the later. *)
Fixpoint dict_get (key : string) (fields : list (string * jvalue))
    : option jvalue :=
  match fields with
  | [] => None
  | (k, v) :: fields' =>
    match dict_get key fields' with
    | Some v' => Some v'
    | None => if decide (k = key) then Some v else None
    end
  end.

(** [j.get(key, "").strip()]; [None] when the expression raises
    ([j] is no dict, or the value has no [strip]). *)
Definition get_stripped (key : string) (j : json) : option string :=
  match j with
  | JObj fields =>
    match dict_get key fields with
    | None => Some (strip "")
    | Some (VStr s) => Some (strip s)
    | Some VOther => None
    end
  | JOther => None
  end.

(** ** The VOSK streaming wrapper *)

(** The [vosk] package and [json.loads]: the decoder is a state machine
    behind [KaldiRecognizer]; every call may raise. *)
Class Vosk : Type := {
  vosk_model : Type;
  recognizer : Type;
  vosk_import : option exn;      (* [from vosk import ...] raises *)
  Model : gmap FS.path FS.node -> FS.path -> exn + vosk_model;
  KaldiRecognizer : vosk_model -> Z -> exn + recognizer;
  SetWords : recognizer -> bool -> recognizer;
  AcceptWaveform : recognizer -> bytes -> (exn + bool) * recognizer;
  Result : recognizer -> (exn + string) * recognizer;
  PartialResult : recognizer -> (exn + string) * recognizer;
  FinalResult : recognizer -> (exn + string) * recognizer;
  json_loads : string -> option json
}.

(** The clock, read once per iteration of a worker loop:
    [time.time()*1000.0] and [datetime.now().strftime("%H:%M:%S")]. *)
Record tick : Type := Tick {
  now_ms : Z;
  hms : string
}.

Module VoskStreamer.

Section with_vosk.
Context `{V : Vosk}.

Record t : Type := Streamer {
  model_path : FS.path;
  sample_rate : Z;
  partial_interval_ms : Z;
  model : option vosk_model;
  rec : option recognizer;
  queue : list bytes;
  running : bool;
  _last_partial_time : Z
}.

Definition __init__ (model_path : FS.path) (sample_rate : Z)
    (partial_interval_ms : Z) : t :=
  {| model_path := model_path;
     sample_rate := sample_rate;
     partial_interval_ms := partial_interval_ms;
     model := None;
     rec := None;
     queue := [];
     running := false;
     _last_partial_time := 0 |}.

Definition set_model (m : vosk_model) (s : t) : t :=
  {| model_path := model_path s; sample_rate := sample_rate s;
     partial_interval_ms := partial_interval_ms s;
     model := Some m; rec := rec s; queue := queue s;
     running := running s; _last_partial_time := _last_partial_time s |}.

Definition set_rec (r : option recognizer) (s : t) : t :=
  {| model_path := model_path s; sample_rate := sample_rate s;
     partial_interval_ms := partial_interval_ms s;
     model := model s; rec := r; queue := queue s;
     running := running s; _last_partial_time := _last_partial_time s |}.

Definition set_queue (q : list bytes) (s : t) : t :=
  {| model_path := model_path s; sample_rate := sample_rate s;
     partial_interval_ms := partial_interval_ms s;
     model := model s; rec := rec s; queue := q;
     running := running s; _last_partial_time := _last_partial_time s |}.

Definition set_running (b : bool) (s : t) : t :=
  {| model_path := model_path s; sample_rate := sample_rate s;
     partial_interval_ms := partial_interval_ms s;
     model := model s; rec := rec s; queue := queue s;
     running := b; _last_partial_time := _last_partial_time s |}.

Definition set_last_partial_time (now : Z) (s : t) : t :=
  {| model_path := model_path s; sample_rate := sample_rate s;
     partial_interval_ms := partial_interval_ms s;
     model := model s; rec := rec s; queue := queue s;
     running := running s; _last_partial_time := now |}.

Definition set_partial_interval_ms (v : Z) (s : t) : t :=
  {| model_path := model_path s; sample_rate := sample_rate s;
     partial_interval_ms := v;
     model := model s; rec := rec s; queue := queue s;
     running := running s; _last_partial_time := _last_partial_time s |}.

(** [load]: the value returned, the object afterwards and the messages put
    on [message_queue]. *)
Definition load (f : gmap FS.path FS.node) (s : t)
    : bool * t * list message :=
  match vosk_import with
  | Some e =>
    (false, s, [MsgStatus ("VOSK import failed: " +:+ e) CONFIG.error])
  | None =>
    if negb (FS.isdir f (model_path s)) then
      (false, s, [MsgStatus "VOSK model path missing" CONFIG.error])
    else
      let loading := MsgStatus "Loading VOSK model..." CONFIG.ready in
      match Model f (model_path s) with
      | inl e =>
        (false, s,
         [loading; MsgStatus ("VOSK load failed: " +:+ e) CONFIG.error])
      | inr m =>
        let s1 := set_model m s in
        match KaldiRecognizer m (sample_rate s) with
        | inl e =>
          (false, s1,
           [loading; MsgStatus ("VOSK load failed: " +:+ e) CONFIG.error])
        | inr r =>
          (true, set_rec (Some (SetWords r false)) s1,
           [loading; MsgStatus "VOSK model loaded" CONFIG.ready])
        end
      end
  end.

(** [start]: the object afterwards and whether a thread running [_loop]
    was started. *)
Definition start (s : t) : t * bool :=
  if running s || (if rec s is None then true else false) then (s, false)
  else (set_running true s, true).

Definition stop (s : t) : t := set_running false s.

(** [feed]: [put_nowait] on the unbounded queue. *)
Definition feed (bts : bytes) (s : t) : t :=
  set_queue (queue s ++ [bts]) s.

Definition vosk_error (e : exn) : message :=
  MsgStatus ("VOSK error: " +:+ e) CONFIG.error.

(** The text of a result: [json.loads(res)] then [.get(key,"").strip()];
    [None] when either raises (the inner [try] swallows it). *)
Definition result_text (key : string) (res : string) : option string :=
  match json_loads res with
  | Some j => get_stripped key j
  | None => None
  end.

(** The body of the outer [try] of [_loop] for one frame. *)
Definition decode_frame (r : recognizer) (bts : bytes) (clk : tick)
    (s : t) : t * list message :=
  match AcceptWaveform r bts with
  | (inl e, r1) => (set_rec (Some r1) s, [vosk_error e])
  | (inr true, r1) =>
    match Result r1 with
    | (inl e, r2) => (set_rec (Some r2) s, [vosk_error e])
    | (inr res, r2) =>
      let s2 := set_rec (Some r2) s in
      match result_text "text" res with
      | Some txt =>
        if truthy txt then (s2, [MsgTranscription txt (hms clk)])
        else (s2, [])
      | None => (s2, [])
      end
    end
  | (inr false, r1) =>
    match PartialResult r1 with
    | (inl e, r2) => (set_rec (Some r2) s, [vosk_error e])
    | (inr res, r2) =>
      let s2 := set_rec (Some r2) s in
      match result_text "partial" res with
      | Some p =>
        let now := now_ms clk in
        if truthy p && (partial_interval_ms s <=? now - _last_partial_time s)
        then (set_last_partial_time now s2, [MsgPartial p])
        else (s2, [])
      | None => (s2, [])
      end
    end
  end.

(** One iteration of [while self.running:] with [running] observed true:
    an empty queue is the [queue.Empty] of the timed [get]. *)
Definition _loop_iter (clk : tick) (s : t) : t * list message :=
  match queue s with
  | [] => (s, [])
  | bts :: q =>
    let s1 := set_queue q s in
    match rec s1 with
    | Some r => decode_frame r bts clk s1
    | None =>
      (s1, [vosk_error "'NoneType' object has no attribute 'AcceptWaveform'"])
    end
  end.

(** The flush after the loop. *)
Definition flush_final (clk : tick) (s : t) : t * list message :=
  match rec s with
  | Some r =>
    match FinalResult r with
    | (inl _, r1) => (set_rec (Some r1) s, [])
    | (inr res, r1) =>
      let s1 := set_rec (Some r1) s in
      match result_text "text" res with
      | Some txt =>
        if truthy txt then (s1, [MsgTranscription txt (hms clk)])
        else (s1, [])
      | None => (s1, [])
      end
    end
  | None => (s, [])
  end.

(** What happens to the object between two iterations, and the iterations
    themselves: the schedule of one recognizer. *)
Inductive event : Type :=
| EvLoad (f : gmap FS.path FS.node)
| EvStart
| EvStop
| EvFeed (bts : bytes)
| EvSetInterval (v : Z)     (* the slider, [_on_partial_change] *)
| EvIter (clk : tick).      (* the loop thread reaches [while self.running] *)

(** What an event did, for the record. *)
Inductive outcome : Type :=
| Loaded (ok : bool)
| Spawned            (* [start] started a loop thread *)
| NotSpawned         (* [start] returned at once *)
| Put (msgs : list message)
| LoopExit (msgs : list message)
| Quiet.

(** The object together with the number of its loop threads alive. *)
Definition step (ev : event) (st : t * nat) : (t * nat) * outcome * list message :=
  let '(s, loops) := st in
  match ev with
  | EvLoad f =>
    let '(ok, s', msgs) := load f s in ((s', loops), Loaded ok, msgs)
  | EvStart =>
    let '(s', spawned) := start s in
    if spawned then ((s', S loops), Spawned, []) else ((s', loops), NotSpawned, [])
  | EvStop => ((stop s, loops), Quiet, [])
  | EvFeed bts => ((feed bts s, loops), Quiet, [])
  | EvSetInterval v => ((set_partial_interval_ms v s, loops), Quiet, [])
  | EvIter clk =>
    match loops with
    | O => ((s, loops), Quiet, [])
    | S loops' =>
      if running s then
        let '(s', msgs) := _loop_iter clk s in ((s', loops), Put msgs, msgs)
      else
        let '(s', msgs) := flush_final clk s in ((s', loops'), LoopExit msgs, msgs)
    end
  end.

Fixpoint run (evs : list event) (st : t * nat)
    : (t * nat) * list outcome * list message :=
  match evs with
  | [] => (st, [], [])
  | ev :: evs' =>
    let '(st1, o, msgs) := step ev st in
    let '(st2, os, msgs') := run evs' st1 in
    (st2, o :: os, msgs ++ msgs')
  end.

(** Consecutive iterations of a running loop, one per clock reading, with
    what each iteration put on [message_queue]. *)
Fixpoint _loop_iters (clks : list tick) (s : t) : t * list (list message) :=
  match clks with
  | [] => (s, [])
  | clk :: clks' =>
    let '(s1, msgs) := _loop_iter clk s in
    let '(s2, outs) := _loop_iters clks' s1 in
    (s2, msgs :: outs)
  end.

(** A frame whose decoding raises [e]: one of the three calls on the
    recognizer that the outer [try] of [_loop] covers. *)
Definition decode_raises (r : recognizer) (bts : bytes) (e : exn) : Prop :=
  (AcceptWaveform r bts).1 = inl e
  \/ (exists r1, AcceptWaveform r bts = (inr true, r1)
                 /\ (Result r1).1 = inl e)
  \/ (exists r1, AcceptWaveform r bts = (inr false, r1)
                 /\ (PartialResult r1).1 = inl e).

End with_vosk.

End VoskStreamer.

(** ** The queues shared by the threads *)

(** The two module-level queues, and one more queue for a worker that was
    given a queue of its own. *)
Record queues : Type := Queues {
  message_queue : list message;
  segment_queue : list bytes;
  other_queue : list message
}.

Definition no_queues : queues :=
  {| message_queue := []; segment_queue := []; other_queue := [] |}.

Definition put_message (m : message) (q : queues) : queues :=
  {| message_queue := message_queue q ++ [m];
     segment_queue := segment_queue q;
     other_queue := other_queue q |}.

Definition put_other (m : message) (q : queues) : queues :=
  {| message_queue := message_queue q;
     segment_queue := segment_queue q;
     other_queue := other_queue q ++ [m] |}.

Definition put_segment (data : bytes) (q : queues) : queues :=
  {| message_queue := message_queue q;
     segment_queue := segment_queue q ++ [data];
     other_queue := other_queue q |}.

Definition set_segment_queue (l : list bytes) (q : queues) : queues :=
  {| message_queue := message_queue q;
     segment_queue := l;
     other_queue := other_queue q |}.

(** ** The Google fallback worker *)

(** The [speech_recognition] package. *)
Inductive recognition : Type :=
| Recognized (text : string)
| UnknownValueError          (* speech is unintelligible: nothing heard *)
| RequestError (e : exn)     (* the service cannot be reached *)
| OtherError (e : exn).      (* any other exception *)

Class SpeechRecognition : Type := {
  audio : Type;
  AudioData : bytes -> Z -> Z -> exn + audio;
  recognize_google : audio -> recognition
}.

Module GoogleSegmentWorker.

(** The object [self.queue] refers to. *)
Inductive queue_ref : Type :=
| The_message_queue     (* [GoogleSegmentWorker(message_queue)] *)
| Another_queue.

Record t : Type := Worker {
  queue : queue_ref;
  sample_rate : Z;
  sample_width : Z;
  running : bool
}.

Definition __init__ (q : queue_ref) (sample_rate sample_width : Z) : t :=
  {| queue := q; sample_rate := sample_rate; sample_width := sample_width;
     running := false |}.

Definition start (w : t) : t * bool :=
  if running w then (w, false)
  else ({| queue := queue w; sample_rate := sample_rate w;
           sample_width := sample_width w; running := true |}, true).

Definition stop (w : t) : t :=
  {| queue := queue w; sample_rate := sample_rate w;
     sample_width := sample_width w; running := false |}.

(** Where a [put] of the loop goes: on the global [message_queue], or on
    [self.queue]. *)
Inductive target : Type :=
| Global_message_queue
| Self_queue.

Definition listening_status : message :=
  MsgStatus "Listening..." CONFIG.listening.

(** The body of the outer [try] of [_loop] for one chunk: the [put]s, in
    order. *)
Definition recognize_chunk `{SpeechRecognition} (w : t) (raw : bytes)
    (clk : tick) : list (target * message) :=
  match AudioData raw (sample_rate w) (sample_width w) with
  | inl e =>
    [(Self_queue, MsgStatus ("Google worker error: " +:+ e) CONFIG.error)]
  | inr a =>
    (Global_message_queue, MsgStatus "Recognizing..." CONFIG.ready) ::
    match recognize_google a with
    | Recognized text =>
      (if truthy (strip text)
       then [(Self_queue, MsgTranscription text (hms clk))] else []) ++
      [(Self_queue, listening_status)]
    | UnknownValueError => [(Self_queue, listening_status)]
    | RequestError _ =>
      [(Self_queue, MsgStatus "Network/ASR Error" CONFIG.error);
       (Self_queue, listening_status)]
    | OtherError e =>
      [(Self_queue, listening_status);
       (Self_queue, MsgStatus ("Google worker error: " +:+ e) CONFIG.error)]
    end
  end.

Definition deliver (w : t) (q : queues) (p : target * message) : queues :=
  match p with
  | (Global_message_queue, m) => put_message m q
  | (Self_queue, m) =>
    match queue w with
    | The_message_queue => put_message m q
    | Another_queue => put_other m q
    end
  end.

(** One iteration of [while self.running:] with [running] observed true;
    an empty [segment_queue] is the [queue.Empty] of the timed [get]. *)
Definition _loop_iter `{SpeechRecognition} (w : t) (clk : tick)
    (q : queues) : queues :=
  match segment_queue q with
  | [] => q
  | raw :: rest =>
    foldl (deliver w) (set_segment_queue rest q) (recognize_chunk w raw clk)
  end.

Fixpoint _loop_iters `{SpeechRecognition} (w : t) (clks : list tick)
    (q : queues) : queues :=
  match clks with
  | [] => q
  | clk :: clks' => _loop_iters w clks' (_loop_iter w clk q)
  end.

End GoogleSegmentWorker.

(** ** The application: capture thread and sink *)

(** [np.frombuffer(data, dtype=np.int16)]: little-endian signed 16-bit
    samples; a buffer of odd length raises. *)
Fixpoint frombuffer_int16 (data : bytes) : option (list Z) :=
  match data with
  | [] => Some []
  | [_] => None
  | lo :: hi :: rest =>
    let u := Z.of_N (Byte.to_N lo) + 256 * Z.of_N (Byte.to_N hi) in
    let v := if 32768 <=? u then u - 65536 else u in
    match frombuffer_int16 rest with
    | Some arr => Some (v :: arr)
    | None => None
    end
  end.

(** What the program takes from the platform it runs on. Its clock:
    [time.sleep(secs)] raises [ValueError] when [secs] is negative; for
    the other lengths it is the clock of the platform that decides: it
    sleeps, or the call raises ([OverflowError], [OSError]) because the
    length is more than it can take. [sleep_accepts chunk_ms] tells
    whether it takes the length [chunk_ms / 1000.0 * 0.25] of a
    [chunk_ms] that is not negative. And its line separator,
    [os.linesep], which a file opened in text mode gets for every
    newline written. *)
Class Platform : Type := {
  sleep_accepts : Z -> bool;
  linesep : string
}.

Module GeminiStreamingAutoDLApp.

Section with_vosk.
Context `{V : Vosk} `{P : Platform}.

Record t : Type := App {
  capture : option LowLatencyCapture.t;
  vosk_streamer : option VoskStreamer.t;
  google_worker : GoogleSegmentWorker.t;
  q : queues
}.

Definition set_q (q' : queues) (a : t) : t :=
  {| capture := capture a; vosk_streamer := vosk_streamer a;
     google_worker := google_worker a; q := q' |}.

Definition set_vosk_streamer (vs : option VoskStreamer.t) (a : t) : t :=
  {| capture := capture a; vosk_streamer := vs;
     google_worker := google_worker a; q := q a |}.

Definition set_capture (c : option LowLatencyCapture.t) (a : t) : t :=
  {| capture := c; vosk_streamer := vosk_streamer a;
     google_worker := google_worker a; q := q a |}.

(** The part of [__init__] that builds the workers; [chunk_ms] is
    [settings.get("chunk_ms", CONFIG["chunk_ms"])]. *)
Definition __init__ (pyaudio_available pa_ok : bool) (chunk_ms : Z) : t :=
  {| capture :=
       if pyaudio_available
       then Some (LowLatencyCapture.__init__ pa_ok CONFIG.sample_rate
                    chunk_ms None)
       else None;
     vosk_streamer := None;
     google_worker :=
       GoogleSegmentWorker.__init__ GoogleSegmentWorker.The_message_queue
         CONFIG.sample_rate 2;
     q := no_queues |}.

(** The thread body [_load] of [_load_vosk_model(path)]; [partial_ms] is
    [self.partial_var.get()]. *)
Definition _load_vosk_model (f : gmap FS.path FS.node) (path : FS.path)
    (partial_ms : Z) (a : t) : t :=
  let a1 := set_q (put_message (MsgStatus "Loading model..." CONFIG.ready)
                     (q a)) a in
  let vs := VoskStreamer.__init__ path CONFIG.sample_rate partial_ms in
  let '(ok, vs1, msgs) := VoskStreamer.load f vs in
  let a2 := set_q (foldl (fun q m => put_message m q) (q a1) msgs) a1 in
  if ok then
    let '(vs2, _) := VoskStreamer.start vs1 in
    let a3 := set_vosk_streamer (Some vs2) a2 in
    set_q (put_message (MsgStatus "VOSK loaded & streaming" CONFIG.ready)
             (q a3)) a3
  else
    set_q (put_message (MsgStatus "VOSK load failed" CONFIG.error) (q a2)) a2.

(** [_capture_sink(data_bytes)] *)
Definition _capture_sink (data_bytes : bytes) (a : t) : t :=
  match vosk_streamer a with
  | Some vs =>
    if VoskStreamer.running vs
    then set_vosk_streamer (Some (VoskStreamer.feed data_bytes vs)) a
    else set_q (put_segment data_bytes (q a)) a
  | None => set_q (put_segment data_bytes (q a)) a
  end.

Definition call (f : LowLatencyCapture.callable) (data : bytes) (a : t) : t :=
  match f with
  | LowLatencyCapture.Bound_capture_sink => _capture_sink data a
  end.

(** The statements of one iteration of [LowLatencyCapture._read_loop]
    that put and hand on: all of them but the [time.sleep] that ends the
    iteration, with [running] observed true, on what [stream.read] did;
    [None] when [np.frombuffer] raises (a buffer of odd length), which
    nothing in the loop catches. *)
Definition _read_loop_iter (read : exn + bytes) (c : LowLatencyCapture.t)
    (a : t) : option t :=
  match read with
  | inl _ => Some (set_q (put_message (MsgAmplitude AmpZero) (q a)) a)
  | inr data =>
    match frombuffer_int16 data with
    | None => None
    | Some arr =>
      let rms := match arr with [] => AmpZero | _ => AmpRms arr end in
      let a1 := set_q (put_message (MsgAmplitude rms) (q a)) a in
      match LowLatencyCapture.sink c with
      | Some f => Some (call f data a1)
      | None => Some (set_q (put_segment data (q a1)) a1)
      end
    end
  end.

(** [time.sleep(self.chunk_ms / 1000.0 * 0.25)]: [true] when the call
    returns. A negative [chunk_ms] gives a negative length (or, beyond
    the floats, a division that raises). *)
Definition sleep_quarter (chunk_ms : Z) : bool :=
  (0 <=? chunk_ms) && sleep_accepts chunk_ms.

(** One whole iteration of [LowLatencyCapture._read_loop], with its
    sleep: the state it leaves, and whether the loop goes on ([false]
    when [np.frombuffer] or the last [time.sleep] raised, which ends the
    thread; what the iteration had put by then stays). The
    [time.sleep(0.05)] after a read that failed always returns. *)
Definition _read_loop_pass (read : exn + bytes) (c : LowLatencyCapture.t)
    (a : t) : t * bool :=
  match _read_loop_iter read c a with
  | None => (a, false)
  | Some a' =>
    match read with
    | inl _ => (a', true)
    | inr _ => (a', sleep_quarter (LowLatencyCapture.chunk_ms c))
    end
  end.

End with_vosk.

End GeminiStreamingAutoDLApp.

(** ** Concrete surroundings, for the scenarios *)

Definition CANDIDATE_URLS : list string :=
  ["https://alphacephei.com/vosk/models/vosk-model-small-en-us-0.15.zip";
   "https://alphacephei.com/kaldi/models/vosk-model-small-en-us-0.15.zip";
   "https://huggingface.co/ambind/vosk-model-small-en-us-0.15/resolve/main/vosk-model-small-en-us-0.15.zip"].

(** No mirror can be reached, and nothing is a zip archive. *)
Definition offline : Env :=
  {| fetch := fun _ => ConnError "<urlopen error timed out>";
     unzip := fun _ => None |}.

(** A disk on which the target directory exists and has no entry. *)
Definition empty_model_dir : gmap FS.path FS.node :=
  <[CONFIG.model_target_dir := FS.Dir]> (<[["models"] := FS.Dir]> ∅).

Definition fresh_world (f : gmap FS.path FS.node) : world :=
  {| fs := f; requests := []; progress := []; disk_trace := [] |}.

(** The bytes of a response body that ends properly; [None] when a [read]
    raises before the end. *)
Fixpoint body_bytes (data : body) : option bytes :=
  match data with
  | SEof => Some []
  | SError _ => None
  | SChunk [] _ => Some []
  | SChunk chunk rest =>
    match body_bytes rest with
    | Some more => Some (chunk ++ more)
    | None => None
    end
  end.

(** The bytes received before the body ends or breaks. *)
Fixpoint body_received (data : body) : bytes :=
  match data with
  | SEof | SError _ => []
  | SChunk [] _ => []
  | SChunk chunk rest => chunk ++ body_received rest
  end.

(** The disk operations a download may do before its last one: opening
    the temporary file and writing to it. *)
Definition writes_to (tmp_path : FS.path) (op : fs_op) : Prop :=
  op = OpOpenWb tmp_path \/ exists chunk, op = OpWrite tmp_path chunk.

(** The body a download starts to read: none when [Request] refuses the
    url, when [urlopen] raises, or when the length the mirror announces
    makes [int] raise. *)
Definition answer `{Env} (url : string) : option body :=
  match Request url with
  | Some _ => None
  | None =>
    match fetch url with
    | ConnError _ => None
    | Response header data =>
      match parse_content_length header with
      | inl _ => None
      | inr _ => Some data
      end
    end
  end.

(** A mirror fails when there is no body to read or a [read] raises
    before the end of the body; it serves [content] when the whole body
    arrives. *)
Definition fails `{Env} (url : string) : Prop :=
  match answer url with
  | None => True
  | Some data => body_bytes data = None
  end.

Definition serves `{Env} (url : string) (content : bytes) : Prop :=
  exists data, answer url = Some data /\ body_bytes data = Some content.

(** The urls among [urls] that [urlopen] is called with. *)
Definition requested (urls : list string) : list string :=
  List.filter (fun url => if Request url is None then true else false) urls.

(** The download to [dest_path] finds a directory to write in, and neither
    [dest_path] nor its [.part] companion is a directory. *)
Definition can_download (f : gmap FS.path FS.node) (dest_path : FS.path)
    : Prop :=
  FS.parent_ok f dest_path = true
  /\ FS.isdir f dest_path = false
  /\ FS.isdir f (FS.add_suffix dest_path ".part") = false.

(** What failed attempts leave in the [.part] file: the bytes received by
    the last of them that got a response, if any. *)
Fixpoint leftover `{Env} (urls : list string) (acc : option bytes)
    : option bytes :=
  match urls with
  | [] => acc
  | url :: urls' =>
    leftover urls'
      match answer url with
      | None => acc
      | Some data => Some (body_received data)
      end
  end.

Definition part_left (left : option bytes) (tmp_path : FS.path)
    (f : gmap FS.path FS.node) : gmap FS.path FS.node :=
  match left with
  | None => f
  | Some c => <[tmp_path := FS.File c]> f
  end.

(** Two mirrors: the first breaks after three bytes, the second serves
    the five bytes of an archive that holds the model directory and one
    file in it. *)
Definition mirror_1 : string := "https://mirror-1.example/model.zip".
Definition mirror_2 : string := "https://mirror-2.example/model.zip".

Definition first_mirror_breaks : Env :=
  {| fetch := fun url =>
       if decide (url = mirror_1)
       then Response (Some "5")
              (SChunk [x50; x4b; x03] (SError "Connection reset"))
       else Response (Some "5")
              (SChunk [x50; x4b]
                 (SChunk [x05; x06; x00] SEof));
     unzip := fun _ =>
       Some [FS.Member "vosk-model-small-en-us-0.15/"
               [CONFIG.model_name] FS.MDir;
             FS.Member "vosk-model-small-en-us-0.15/README"
               [CONFIG.model_name; "README"] (FS.MFile [x68; x69])] |}.

Definition models_dir_only : gmap FS.path FS.node :=
  <[["models"] := FS.Dir]> ∅.

Definition zip_path_of (target_dir : FS.path) : FS.path :=
  FS.join (FS.dirname target_dir) CONFIG.model_zip.

(** A decoder for the scenarios. It holds the last frame it was fed. A
    frame starting with byte 00 ends an utterance, a frame starting with
    byte ff makes the decoder raise, any other frame continues the
    utterance. Its results are written without the quotes of JSON. *)
Definition echo_decoder : Vosk :=
  {| vosk_model := unit;
     recognizer := bytes;
     vosk_import := None;
     Model := fun _ _ => inr tt;
     KaldiRecognizer := fun _ _ => inr [];
     SetWords := fun r _ => r;
     AcceptWaveform := fun r bts =>
       match bts with
       | x00 :: _ => (inr true, bts)
       | xff :: _ => (inl "bad frame", r)
       | _ => (inr false, bts)
       end;
     Result := fun r => (inr "{text: hello world}", r);
     PartialResult := fun r => (inr "{partial: hello}", r);
     FinalResult := fun r => (inr "{text: }", r);
     json_loads := fun s =>
       if decide (s = "{text: hello world}")
       then Some (JObj [("text", VStr "hello world")])
       else if decide (s = "{partial: hello}")
       then Some (JObj [("partial", VStr "hello")])
       else if decide (s = "{text: }")
       then Some (JObj [("text", VStr "")])
       else None |}.

(** A recognizer on the echo decoder, loaded and started, with [frames]
    in its queue. *)
Definition echo_streamer (interval : Z) (frames : list bytes)
    : @VoskStreamer.t echo_decoder :=
  let s0 := @VoskStreamer.__init__ echo_decoder CONFIG.model_target_dir
              CONFIG.sample_rate interval in
  let s1 := (@VoskStreamer.load echo_decoder empty_model_dir s0).1.2 in
  let s2 := (@VoskStreamer.start echo_decoder s1).1 in
  foldl (fun s bts => @VoskStreamer.feed echo_decoder bts s) s2 frames.

Definition at_ms (now : Z) : tick := {| now_ms := now; hms := "12:00:00" |}.

(** A recognition service for the scenarios: the first byte of a chunk
    decides what it answers. *)
Definition scripted_service : SpeechRecognition :=
  {| audio := bytes;
     AudioData := fun raw rate width =>
       if (0 <? rate) && (1 <=? width) && (width <=? 4) then inr raw
       else inl "Sample width must be between 1 and 4 inclusive";
     recognize_google := fun a =>
       match a with
       | x00 :: _ => UnknownValueError
       | x01 :: _ => RequestError "recognition connection failed"
       | x02 :: _ => Recognized "   "
       | x03 :: _ => OtherError "boom"
       | _ => Recognized "hello world"
       end |}.

(** The worker the application builds: [GoogleSegmentWorker(message_queue)]. *)
Definition app_worker : GoogleSegmentWorker.t :=
  GoogleSegmentWorker.__init__ GoogleSegmentWorker.The_message_queue
    CONFIG.sample_rate 2.

(** The capture object after the program has used it: built by
    [__init__], then any of the calls and assignments the program makes. *)
Definition used_capture (pa_ok : bool) (rate chunk_ms : Z)
    (methods : list LowLatencyCapture.method) : LowLatencyCapture.t :=
  foldl (fun c m => LowLatencyCapture.apply m c)
    (LowLatencyCapture.__init__ pa_ok rate chunk_ms None) methods.

(** A capture object whose [sink] has been set to [f]; no statement of the
    program does this. *)
Definition with_sink (f : LowLatencyCapture.callable)
    (c : LowLatencyCapture.t) : LowLatencyCapture.t :=
  {| LowLatencyCapture.rate := LowLatencyCapture.rate c;
     LowLatencyCapture.chunk_ms := LowLatencyCapture.chunk_ms c;
     LowLatencyCapture.chunk := LowLatencyCapture.chunk c;
     LowLatencyCapture.pa := LowLatencyCapture.pa c;
     LowLatencyCapture.opened := LowLatencyCapture.opened c;
     LowLatencyCapture.running := LowLatencyCapture.running c;
     LowLatencyCapture.device_index := LowLatencyCapture.device_index c;
     LowLatencyCapture.sink := Some f |}.

(** The amplitude put for the samples [arr]. *)
Definition rms_of (arr : list Z) : amp :=
  match arr with [] => AmpZero | _ => AmpRms arr end.

(** The byte counts of a download, after each chunk its loop reads from
    the body, from [n] on. *)
Fixpoint byte_counts (data : body) (n : Z) : list Z :=
  match data with
  | SEof | SError _ => []
  | SChunk [] _ => []
  | SChunk chunk rest =>
    let n' := n + Z.of_nat (List.length chunk) in
    n' :: byte_counts rest n'
  end.

(** The report the download loop makes at a byte count: the count, the
    total announced by the server, the percent computed from the two,
    and the name of the file; none when computing the percent raises. *)
Definition chunk_report (total : option Z) (dest_path : FS.path)
    (downloaded : Z) : option status_call :=
  match percent_of downloaded total with
  | inr percent =>
    Some (StatusCall percent downloaded total
            ("Downloading " +:+ FS.basename dest_path))
  | inl _ => None
  end.

(** The total a response announces. *)
Definition announced `{Env} (url : string) : option Z :=
  match fetch url with
  | ConnError _ => None
  | Response header _ =>
    match parse_content_length header with
    | inr total => total
    | inl _ => None
    end
  end.

(** The members of an archive with their numbers, from [first] on, and
    the report [_extract_zip] makes after member number [i] of [total]. *)
Fixpoint numbered (first : Z) (members : list FS.member)
    : list (Z * FS.member) :=
  match members with
  | [] => []
  | m :: members' => (first, m) :: numbered (first + 1) members'
  end.

Definition member_report (total : Z) (im : Z * FS.member)
    : option status_call :=
  match int_truediv (im.1 * 100) total with
  | inr percent =>
    Some (StatusCall (Some percent) im.1 (Some total)
            ("Extracting " +:+ FS.m_name im.2))
  | inl _ => None
  end.

(** A mirror that serves an archive whose first entry is the model
    directory and whose second entry is damaged. *)
Definition damaged_archive : Env :=
  {| fetch := fun _ => Response (Some "4") (SChunk [x50; x4b; x03; x04] SEof);
     unzip := fun _ =>
       Some [FS.Member "vosk-model-small-en-us-0.15/" [CONFIG.model_name]
               FS.MDir;
             FS.Member "vosk-model-small-en-us-0.15/am/final.mdl"
               [CONFIG.model_name; "am"; "final.mdl"]
               (FS.MBad (Some []) "Bad CRC-32 for file")] |}.

(** A disk on which an archive has unpacked a model under another name. *)
Definition unpacked_elsewhere : gmap FS.path FS.node :=
  <[["models"; "vosk-model-en-us-0.22"; "README"] := FS.File [x68; x69]]>
    (<[["models"; "vosk-model-en-us-0.22"] := FS.Dir]>
       (<[["models"] := FS.Dir]> ∅)).

(** A message as the recognizer may put it for the clock [clk]: an error
    status, or a transcription stamped with the time of [clk], or a
    partial; the text of the two last is not empty and has no white space
    at its ends. *)
Definition streamer_message (clk : tick) (m : message) : Prop :=
  (exists e, m = MsgStatus ("VOSK error: " +:+ e) CONFIG.error)
  \/ (exists txt, m = MsgTranscription txt (hms clk)
                  /\ txt <> "" /\ strip txt = txt)
  \/ (exists p, m = MsgPartial p /\ p <> "" /\ strip p = p).

(** Consecutive iterations of [LowLatencyCapture._read_loop], one per
    outcome of [stream.read], while the loop goes on: the state the
    thread leaves, and [false] once an iteration has raised out of the
    loop. *)
Fixpoint _read_loop_iters `{V : Vosk} `{P : Platform}
    (reads : list (exn + bytes)) (c : LowLatencyCapture.t)
    (a : GeminiStreamingAutoDLApp.t) : GeminiStreamingAutoDLApp.t * bool :=
  match reads with
  | [] => (a, true)
  | read :: reads' =>
    match GeminiStreamingAutoDLApp._read_loop_pass read c a with
    | (a', true) => _read_loop_iters reads' c a'
    | (a', false) => (a', false)
    end
  end.

(** A platform whose clock takes the sleeps of up to a day, and whose
    line separator is the newline. *)
Definition day_clock : Platform :=
  {| sleep_accepts := fun chunk_ms => chunk_ms <=? 345600000;
     linesep := String (ascii_of_nat 10) "" |}.

(** The amplitude message of one read, and the frame it hands on. *)
Definition amplitude_of (read : exn + bytes) : message :=
  match read with
  | inl _ => MsgAmplitude AmpZero
  | inr data =>
    match frombuffer_int16 data with
    | Some arr => MsgAmplitude (rms_of arr)
    | None => MsgAmplitude AmpZero
    end
  end.

Definition frame_of (read : exn + bytes) : list bytes :=
  match read with
  | inl _ => []
  | inr data => [data]
  end.

(** A read that [np.frombuffer] accepts: a failure of [stream.read], or a
    buffer of whole 16-bit samples. *)
Definition whole_samples (read : exn + bytes) : Prop :=
  match read with
  | inl _ => True
  | inr data => Nat.Even (List.length data)
  end.

Definition is_listening (m : message) : bool :=
  match m with
  | MsgStatus text _ => if decide (text = "Listening...") then true else false
  | _ => false
  end.

(** A worker built on a queue of its own: [GoogleSegmentWorker(queue.Queue())]. *)
Definition own_queue_worker : GoogleSegmentWorker.t :=
  GoogleSegmentWorker.__init__ GoogleSegmentWorker.Another_queue
    CONFIG.sample_rate 2.

(** ** The window: transcript box, partial line and status line *)

Definition set_message_queue (l : list message) (q : queues) : queues :=
  {| message_queue := l;
     segment_queue := segment_queue q;
     other_queue := other_queue q |}.

(** [str.encode("utf-8")]: one byte for a character below 128, two for
    the others (the characters of the embedding are below 256). *)
Definition utf8_char (a : ascii) : bytes :=
  let n := N_of_ascii a in
  if (n <? 128)%N then [byte_of_ascii a]
  else [byte_of_ascii (ascii_of_N (192 + n / 64));
        byte_of_ascii (ascii_of_N (128 + n mod 64))].

Definition utf8_encode (s : string) : bytes :=
  flat_map utf8_char (list_ascii_of_string s).

(** The bytes a file opened with [open(fname, "w", encoding="utf-8")]
    gets for [f.write(s)]: every newline of [s] becomes [os.linesep], and
    the characters are encoded. *)
Definition text_write `{Platform} (s : string) : bytes :=
  flat_map (fun a => if Ascii.eqb a (ascii_of_nat 10)
                     then utf8_encode linesep else utf8_char a)
    (list_ascii_of_string s).

Module Window.

(** The widgets and attributes the queue poller and the transcript
    buttons act on. The visualizer, which the amplitude messages move, is
    not part of this state; the calls on the text widgets return. *)
Record t : Type := Win {
  text_box : string;                        (* content of the text box *)
  partial_display : string;                 (* text of the label *)
  status_label : string * string;           (* text and text_color *)
  transcript_log : list (string * string);  (* (tstamp, text) *)
  clipboard : string
}.

(** The widgets as [__init__] and [_build_ui] leave them; [clip] is what
    the clipboard holds. *)
Definition _build_ui (clip : string) : t :=
  {| text_box := "";
     partial_display := "";
     status_label := ("Starting...", CONFIG.ready);
     transcript_log := [];
     clipboard := clip |}.

Definition newline : string := String (ascii_of_nat 10) "".

(** [f"[{t}] {s}"] *)
Definition line (e : string * string) : string :=
  "[" +:+ e.1 +:+ "] " +:+ e.2.

Definition _set_status (txt color : string) (w : t) : t :=
  {| text_box := text_box w;
     partial_display := partial_display w;
     status_label := (txt, color);
     transcript_log := transcript_log w;
     clipboard := clipboard w |}.

Definition _append_transcript (tstamp text : string) (w : t) : t :=
  let entry := line (tstamp, text) +:+ newline in
  {| text_box := text_box w +:+ entry;
     partial_display := partial_display w;
     status_label := status_label w;
     transcript_log := transcript_log w ++ [(tstamp, text)];
     clipboard := clipboard w |}.

Definition set_partial_display (p : string) (w : t) : t :=
  {| text_box := text_box w;
     partial_display := p;
     status_label := status_label w;
     transcript_log := transcript_log w;
     clipboard := clipboard w |}.

(** The body of the [while] loop of [_process_queue] for one message. *)
Definition handle (w : t) (msg : message) : t :=
  match msg with
  | MsgAmplitude _ => w
  | MsgTranscription txt tstamp =>
    set_partial_display "" (_append_transcript tstamp txt w)
  | MsgPartial p => set_partial_display ("▸ " +:+ p) w
  | MsgStatus txt color => _set_status txt color w
  end.

(** [_process_queue]: every message on the queue when the poll begins is
    taken off and handled, oldest first. *)
Definition _process_queue (q : queues) (w : t) : queues * t :=
  (set_message_queue [] q, foldl handle w (message_queue q)).

Definition clear_transcript (w : t) : t :=
  _set_status "Cleared transcript" CONFIG.ready
    {| text_box := "";
       partial_display := partial_display w;
       status_label := status_label w;
       transcript_log := [];
       clipboard := clipboard w |}.

(** What the two clipboard calls of [copy_transcript] do. *)
Inductive clipboard_calls : Type :=
| Both_return
| Clear_raises
| Append_raises.

Definition set_clipboard (c : string) (w : t) : t :=
  {| text_box := text_box w;
     partial_display := partial_display w;
     status_label := status_label w;
     transcript_log := transcript_log w;
     clipboard := c |}.

Definition copy_transcript (calls : clipboard_calls) (w : t) : t :=
  match calls with
  | Both_return =>
    _set_status "Copied to clipboard" CONFIG.ready
      (set_clipboard (String.concat newline (line <$> transcript_log w)) w)
  | Clear_raises => _set_status "Copy failed" CONFIG.error w
  | Append_raises =>
    _set_status "Copy failed" CONFIG.error (set_clipboard "" w)
  end.

Section with_platform.
Context `{P : Platform}.

(** [export_transcript]; [now] is
    [datetime.now().strftime("%Y%m%d_%H%M%S")]. The file is written in
    the working directory, through [open(fname, "w", encoding="utf-8")]. *)
Definition export_transcript (now : string) (f : gmap FS.path FS.node)
    (w : t) : gmap FS.path FS.node * t :=
  match transcript_log w with
  | [] => (f, _set_status "No transcript to export" CONFIG.error w)
  | _ =>
    let fname := "transcript_" +:+ now +:+ ".txt" in
    match FS.open_wb f [fname] with
    | inl e => (f, _set_status ("Export failed: " +:+ e) CONFIG.error w)
    | inr f1 =>
      (foldl (fun f' e =>
                FS.write f' [fname] (text_write (line e +:+ newline)))
         f1 (transcript_log w),
       _set_status ("Exported " +:+ fname) CONFIG.ready w)
    end
  end.

(** What happens to the window: a poll of the queue holding [msgs], or a
    button. *)
Inductive event : Type :=
| Poll (msgs : list message)
| Clear
| Copy (calls : clipboard_calls)
| Export (now : string).

Definition step (s : gmap FS.path FS.node * t) (ev : event)
    : gmap FS.path FS.node * t :=
  match ev with
  | Poll msgs => (s.1, foldl handle s.2 msgs)
  | Clear => (s.1, clear_transcript s.2)
  | Copy calls => (s.1, copy_transcript calls s.2)
  | Export now => export_transcript now s.1 s.2
  end.

Definition run (evs : list event) (s : gmap FS.path FS.node * t)
    : gmap FS.path FS.node * t :=
  foldl step s evs.

End with_platform.

(** The text the box shows for a log. *)
Definition shown (log : list (string * string)) : string :=
  foldr (fun e acc => (line e +:+ newline) +:+ acc) "" log.

End Window.

(** The transcriptions among [msgs], as log entries. *)
Definition finals_of (msgs : list message) : list (string * string) :=
  omap (fun m => match m with
                 | MsgTranscription txt tstamp => Some (tstamp, txt)
                 | _ => None
                 end) msgs.

(** ** The device menu *)

(** [f"{i}: {n}"], an entry of the device menu built by [_build_ui]. *)
Definition device_entry (i : Z) (n : string) : string :=
  pretty i +:+ ": " +:+ n.

(** The digits of [int(s)]: decimal digits, with single underscores
    between digits. *)
Fixpoint int_digits (acc : Z) (after_digit : bool) (l : list ascii)
    : option Z :=
  match l with
  | [] => if after_digit then Some acc else None
  | a :: l' =>
    match digit_value a with
    | Some d => int_digits (10 * acc + d) true l'
    | None =>
      if Ascii.eqb a "_" && after_digit then int_digits acc false l'
      else None
    end
  end.

(** [int(s)] on a [str] (ASCII range): white space around, a sign, the
    digits; [None] is [ValueError]. *)
Definition py_int (s : string) : option Z :=
  match list_ascii_of_string (strip s) with
  | "+"%char :: l => int_digits 0 false l
  | "-"%char :: l => Z.opp <$> int_digits 0 false l
  | l => int_digits 0 false l
  end.

(** [":" in dev] and [dev.split(":", 1)[0]] *)
Definition has_colon (dev : string) : bool :=
  existsb (Ascii.eqb ":") (list_ascii_of_string dev).

Fixpoint before_colon (l : list ascii) : list ascii :=
  match l with
  | [] => []
  | a :: l' => if Ascii.eqb a ":" then [] else a :: before_colon l'
  end.

(** The index [_auto_model_and_start] takes from the device entry
    selected, if it takes one. *)
Definition parse_device (dev : string) : option Z :=
  if truthy dev && negb (String.eqb dev "Default") && has_colon dev
  then py_int (string_of_list_ascii (before_colon (list_ascii_of_string dev)))
  else None.

(** ** Startup: [_auto_model_and_start] *)

Definition settings_file : string := "gemini_stream_settings.json".

(** The two entries of [self.settings] the startup thread reads:
    ["chunk_ms"] when it is an [int], and ["vosk_model_path"] when it is
    a non-empty path. *)
Record settings : Type := Settings {
  cfg_chunk_ms : option Z;
  vosk_model_path : option FS.path
}.

(** [save_settings(d)]; [dumped] is the text [json.dump(d, f, indent=2)]
    writes. *)
Definition save_settings (dumped : bytes) (w : world) : world :=
  match FS.open_wb (fs w) [settings_file] with
  | inl _ => w
  | inr f1 =>
    let w1 := set_fs (OpOpenWb [settings_file]) f1 w in
    set_fs (OpWrite [settings_file] dumped)
      (FS.write f1 [settings_file] dumped) w1
  end.

(** The callback [ui_progress] of [_auto_model_and_start], on one call of
    the provisioner's status callback. *)
Definition ui_progress (c : status_call) : message :=
  MsgStatus
    match sc_percent c with
    | None => sc_text c
    | Some percent => sc_text c +:+ " (" +:+ pretty percent +:+ "%)"
    end
    CONFIG.ready.

Definition put_messages (msgs : list message) (q : queues) : queues :=
  foldl (fun q m => put_message m q) q msgs.

Definition set_google_worker `{Vosk} (g : GoogleSegmentWorker.t)
    (a : GeminiStreamingAutoDLApp.t) : GeminiStreamingAutoDLApp.t :=
  {| GeminiStreamingAutoDLApp.capture := GeminiStreamingAutoDLApp.capture a;
     GeminiStreamingAutoDLApp.vosk_streamer :=
       GeminiStreamingAutoDLApp.vosk_streamer a;
     GeminiStreamingAutoDLApp.google_worker := g;
     GeminiStreamingAutoDLApp.q := GeminiStreamingAutoDLApp.q a |}.

(** What the startup thread finds around it: whether [pyaudio] was
    imported; the device entry selected; what [pa.open] does; whether
    [import vosk] goes through; the value of the partial slider; and the
    text [json.dump] makes of the settings. *)
Record surroundings : Type := Surroundings {
  pyaudio_available : bool;
  device_var : string;
  open_error : option exn;
  vosk_ok : bool;
  partial_var : Z;
  json_dump : settings -> bytes
}.

(** The state the startup thread works on. *)
Record machine `{Vosk} : Type := Machine {
  the_app : GeminiStreamingAutoDLApp.t;
  the_disk : world;
  the_settings : settings
}.

(** The first part of [_auto_model_and_start]: the fallback worker and
    the capture object. *)
Definition start_workers `{Vosk} (sr : surroundings)
    (st : settings) (a : GeminiStreamingAutoDLApp.t)
    : GeminiStreamingAutoDLApp.t :=
  let a1 :=
    set_google_worker
      (GoogleSegmentWorker.start (GeminiStreamingAutoDLApp.google_worker a)).1
      a in
  match GeminiStreamingAutoDLApp.capture a1 with
  | Some c =>
    if pyaudio_available sr then
      let c1 := match parse_device (device_var sr) with
                | Some idx => LowLatencyCapture.set_device_index idx c
                | None => c
                end in
      let c2 := match cfg_chunk_ms st with
                | Some v => LowLatencyCapture.set_chunk_ms v c1
                | None => c1
                end in
      let '(_, c3, msgs) :=
        LowLatencyCapture.start (pyaudio_available sr) (open_error sr) c2 in
      GeminiStreamingAutoDLApp.set_q
        (put_messages msgs (GeminiStreamingAutoDLApp.q a1))
        (GeminiStreamingAutoDLApp.set_capture (Some c3) a1)
    else a1
  | None => a1
  end.

Definition put_status `{Vosk} (text color : string)
    (a : GeminiStreamingAutoDLApp.t) : GeminiStreamingAutoDLApp.t :=
  GeminiStreamingAutoDLApp.set_q
    (put_message (MsgStatus text color) (GeminiStreamingAutoDLApp.q a)) a.

(** [_auto_model_and_start]: the exception that ends the thread, if one
    does ([os.makedirs] is not guarded), and the state it leaves. The
    loads it asks for are run where it asks for them. *)
Definition _auto_model_and_start `{Env} `{Vosk} (sr : surroundings)
    (m : machine) : option exn * machine :=
  let a := start_workers sr (the_settings m) (the_app m) in
  let w := the_disk m in
  let st := the_settings m in
  if negb (vosk_ok sr) then
    (None,
     {| the_app := put_status "VOSK not available — running fallback"
                 CONFIG.error a;
        the_disk := w; the_settings := st |})
  else
    let target_dir := default CONFIG.model_target_dir (vosk_model_path st) in
    if FS.isdir (fs w) target_dir then
      (None,
       {| the_app := GeminiStreamingAutoDLApp._load_vosk_model (fs w) target_dir
                   (partial_var sr) a;
          the_disk := w; the_settings := st |})
    else
      let parent := FS.dirname CONFIG.model_target_dir in
      match FS.makedirs (fs w) parent with
      | inl e =>
        (Some e, {| the_app := a; the_disk := w; the_settings := st |})
      | inr f1 =>
        let w1 := set_fs (OpMakedirs parent) f1 w in
        let '(r, w2) :=
          auto_download_model CONFIG.model_target_dir CANDIDATE_URLS w1 in
        let calls := drop (List.length (progress w1)) (progress w2) in
        let a1 :=
          GeminiStreamingAutoDLApp.set_q
            (put_messages (ui_progress <$> calls)
               (GeminiStreamingAutoDLApp.q a)) a in
        match r with
        | inl e =>
          (Some e, {| the_app := a1; the_disk := w2; the_settings := st |})
        | inr true =>
          let st' := {| cfg_chunk_ms := cfg_chunk_ms st;
                        vosk_model_path := Some CONFIG.model_target_dir |} in
          let w3 := save_settings (json_dump sr st') w2 in
          (None,
           {| the_app := GeminiStreamingAutoDLApp._load_vosk_model (fs w3)
                       CONFIG.model_target_dir (partial_var sr) a1;
              the_disk := w3; the_settings := st' |})
        | inr false =>
          (None,
           {| the_app := put_status "Auto-download failed — running fallback"
                       CONFIG.error a1;
              the_disk := w2; the_settings := st |})
        end
      end.

(** Surroundings in which everything is available, and the application
    as it starts on a disk where [models] is a regular file. *)
Definition all_available : surroundings :=
  {| pyaudio_available := true;
     device_var := "Default";
     open_error := None;
     vosk_ok := true;
     partial_var := CONFIG.partial_update_ms;
     json_dump := fun _ => [] |}.

Definition models_is_a_file : @machine echo_decoder :=
  {| the_app := @GeminiStreamingAutoDLApp.__init__ echo_decoder true true
                  CONFIG.chunk_ms;
     the_disk := fresh_world (<[["models"] := FS.File []]> ∅);
     the_settings := {| cfg_chunk_ms := None; vosk_model_path := None |} |}.

(** Four mirrors that fail, each in its own way: a url without a type,
    a mirror that announces its length with a superscript digit, one that
    breaks after three bytes, and one that cannot be reached. *)
Definition untyped_url : string := "mirror-0/model.zip".
Definition superscript_mirror : string := "https://mirror-3.example/model.zip".
Definition unreachable_mirror : string := "https://mirror-4.example/model.zip".

Definition every_way_to_fail : Env :=
  {| fetch := fun url =>
       if decide (url = superscript_mirror)
       then Response (Some (String (ascii_of_nat 178) ""))
              (SChunk [x50; x4b] SEof)
       else if decide (url = mirror_1)
       then Response (Some "5")
              (SChunk [x50; x4b; x03] (SError "Connection reset"))
       else ConnError "<urlopen error timed out>";
     unzip := fun _ => None |}.

(** The frame lengths the program sets stay where the division of
    [rate * chunk_ms] by 1000 is exact in the floats. *)
Definition exact_frames (rate : Z) (m : LowLatencyCapture.method) : Prop :=
  match m with
  | LowLatencyCapture.Set_chunk_ms v => Z.abs (rate * v) < 2 ^ 53
  | _ => True
  end.

(** A mirror whose archive holds, beside the model directory, an entry
    that bears the name of the [.part] file of the download. *)
Definition archive_with_part_entry : Env :=
  {| fetch := fun _ => Response (Some "2") (SChunk [x50; x4b] SEof);
     unzip := fun _ =>
       Some [FS.Member "vosk-model-small-en-us-0.15/"
               [CONFIG.model_name] FS.MDir;
             FS.Member "vosk-model-small-en-us-0.15.zip.part"
               ["vosk-model-small-en-us-0.15.zip.part"] (FS.MFile [x00])] |}.

(** * Properties *)

(** ** Frame size *)

Lemma round_half_even_cases (n d : Z) :
  0 <= n -> 0 < d ->
  (round_half_even n d = n / d)
  \/ (round_half_even n d = n / d + 1 /\ d <= 2 * (n mod d)).
Proof.
  intros Hn Hd. unfold round_half_even. cbv zeta.
  destruct (Z.ltb_spec (2 * (n mod d)) d); [by left |].
  destruct (Z.ltb_spec d (2 * (n mod d))); [right; lia |].
  destruct (Z.even (n / d)); [by left | right; lia].
Qed.

(** Below 2^53 the nearest float keeps the integer part of a quotient by
    1000. *)
Lemma round_keeps_floor (a k : Z) :
  0 < a -> 9 <= k -> round_half_even (a * 2 ^ k) 1000 / 2 ^ k = a / 1000.
Proof.
  intros Ha Hk.
  assert (Hp : 512 <= 2 ^ k).
  { change 512 with (2 ^ 9). apply Z.pow_le_mono_r; lia. }
  pose proof (Z.div_mod a 1000 ltac:(lia)) as Ha1.
  pose proof (Z.mod_pos_bound a 1000 ltac:(lia)) as Ha2.
  pose proof (Z.div_mod (a * 2 ^ k) 1000 ltac:(lia)) as Hn1.
  pose proof (Z.mod_pos_bound (a * 2 ^ k) 1000 ltac:(lia)) as Hn2.
  set (A := a / 1000) in *. set (r := a mod 1000) in *.
  set (q0 := (a * 2 ^ k) / 1000) in *. set (r0 := (a * 2 ^ k) mod 1000) in *.
  assert (HA : 0 <= A) by (apply Z.div_pos; lia).
  assert (Hlow : A * 2 ^ k <= q0).
  { apply Z.div_le_lower_bound; [lia |]. nia. }
  assert (Hup : q0 < (A + 1) * 2 ^ k).
  { apply Z.div_lt_upper_bound; [lia |]. nia. }
  symmetry. apply Z.div_unique_pos with
    (r := round_half_even (a * 2 ^ k) 1000 - A * 2 ^ k); [| lia].
  destruct (round_half_even_cases (a * 2 ^ k) 1000 ltac:(nia) ltac:(lia))
    as [Hr | [Hr Hhalf]].
  - change (a * 2 ^ k / 1000) with q0 in Hr. rewrite Hr. lia.
  - change (a * 2 ^ k / 1000) with q0 in Hr.
    change ((a * 2 ^ k) mod 1000) with r0 in Hhalf. rewrite Hr.
    split; [lia |]. nia.
Qed.

Lemma int_truediv_exact (p : Z) :
  Z.abs p < 2 ^ 53 -> int_truediv p 1000 = inr (Z.quot p 1000).
Proof.
  intros Hp. unfold int_truediv. cbn [Z.eqb].
  destruct (Z.eqb_spec p 0) as [-> | Hne]; [done |].
  unfold nearest_float. cbv zeta.
  set (a := Z.abs p). change (Z.abs 1000) with 1000.
  change (Z.log2 1000) with 9.
  assert (Ha : 0 < a) by (unfold a; lia).
  assert (Hl : 0 <= Z.log2 a <= 52).
  { split; [apply Z.log2_nonneg |].
    enough (Z.log2 a < 53) by lia. apply Z.log2_lt_pow2; [lia |]. exact Hp. }
  set (e1 := Z.log2 a - 9 - 52).
  assert (He1 : -61 <= e1 <= -9) by (unfold e1; lia).
  destruct (Z.leb_spec 0 e1) as [? | _]; [lia |]. cbn [fst snd].
  set (e2 := if a * 2 ^ (- e1) <? 2 ^ 52 * 1000 then e1 - 1 else e1).
  assert (He2 : -62 <= e2 <= -9) by (unfold e2; destruct (_ <? _); lia).
  rewrite Z.max_l by lia.
  destruct (Z.leb_spec 0 e2) as [? | _]; [lia |]. cbn [fst snd].
  rewrite round_keeps_floor by lia.
  f_equal. change (Z.sgn 1000) with 1.
  rewrite (Z.quot_div p 1000) by lia. change (Z.sgn 1000) with 1.
  change (Z.abs 1000) with 1000. fold a. lia.
Qed.

Lemma frames_per_chunk_exact (rate chunk_ms : Z) :
  Z.abs (rate * chunk_ms) < 2 ^ 53 ->
  LowLatencyCapture.frames_per_chunk rate chunk_ms
  = Z.max 1 (Z.quot (rate * chunk_ms) 1000).
Proof.
  intros Hb. unfold LowLatencyCapture.frames_per_chunk, int_truediv_value.
  by rewrite int_truediv_exact.
Qed.

(** C9, as stated, fails: the division is done on floats, so beyond 2^53
    the frame size is not the truncated quotient. For a rate of
    9007199254740993 and frames of 1000 ms the quotient is the rate
    itself, and the capture object holds one sample less. *)
Lemma frame_size_beyond_floats :
  let rate := 9007199254740993 in
  let chunk_ms := 1000 in
  let c := LowLatencyCapture.__init__ true rate chunk_ms None in
  Z.quot (rate * chunk_ms) 1000 = 9007199254740993
  /\ LowLatencyCapture.chunk c = 9007199254740992.
Proof. vm_compute. split; reflexivity. Qed.

(** C9, amended. While [rate * chunk_ms] stays below 2^53 in absolute
    value, the capture object built for [rate] and [chunk_ms] holds
    [rate * chunk_ms / 1000] samples per frame, truncated toward zero (the
    quotient [q] of the division with a remainder [r] of the sign of the
    product), and at least one; the stream it opens is 16-bit mono, so a
    frame read from it has twice that many bytes; 16000 Hz and 20 ms give
    320 samples, 640 bytes. *)
Theorem capture_frame_size (pa_ok : bool) (rate chunk_ms : Z)
    (dev : option Z) :
  Z.abs (rate * chunk_ms) < 2 ^ 53 ->
  let c := LowLatencyCapture.__init__ pa_ok rate chunk_ms dev in
  let frames := LowLatencyCapture.chunk c in
  let opened := LowLatencyCapture.open_params c in
  (exists q r : Z,
      rate * chunk_ms = 1000 * q + r /\ Z.abs r < 1000
      /\ 0 <= r * (rate * chunk_ms) /\ frames = Z.max 1 q)
  /\ 1 <= frames
  /\ LowLatencyCapture.frames_per_buffer opened = frames
  /\ LowLatencyCapture.sample_width opened = 2
  /\ LowLatencyCapture.channels opened = 1
  /\ LowLatencyCapture.frame_bytes opened = 2 * frames
  /\ LowLatencyCapture.chunk
       (LowLatencyCapture.__init__ pa_ok 16000 20 dev) = 320
  /\ LowLatencyCapture.frame_bytes
       (LowLatencyCapture.open_params
          (LowLatencyCapture.__init__ pa_ok 16000 20 dev)) = 640.
Proof.
  intros Hb. cbn zeta.
  unfold LowLatencyCapture.frame_bytes, LowLatencyCapture.open_params,
    LowLatencyCapture.__init__.
  cbn [LowLatencyCapture.chunk LowLatencyCapture.frames_per_buffer
         LowLatencyCapture.sample_width LowLatencyCapture.channels].
  rewrite (frames_per_chunk_exact rate chunk_ms Hb).
  split; [| repeat split; try lia; reflexivity].
  exists (Z.quot (rate * chunk_ms) 1000), (Z.rem (rate * chunk_ms) 1000).
  pose proof (Z.quot_rem' (rate * chunk_ms) 1000) as Hqr.
  pose proof (Z.rem_bound_abs (rate * chunk_ms) 1000 ltac:(lia)) as Hbd.
  pose proof (Z.rem_sign_mul (rate * chunk_ms) 1000 ltac:(lia)) as Hs.
  repeat split; lia.
Qed.

(** The configured rate and frame length. *)
Lemma capture_frame_size_witness :
  let c := LowLatencyCapture.__init__ true CONFIG.sample_rate
             CONFIG.chunk_ms None in
  let frames := LowLatencyCapture.chunk c in
  let opened := LowLatencyCapture.open_params c in
  (exists q r : Z,
      CONFIG.sample_rate * CONFIG.chunk_ms = 1000 * q + r /\ Z.abs r < 1000
      /\ 0 <= r * (CONFIG.sample_rate * CONFIG.chunk_ms)
      /\ frames = Z.max 1 q)
  /\ 1 <= frames
  /\ LowLatencyCapture.frames_per_buffer opened = frames
  /\ LowLatencyCapture.sample_width opened = 2
  /\ LowLatencyCapture.channels opened = 1
  /\ LowLatencyCapture.frame_bytes opened = 2 * frames
  /\ LowLatencyCapture.chunk
       (LowLatencyCapture.__init__ true 16000 20 None) = 320
  /\ LowLatencyCapture.frame_bytes
       (LowLatencyCapture.open_params
          (LowLatencyCapture.__init__ true 16000 20 None)) = 640.
Proof.
  cbn zeta.
  apply (capture_frame_size true CONFIG.sample_rate CONFIG.chunk_ms None).
  vm_compute. reflexivity.
Defined.

(** ** Provisioning: what reaches the network *)

Section provisioning.
Context `{E : Env}.

Lemma read_chunks_requests data tmp dest total n w :
  requests (read_chunks data tmp dest total n w).2 = requests w.
Proof.
  revert n w. induction data as [| c rest IH | e]; intros n w; cbn; try done.
  destruct c as [| b c]; cbn; [done |]. rewrite IH.
  unfold report_progress. by destruct (percent_of _ _).
Qed.

Lemma requested_one url :
  requested [url] = if Request url is None then [url] else [].
Proof. unfold requested. cbn. by destruct (Request url). Qed.

Lemma requested_app urls1 urls2 :
  requested (urls1 ++ urls2) = requested urls1 ++ requested urls2.
Proof. apply List.filter_app. Qed.

Lemma requested_cons url urls :
  requested (url :: urls) = requested [url] ++ requested urls.
Proof. apply (requested_app [url]). Qed.

(** One call of [urlopen] per download, unless [Request] refuses the
    url. *)
Lemma download_requests url dest w :
  requests (_download_with_progress url dest w).2
  = requests w ++ requested [url].
Proof.
  rewrite requested_one.
  unfold _download_with_progress, urlopen, download_error.
  destruct (Request url) as [e |]; cbn; [by rewrite app_nil_r |].
  destruct (fetch url) as [e | header data]; cbn; [done |].
  destruct (parse_content_length header) as [e | total]; cbn; [done |].
  destruct (FS.open_wb _ _) as [e | f1]; cbn; [done |].
  match goal with |- context [read_chunks ?d ?t ?p ?tot ?n ?w0] =>
    pose proof (read_chunks_requests d t p tot n w0) as Hr;
    destruct (read_chunks d t p tot n w0) as [[e | got] w2] end;
  cbn in *; [done |].
  destruct (FS.replace _ _ _) as [e | f3]; cbn; done.
Qed.

(** A download that returns [True] has called [urlopen]. *)
Lemma download_ok_requested url dest w :
  (_download_with_progress url dest w).1 = true -> requested [url] = [url].
Proof.
  rewrite requested_one.
  unfold _download_with_progress, urlopen, download_error.
  by destruct (Request url) as [e |].
Qed.

Lemma extract_members_requests members i total extract_to w :
  requests (extract_members members i total extract_to w).2 = requests w.
Proof.
  revert i w. induction members as [| m members IH]; intros i w; cbn; [done |].
  destruct (FS.extract _ _ _) as [f' [e |]]; cbn; [done |]. rewrite IH.
  by destruct (int_truediv _ _).
Qed.

Lemma extract_zip_requests zip_path extract_to w :
  requests (_extract_zip zip_path extract_to w).2 = requests w.
Proof.
  unfold _extract_zip.
  destruct (fs w !! zip_path) as [[content |] |]; cbn; try done.
  destruct (unzip content) as [members |]; cbn; [| done].
  apply extract_members_requests.
Qed.

Lemma try_remove_requests p w : requests (try_remove p w) = requests w.
Proof. unfold try_remove. by destruct (FS.remove _ _). Qed.

Lemma try_move_requests src target w :
  requests (try_move_into_place src target w) = requests w.
Proof.
  unfold try_move_into_place. case_decide; [done |].
  destruct (FS.exists_ _ _); cbn.
  - destruct (FS.rmtree _ _) as [e | f']; cbn; [done |].
    by destruct (FS.move _ _ _).
  - by destruct (FS.move _ _ _).
Qed.

Lemma install_requests target zip_path w :
  requests (install_downloaded target zip_path w).2 = requests w.
Proof.
  unfold install_downloaded.
  match goal with |- context [_extract_zip ?z ?p ?w0] =>
    pose proof (extract_zip_requests z p w0) as Hx;
    destruct (_extract_zip z p w0) as [ok2 w2] end.
  cbn in Hx. destruct ok2; cbn; [| done].
  destruct (FS.isdir _ _); cbn.
  - rewrite try_move_requests. cbn. by rewrite try_remove_requests.
  - destruct (find_model_dir _ _ _); cbn; [| done].
    rewrite try_move_requests. cbn. by rewrite try_remove_requests.
Qed.

(** The loop over the mirrors calls [urlopen] once per mirror it tries
    and [Request] accepts, in order; it tries at least the first, and it
    returns [True] only after a call. *)
Lemma try_urls_requests target zip_path urls w :
  exists seen,
    requests (try_urls target zip_path urls w).2 = requests w ++ requested seen
    /\ seen `prefix_of` urls
    /\ (urls <> [] -> seen <> [])
    /\ ((try_urls target zip_path urls w).1 = true -> requested seen <> []).
Proof.
  revert w. induction urls as [| url urls IH]; intros w.
  - exists []. cbn. rewrite app_nil_r. done.
  - cbn [try_urls].
    match goal with |- context [_download_with_progress ?u ?z ?w0] =>
      pose proof (download_requests u z w0) as Hd;
      pose proof (download_ok_requested u z w0) as Hq;
      destruct (_download_with_progress u z w0) as [ok w2] end.
    cbn [fst snd] in Hd, Hq. destruct ok.
    + specialize (Hq eq_refl).
      pose proof (install_requests target zip_path w2) as Hi.
      destruct (install_downloaded target zip_path w2) as [[r |] w3];
        cbn [fst snd] in Hi.
      * exists [url]. cbn [fst snd]. rewrite Hi, Hd.
        split; [done |]. split; [by apply prefix_cons, prefix_nil |].
        split; [done |]. intros _. by rewrite Hq.
      * destruct (IH w3) as (seen & Hreq & Hpre & _ & _).
        exists (url :: seen). rewrite Hreq, Hi, Hd, <- app_assoc.
        rewrite (requested_cons url seen).
        split; [done |]. split; [by apply prefix_cons |].
        split; [done |]. intros _. rewrite Hq. done.
    + destruct (IH w2) as (seen & Hreq & Hpre & _ & Hok).
      exists (url :: seen). rewrite Hreq, Hd, <- app_assoc.
      rewrite (requested_cons url seen).
      split; [done |]. split; [by apply prefix_cons |].
      split; [done |]. intros Ht. specialize (Hok Ht).
      destruct (requested [url]); [done | done].
Qed.

(** When [Request] accepts every url, the calls are a run of the list
    from its first url on. *)
Lemma requested_all urls :
  Forall (fun url => Request url = None) urls -> requested urls = urls.
Proof.
  induction 1 as [| url urls Hu _ IH]; [done |].
  rewrite requested_cons, requested_one, Hu, IH. done.
Qed.

Lemma requested_prefix seen urls :
  Forall (fun url => Request url = None) urls ->
  seen `prefix_of` urls -> requested seen = seen.
Proof.
  intros Hall [rest ->]. apply requested_all.
  by apply Forall_app in Hall as [? _].
Qed.

End provisioning.

(** C2, as stated, fails: a target directory that exists and is empty is
    taken as a model already present: success, and no request sent. *)
Lemma empty_target_dir_is_accepted :
  let w := fresh_world empty_model_dir in
  let run := @auto_download_model offline CONFIG.model_target_dir
               CANDIDATE_URLS w in
  FS.isdir (fs w) CONFIG.model_target_dir = true
  /\ FS.listdir (fs w) CONFIG.model_target_dir = []
  /\ run.1 = inr true
  /\ requests run.2 = [].
Proof. vm_compute. repeat split. Qed.

(** C2, amended. [auto_download_model] returns success without any request
    to the network exactly when the target directory exists when it is
    called (whether or not it has entries). *)
Theorem present_dir_iff_success_offline `{E : Env} (target_dir : FS.path)
    (urls : list string) (w : world) :
  let run := auto_download_model target_dir urls w in
  (run.1 = inr true /\ requests run.2 = requests w)
  <-> FS.isdir (fs w) target_dir = true.
Proof.
  cbn zeta. unfold auto_download_model.
  destruct (FS.isdir (fs w) target_dir) eqn:Hdir; cbn.
  - done.
  - split; [| done]. intros [Hok Hreq]. exfalso.
    destruct (FS.makedirs _ _) as [e | f1]; cbn in *; [done |].
    destruct urls as [| url urls]; [cbn in Hok; congruence |].
    match type of Hok with context [try_urls ?t ?z ?u ?w0] =>
      destruct (try_urls_requests t z u w0) as (seen & Ht & _ & _ & Hne);
      destruct (try_urls t z u w0) as [r w2] end.
    cbn in *. injection Hok as ->. specialize (Hne eq_refl).
    rewrite Ht in Hreq.
    apply (f_equal List.length) in Hreq. rewrite length_app in Hreq.
    destruct (requested seen); [done | cbn in Hreq; lia].
Qed.

(** ** Provisioning: the download goes through the [.part] file *)

Lemma string_length_app (a b : string) :
  String.length (a +:+ b) = (String.length a + String.length b)%nat.
Proof. induction a as [| c a IH]; cbn; [done |]. by rewrite <- IH. Qed.

Lemma add_suffix_ne (p : FS.path) (suffix : string) :
  suffix <> "" -> FS.add_suffix p suffix <> p.
Proof.
  intros Hs Heq. unfold FS.add_suffix, FS.dirname, FS.basename in Heq.
  destruct (decide (p = [])) as [-> | Hp]; [done |].
  rewrite (app_removelast_last "" Hp) in Heq at 3.
  apply app_inv_head in Heq. injection Heq as Heq.
  apply (f_equal String.length) in Heq. rewrite string_length_app in Heq.
  destruct suffix; [done | cbn in Heq; lia].
Qed.

Lemma part_ne (dest : FS.path) : FS.add_suffix dest ".part" <> dest.
Proof. by apply add_suffix_ne. Qed.

Lemma open_wb_inr f p f1 :
  FS.open_wb f p = inr f1 -> f1 = <[p := FS.File []]> f.
Proof.
  unfold FS.open_wb. destruct p; [done |].
  destruct (f !! _) as [[|] |]; try done;
    destruct (FS.parent_ok _ _); congruence.
Qed.


Lemma report_progress_fs downloaded total text w :
  fs (report_progress downloaded total text w) = fs w.
Proof. unfold report_progress. by destruct (percent_of _ _). Qed.

Lemma report_progress_trace downloaded total text w :
  disk_trace (report_progress downloaded total text w) = disk_trace w.
Proof. unfold report_progress. by destruct (percent_of _ _). Qed.

(** The read loop only appends to the temporary file. *)
Lemma read_chunks_spec data tmp dest total n w c0 :
  tmp <> dest ->
  fs w !! tmp = Some (FS.File c0) ->
  let run := read_chunks data tmp dest total n w in
  exists steps,
    disk_trace run.2 = disk_trace w ++ steps
    /\ Forall (fun s => writes_to tmp s.1 /\ s.2 !! dest = fs w !! dest) steps
    /\ fs run.2 = <[tmp := FS.File (c0 ++ body_received data)]> (fs w)
    /\ match run.1 with
       | inr got =>
         body_bytes data = Some (body_received data)
         /\ got = n + Z.of_nat (List.length (body_received data))
       | inl _ => body_bytes data = None
       end.
Proof.
  intros Hne. revert n w c0.
  induction data as [| c rest IH | e]; intros n w c0 Htmp; cbn zeta.
  - exists []. cbn. rewrite !app_nil_r, insert_id by done.
    repeat split; [done | lia].
  - destruct c as [| b c].
    + exists []. cbn. rewrite !app_nil_r, insert_id by done.
      repeat split; [done | lia].
    + set (chunk := b :: c).
      assert (Hrc : read_chunks (SChunk chunk rest) tmp dest total n w
                    = read_chunks rest tmp dest total
                        (n + Z.of_nat (List.length chunk))
                        (report_progress
                           (n + Z.of_nat (List.length chunk)) total
                           ("Downloading " +:+ FS.basename dest)
                           (set_fs (OpWrite tmp chunk)
                              (FS.write (fs w) tmp chunk) w))) by done.
      assert (Hrecv : body_received (SChunk chunk rest)
                      = chunk ++ body_received rest) by done.
      assert (Hbytes : body_bytes (SChunk chunk rest)
                       = match body_bytes rest with
                         | Some more => Some (chunk ++ more)
                         | None => None
                         end) by done.
      rewrite Hrc, Hrecv, Hbytes. clear Hrc Hrecv Hbytes.
      set (f1 := FS.write (fs w) tmp chunk).
      assert (Hf1 : f1 = <[tmp := FS.File (c0 ++ chunk)]> (fs w)).
      { unfold f1, FS.write. by rewrite Htmp. }
      assert (Hd : f1 !! dest = fs w !! dest).
      { rewrite Hf1. by apply lookup_insert_ne. }
      match goal with |- context [read_chunks rest tmp dest total ?n1 ?w1] =>
        specialize (IH n1 w1 (c0 ++ chunk));
        destruct (read_chunks rest tmp dest total n1 w1) as [res w2] end.
      destruct IH as (steps & Htr & Hall & Hfs & Hres).
      { rewrite report_progress_fs. cbn. rewrite Hf1. apply lookup_insert_eq. }
      rewrite report_progress_trace in Htr.
      rewrite report_progress_fs in Hall, Hfs.
      cbn [fst snd fs disk_trace status_cb set_fs] in *.
      exists ((OpWrite tmp chunk, f1) :: steps).
      split; [by rewrite Htr, <- app_assoc |].
      split.
      { constructor.
        - cbn. split; [right; by eexists | done].
        - eapply Forall_impl; [exact Hall |]. cbn. intros s [? Hs].
          split; [done |]. by rewrite Hs. }
      split.
      { rewrite Hfs, Hf1, insert_insert_eq. by rewrite <- app_assoc. }
      destruct res as [e | got].
      * by rewrite Hres.
      * destruct Hres as [-> ->]. split; [done |].
        rewrite length_app. lia.
  - exists []. cbn. rewrite !app_nil_r, insert_id by done. done.
Qed.


(** ** Provisioning: failing mirrors *)

(** C4, as stated, fails: a download that breaks leaves its [.part] file
    on the disk. Here the only mirror is asked, answers, and breaks after
    three bytes: the function returns [False], and the three bytes are
    still there. *)
Lemma failed_download_leaves_part_file :
  let run := @auto_download_model first_mirror_breaks CONFIG.model_target_dir
               [mirror_1] (fresh_world models_dir_only) in
  requests run.2 = [mirror_1]
  /\ run.1 = inr false
  /\ fs run.2 !! FS.add_suffix (zip_path_of CONFIG.model_target_dir) ".part"
     = Some (FS.File [x50; x4b; x03]).
Proof. vm_compute. repeat split; reflexivity. Qed.

Section failing_mirrors.
Context `{E : Env}.

Lemma dirname_add_suffix p s : FS.dirname (FS.add_suffix p s) = FS.dirname p.
Proof. unfold FS.add_suffix, FS.dirname at 1. apply removelast_last. Qed.

Lemma add_suffix_not_nil p s : FS.add_suffix p s <> [].
Proof. unfold FS.add_suffix. by destruct (FS.dirname p). Qed.

Lemma isdir_insert_file f p c q :
  FS.isdir f p = false ->
  FS.isdir (<[p := FS.File c]> f) q = FS.isdir f q.
Proof.
  intros Hp. unfold FS.isdir in *.
  destruct (decide (p = q)) as [-> | Hpq].
  - rewrite lookup_insert_eq. by destruct (f !! q) as [[|] |].
  - by rewrite lookup_insert_ne.
Qed.

Lemma parent_ok_insert_file f p c q :
  FS.isdir f p = false ->
  FS.parent_ok (<[p := FS.File c]> f) q = FS.parent_ok f q.
Proof.
  intros Hp. unfold FS.parent_ok.
  destruct (FS.dirname q); [done |]. by apply isdir_insert_file.
Qed.

Lemma can_download_part_written f dest c :
  can_download f dest ->
  can_download (<[FS.add_suffix dest ".part" := FS.File c]> f) dest.
Proof.
  intros (Hpar & Hdest & Htmp). unfold can_download.
  by rewrite parent_ok_insert_file, !isdir_insert_file.
Qed.

Lemma open_part_ok f dest :
  can_download f dest ->
  FS.open_wb f (FS.add_suffix dest ".part")
  = inr (<[FS.add_suffix dest ".part" := FS.File []]> f).
Proof.
  intros (Hpar & _ & Htmp). unfold FS.open_wb.
  pose proof (add_suffix_not_nil dest ".part") as Hnil.
  destruct (FS.add_suffix dest ".part") as [| a l] eqn:Hp; [done |].
  rewrite <- Hp in *. unfold FS.isdir in Htmp.
  assert (Hok : FS.parent_ok f (FS.add_suffix dest ".part") = true).
  { unfold FS.parent_ok in *. by rewrite dirname_add_suffix. }
  rewrite Hok. by destruct (f !! _) as [[|] |].
Qed.

(** A failing mirror: [False], and the [.part] file keeps what arrived. *)
Lemma download_fails url dest w :
  can_download (fs w) dest -> fails url ->
  let run := _download_with_progress url dest w in
  run.1 = false
  /\ fs run.2 = part_left (leftover [url] None)
                  (FS.add_suffix dest ".part") (fs w)
  /\ can_download (fs run.2) dest.
Proof.
  intros Hcan Hfail. cbn zeta. pose proof (part_ne dest) as Hne.
  unfold fails, answer in Hfail.
  unfold _download_with_progress, urlopen, download_error.
  cbn [leftover]. unfold answer.
  destruct (Request url) as [e |]; cbn; [done |].
  destruct (fetch url) as [e | header data]; cbn; [done |].
  destruct (parse_content_length header) as [e | total]; cbn; [done |].
  rewrite (open_part_ok _ _ Hcan).
  set (tmp := FS.add_suffix dest ".part") in *.
  match goal with |- context [read_chunks data tmp dest ?tot ?n ?w1] =>
    destruct (read_chunks_spec data tmp dest tot n w1 [] Hne)
      as (steps & _ & _ & Hfs & Hres);
    [cbn; apply lookup_insert_eq |];
    destruct (read_chunks data tmp dest tot n w1) as [res w2] end.
  cbn [fst snd fs set_fs app] in *. rewrite insert_insert_eq in Hfs.
  destruct res as [e | got]; [| destruct Hres; congruence].
  cbn. rewrite Hfs. split; [done |]. split; [done |].
  by apply can_download_part_written.
Qed.

(** A mirror that serves its whole body: [True], the body is at the
    destination, and there is no [.part] file. *)
Lemma download_succeeds url dest w content :
  can_download (fs w) dest -> serves url content ->
  let run := _download_with_progress url dest w in
  run.1 = true
  /\ fs run.2 = <[dest := FS.File content]>
                  (delete (FS.add_suffix dest ".part") (fs w))
  /\ requests run.2 = requests w ++ [url].
Proof.
  intros Hcan (data & Hanswer & Hbytes). cbn zeta.
  enough (Hmain : (_download_with_progress url dest w).1 = true
                  /\ fs (_download_with_progress url dest w).2
                     = <[dest := FS.File content]>
                         (delete (FS.add_suffix dest ".part") (fs w))).
  { destruct Hmain as [Hok Hfs]. repeat split; [done | done |].
    rewrite download_requests. by rewrite (download_ok_requested _ _ _ Hok). }
  pose proof (part_ne dest) as Hne.
  unfold answer in Hanswer.
  unfold _download_with_progress, urlopen, download_error.
  destruct (Request url) as [e |]; [done |].
  destruct (fetch url) as [e | header data0]; [done |].
  destruct (parse_content_length header) as [e | total]; [done |].
  injection Hanswer as ->. cbn.
  rewrite (open_part_ok _ _ Hcan).
  set (tmp := FS.add_suffix dest ".part") in *.
  match goal with |- context [read_chunks data tmp dest ?tot ?n ?w1] =>
    destruct (read_chunks_spec data tmp dest tot n w1 [] Hne)
      as (steps & _ & _ & Hfs & Hres);
    [cbn; apply lookup_insert_eq |];
    destruct (read_chunks data tmp dest tot n w1) as [res w2] end.
  cbn [fst snd fs set_fs app] in *. rewrite insert_insert_eq in Hfs.
  destruct res as [e | got]; [congruence |].
  destruct Hres as [Hrecv _]. rewrite Hbytes in Hrecv.
  injection Hrecv as ->. set (content := body_received data) in *.
  pose proof (can_download_part_written _ _ content Hcan) as (Hpar & Hd & _).
  fold tmp in Hpar, Hd. rewrite <- Hfs in Hpar, Hd.
  assert (Htmp : fs w2 !! tmp = Some (FS.File content))
    by (rewrite Hfs; apply lookup_insert_eq).
  unfold FS.replace. rewrite Htmp, Hpar.
  unfold FS.isdir in Hd.
  destruct (fs w2 !! dest) as [[|] |] eqn:Hdest; try done; cbn.
  all: by rewrite Hfs, delete_insert_eq.
Qed.

Lemma leftover_acc urls acc :
  leftover urls acc
  = match leftover urls None with Some c => Some c | None => acc end.
Proof.
  revert acc. induction urls as [| url urls IH]; intros acc; cbn; [done |].
  destruct (answer url) as [data |]; [| apply IH].
  rewrite (IH (Some _)). by destruct (leftover urls None).
Qed.

Lemma part_left_twice a b tmp f :
  part_left b tmp (part_left a tmp f)
  = part_left (match b with Some c => Some c | None => a end) tmp f.
Proof. destruct a, b; cbn; try done. apply insert_insert_eq. Qed.

(** The loop goes past every failing mirror, with one call of [urlopen]
    for each that [Request] accepts. *)
Lemma try_urls_past_failures target zip failing more w :
  can_download (fs w) zip -> Forall fails failing ->
  exists w_failed,
    try_urls target zip (failing ++ more) w = try_urls target zip more w_failed
    /\ fs w_failed = part_left (leftover failing None)
                       (FS.add_suffix zip ".part") (fs w)
    /\ requests w_failed = requests w ++ requested failing
    /\ can_download (fs w_failed) zip.
Proof.
  intros Hcan Hall. revert w Hcan.
  induction Hall as [| url failing Hfail Hall IH]; intros w Hcan.
  - exists w. cbn. by rewrite app_nil_r.
  - cbn [app try_urls].
    set (w1 := status_cb None 0 (Some 0) ("Trying: " +:+ url) w).
    destruct (download_fails url zip w1 Hcan Hfail) as (Hno & Hfs & Hcan2).
    pose proof (download_requests url zip w1) as Hreq.
    destruct (_download_with_progress url zip w1) as [ok w2].
    cbn in Hno, Hfs, Hcan2, Hreq. subst ok.
    destruct (IH w2 Hcan2) as (w3 & Hrun & Hfs3 & Hreq3 & Hcan3).
    exists w3. split; [done |]. split; [| split; [| done]].
    + rewrite Hfs3, Hfs. cbn [leftover]. rewrite part_left_twice.
      by rewrite (leftover_acc failing (match answer url with
                                         | None => None
                                         | Some data =>
                                           Some (body_received data)
                                         end)).
    + rewrite Hreq3, Hreq, (requested_cons url failing).
      by rewrite <- app_assoc.
Qed.

End failing_mirrors.

(** ** The streaming recognizer: partial results *)

Section streaming.
Context `{V : Vosk}.

Import VoskStreamer.

(** What one iteration can do to the rate limiter: nothing, or put one
    partial result and move the timestamp to now. *)
Lemma loop_iter_limiter (clk : tick) (s : t) :
  let run := _loop_iter clk s in
  partial_interval_ms run.1 = partial_interval_ms s
  /\ running run.1 = running s
  /\ ((existsb is_partial run.2 = false
       /\ _last_partial_time run.1 = _last_partial_time s)
      \/ (exists p, run.2 = [MsgPartial p]
                    /\ truthy p = true
                    /\ partial_interval_ms s
                       <= now_ms clk - _last_partial_time s
                    /\ _last_partial_time run.1 = now_ms clk)).
Proof.
  cbn zeta. unfold _loop_iter.
  destruct (queue s) as [| bts q]; cbn; [by auto |].
  destruct (rec s) as [r |]; cbn; [| by auto].
  unfold decode_frame.
  destruct (AcceptWaveform r bts) as [[e | [|]] r1]; cbn; [by auto | |].
  - destruct (Result r1) as [[e | res] r2]; cbn; [by auto |].
    destruct (result_text "text" res) as [txt |]; cbn; [| by auto].
    destruct (truthy txt); cbn; by auto.
  - destruct (PartialResult r1) as [[e | res] r2]; cbn; [by auto |].
    destruct (result_text "partial" res) as [p |]; cbn; [| by auto].
    destruct (truthy p) eqn:Hp; cbn; [| by auto].
    destruct (Z.leb_spec (partial_interval_ms s)
                (now_ms clk - _last_partial_time s)); cbn; [| by auto].
    do 2 (split; [done |]). right. by exists p.
Qed.

Lemma loop_iters_spaced (clks : list tick) (s : t) :
  spaced (partial_interval_ms s) (_last_partial_time s)
    (partial_times (map now_ms clks) (_loop_iters clks s).2).
Proof.
  revert s. induction clks as [| clk clks IH]; intros s; cbn; [done |].
  pose proof (loop_iter_limiter clk s) as (Hint & _ & Hcase).
  destruct (_loop_iter clk s) as [s1 out]. cbn in Hint, Hcase.
  specialize (IH s1). destruct (_loop_iters clks s1) as [s2 outs].
  cbn in *. rewrite Hint in IH.
  destruct Hcase as [[-> Hlast] | (p & -> & _ & Hle & Hlast)].
  - by rewrite Hlast in IH.
  - cbn. rewrite Hlast in IH. done.
Qed.

End streaming.

Lemma spaced_after (interval last : Z) (ts : list Z) :
  0 <= interval -> spaced interval last ts ->
  forall t, t ∈ ts -> interval <= t - last.
Proof.
  intros Hi. revert last. induction ts as [| t0 ts IH]; intros last Hs t Ht.
  - by apply elem_of_nil in Ht.
  - destruct Hs as [H0 Hs]. apply elem_of_cons in Ht as [-> | Ht]; [done |].
    specialize (IH t0 Hs t Ht). lia.
Qed.

(** Any two readings of a spaced list are at least the interval apart. *)
Lemma spaced_apart (interval last : Z) (ts : list Z) :
  spaced interval last ts ->
  forall (i j : nat) (ti tj : Z),
    (i < j)%nat -> ts !! i = Some ti -> ts !! j = Some tj ->
    interval <= Z.abs (tj - ti).
Proof.
  destruct (Z.le_gt_cases 0 interval) as [Hi | Hi]; [| intros; lia].
  revert last. induction ts as [| t0 ts IH]; intros last Hs i j ti tj Hij Hti Htj.
  - done.
  - destruct Hs as [_ Hs]. destruct j as [| j]; [lia |]. cbn in Htj.
    destruct i as [| i]; cbn in Hti.
    + injection Hti as ->.
      pose proof (spaced_after interval ti ts Hi Hs tj) as Hge.
      specialize (Hge ltac:(by eapply list_elem_of_lookup_2)). lia.
    + eapply (IH t0 Hs i j); [lia | done | done].
Qed.

(** One iteration of the echo recognizer on a frame that continues the
    utterance. *)
Lemma echo_partial_step (s : @VoskStreamer.t echo_decoder) (r b : bytes)
    (q : list bytes) (now : Z) :
  VoskStreamer.rec s = Some (r : @recognizer echo_decoder) ->
  VoskStreamer.queue s = (x01 :: b) :: q ->
  @VoskStreamer._loop_iter echo_decoder (at_ms now) s
  = if VoskStreamer.partial_interval_ms s
       <=? now - VoskStreamer._last_partial_time s
    then (VoskStreamer.set_last_partial_time now
            (@VoskStreamer.set_rec echo_decoder (Some (x01 :: b))
               (VoskStreamer.set_queue q s)),
          [MsgPartial "hello"])
    else (@VoskStreamer.set_rec echo_decoder (Some (x01 :: b))
            (VoskStreamer.set_queue q s), []).
Proof.
  intros Hr Hq. unfold VoskStreamer._loop_iter. rewrite Hq.
  cbn [VoskStreamer.rec VoskStreamer.set_queue].
  rewrite Hr. unfold VoskStreamer.decode_frame.
  change (@AcceptWaveform echo_decoder r (x01 :: b))
    with (@inr exn bool false, x01 :: b).
  cbn iota.
  change (@PartialResult echo_decoder (x01 :: b))
    with (@inr exn string "{partial: hello}", x01 :: b).
  cbn iota.
  change (@VoskStreamer.result_text echo_decoder "partial" "{partial: hello}")
    with (Some "hello").
  reflexivity.
Qed.

(** C3, as stated, fails on its scenario: a recognizer just started, fed
    partial hypotheses at clock readings 0, 50, 100 and 160 ms with an
    interval of 80 ms, emits the one at 100 only (at reading 0 no 80 ms
    have passed since the initial timestamp 0.0). *)
Lemma first_partial_at_zero_is_suppressed :
  let s := echo_streamer 80 [[x01]; [x01]; [x01]; [x01]] in
  let nows := [0; 50; 100; 160] in
  partial_times nows
    (@VoskStreamer._loop_iters echo_decoder (map at_ms nows) s).2 = [100]
  /\ partial_times nows
       (@VoskStreamer._loop_iters echo_decoder (map at_ms nows) s).2
     <> [0; 100].
Proof. vm_compute. split; [reflexivity | discriminate]. Qed.

(** C3, amended. In the loop of the streaming recognizer a partial result
    is put on the queue only if its text is not empty and the clock is at
    least [partial_interval_ms] past [_last_partial_time], which holds the
    clock reading of the last partial emitted, and 0.0 before the first;
    so any two partials emitted for one sequence of frames are at least
    the interval apart. For partial hypotheses at clock readings [T],
    [T + 50], [T + 100], [T + 160] on a recognizer just started, with an
    interval of 80 ms, the partials at [T] and [T + 100] are emitted and
    no other, provided [T >= 80] (any reading of a wall clock). *)
Theorem partials_rate_limited :
  (forall (V : Vosk) (clk : tick) (s : VoskStreamer.t) (p : string),
      MsgPartial p ∈ (VoskStreamer._loop_iter clk s).2 ->
      p <> ""
      /\ VoskStreamer.partial_interval_ms s
         <= now_ms clk - VoskStreamer._last_partial_time s
      /\ VoskStreamer._last_partial_time (VoskStreamer._loop_iter clk s).1
         = now_ms clk)
  /\ (forall (V : Vosk) (clk : tick) (s : VoskStreamer.t),
         existsb is_partial (VoskStreamer._loop_iter clk s).2 = false ->
         VoskStreamer._last_partial_time (VoskStreamer._loop_iter clk s).1
         = VoskStreamer._last_partial_time s)
  /\ (forall (V : Vosk) (clks : list tick) (s : VoskStreamer.t)
             (i j : nat) (ti tj : Z),
         let times := partial_times (map now_ms clks)
                        (VoskStreamer._loop_iters clks s).2 in
         (i < j)%nat -> times !! i = Some ti -> times !! j = Some tj ->
         VoskStreamer.partial_interval_ms s <= Z.abs (tj - ti))
  /\ (forall T : Z, 80 <= T ->
         let s := echo_streamer 80 [[x01]; [x01]; [x01]; [x01]] in
         let nows := [T; T + 50; T + 100; T + 160] in
         partial_times nows
           (@VoskStreamer._loop_iters echo_decoder (map at_ms nows) s).2
         = [T; T + 100]).
Proof.
  split; [| split; [| split]].
  - intros V clk s p Hin.
    pose proof (loop_iter_limiter clk s) as (_ & _ & Hcase).
    cbn zeta in Hcase.
    destruct Hcase as [[Hno _] | (p' & Hout & Hp & Hle & Hlast)].
    + exfalso.
      assert (Hyes : existsb is_partial (VoskStreamer._loop_iter clk s).2
                     = true).
      { apply existsb_exists. exists (MsgPartial p).
        split; [by apply list_elem_of_In | done]. }
      congruence.
    + rewrite Hout in Hin. apply list_elem_of_singleton in Hin.
      injection Hin as ->. repeat split; [| done | done].
      intros ->. discriminate.
  - intros V clk s Hno.
    pose proof (loop_iter_limiter clk s) as (_ & _ & Hcase).
    cbn zeta in Hcase.
    destruct Hcase as [[_ Hlast] | (p' & Hout & _)]; [done |].
    rewrite Hout in Hno. discriminate.
  - intros V clks s i j ti tj times Hij Hi Hj.
    eapply spaced_apart; [apply (loop_iters_spaced clks s) | done..].
  - intros T HT. cbn zeta.
    replace (echo_streamer 80 [[x01]; [x01]; [x01]; [x01]])
      with (@VoskStreamer.Streamer echo_decoder CONFIG.model_target_dir 16000
              80 (Some tt) (Some []) [[x01]; [x01]; [x01]; [x01]] true 0)
      by (vm_compute; reflexivity).
    cbn [map VoskStreamer._loop_iters].
    repeat (erewrite echo_partial_step by reflexivity;
            cbn [VoskStreamer.partial_interval_ms
                 VoskStreamer._last_partial_time VoskStreamer.set_rec
                 VoskStreamer.set_queue VoskStreamer.set_last_partial_time];
            match goal with |- context [Z.leb ?a ?b] =>
              destruct (Z.leb_spec a b); try lia end).
    reflexivity.
Qed.

(** ** The streaming recognizer: the limiter across utterances *)

(** C10. A frame that ends an utterance leaves [_last_partial_time] as it
    was (nothing resets it, the flush at exit included), so a partial of
    the next utterance that comes less than [partial_interval_ms] after
    the last partial emitted for the utterance before is suppressed. *)
Theorem limiter_spans_utterances `{V : Vosk} (s : VoskStreamer.t)
    (r r1 : recognizer) (final next : bytes) (q : list bytes)
    (clk1 clk2 : tick) :
  VoskStreamer.rec s = Some r ->
  VoskStreamer.queue s = final :: next :: q ->
  AcceptWaveform r final = (inr true, r1) ->
  now_ms clk2 - VoskStreamer._last_partial_time s
  < VoskStreamer.partial_interval_ms s ->
  let run1 := VoskStreamer._loop_iter clk1 s in
  let run2 := VoskStreamer._loop_iter clk2 run1.1 in
  VoskStreamer._last_partial_time run1.1 = VoskStreamer._last_partial_time s
  /\ existsb is_partial run1.2 = false
  /\ VoskStreamer.queue run1.1 = next :: q
  /\ existsb is_partial run2.2 = false
  /\ VoskStreamer.queue run2.1 = q
  /\ VoskStreamer._last_partial_time run2.1
     = VoskStreamer._last_partial_time s
  /\ VoskStreamer._last_partial_time (VoskStreamer.flush_final clk2 run2.1).1
     = VoskStreamer._last_partial_time s.
Proof.
  intros Hr Hq Hacc Hlt. cbn zeta.
  assert (H1 : VoskStreamer._last_partial_time (VoskStreamer._loop_iter clk1 s).1
               = VoskStreamer._last_partial_time s
               /\ existsb is_partial (VoskStreamer._loop_iter clk1 s).2 = false
               /\ VoskStreamer.queue (VoskStreamer._loop_iter clk1 s).1
                  = next :: q).
  { unfold VoskStreamer._loop_iter. rewrite Hq. cbn. rewrite Hr.
    unfold VoskStreamer.decode_frame. rewrite Hacc.
    destruct (Result r1) as [[e | res] r2]; cbn; [done |].
    destruct (VoskStreamer.result_text "text" res) as [txt |]; cbn; [| done].
    by destruct (truthy txt). }
  destruct H1 as (Hlast1 & Hno1 & Hq1).
  pose proof (loop_iter_limiter clk1 s) as (Hint1 & _ & _).
  cbn zeta in Hint1.
  set (s1 := (VoskStreamer._loop_iter clk1 s).1) in *.
  pose proof (loop_iter_limiter clk2 s1) as (_ & _ & Hcase).
  cbn zeta in Hcase.
  assert (Hq2 : VoskStreamer.queue (VoskStreamer._loop_iter clk2 s1).1 = q).
  { unfold VoskStreamer._loop_iter. rewrite Hq1. cbn.
    destruct (VoskStreamer.rec s1) as [r' |]; cbn; [| done].
    unfold VoskStreamer.decode_frame.
    destruct (AcceptWaveform r' next) as [[e | [|]] r2]; cbn; [done | |].
    - destruct (Result r2) as [[e | res] r3]; cbn; [done |].
      destruct (VoskStreamer.result_text "text" res) as [txt |]; cbn;
        [| done]. by destruct (truthy txt).
    - destruct (PartialResult r2) as [[e | res] r3]; cbn; [done |].
      destruct (VoskStreamer.result_text "partial" res) as [p |]; cbn;
        [| done].
      by destruct (truthy p && _). }
  destruct Hcase as [[Hno2 Hlast2] | (p & _ & _ & Hle & _)]; [| lia].
  repeat split; try done; try congruence.
  rewrite <- Hlast1, <- Hlast2.
  generalize (VoskStreamer._loop_iter clk2 s1).1. intros s2.
  unfold VoskStreamer.flush_final.
  destruct (VoskStreamer.rec s2) as [r' |]; [| done].
  destruct (FinalResult r') as [[e | res] r2]; cbn; [done |].
  destruct (VoskStreamer.result_text "text" res) as [txt |]; cbn; [| done].
  by destruct (truthy txt).
Qed.

(** A partial emitted at 1000 ms, the end of the utterance at 1040 ms, the
    first partial of the next utterance at 1060 ms: suppressed, with an
    interval of 80 ms. *)
Lemma limiter_spans_utterances_witness :
  let s := (@VoskStreamer._loop_iter echo_decoder (at_ms 1000)
              (echo_streamer 80 [[x01]; [x00]; [x01]])).1 in
  let run1 := @VoskStreamer._loop_iter echo_decoder (at_ms 1040) s in
  let run2 := @VoskStreamer._loop_iter echo_decoder (at_ms 1060) run1.1 in
  VoskStreamer._last_partial_time run1.1 = VoskStreamer._last_partial_time s
  /\ existsb is_partial run1.2 = false
  /\ VoskStreamer.queue run1.1 = [x01] :: []
  /\ existsb is_partial run2.2 = false
  /\ VoskStreamer.queue run2.1 = []
  /\ VoskStreamer._last_partial_time run2.1
     = VoskStreamer._last_partial_time s
  /\ VoskStreamer._last_partial_time
       (@VoskStreamer.flush_final echo_decoder (at_ms 1060) run2.1).1
     = VoskStreamer._last_partial_time s.
Proof.
  cbn zeta.
  apply (@limiter_spans_utterances echo_decoder _ ([x01] : bytes)
           ([x00] : bytes) [x00] [x01] [] (at_ms 1040) (at_ms 1060)).
  - vm_compute. reflexivity.
  - vm_compute. reflexivity.
  - vm_compute. reflexivity.
  - vm_compute. reflexivity.
Defined.

(** ** The streaming recognizer: exceptions of the decoder *)

Section decoding.
Context `{V : Vosk}.

Import VoskStreamer.

Lemma decode_frame_keeps (r : recognizer) (bts : bytes) (clk : tick)
    (s : t) :
  let run := decode_frame r bts clk s in
  queue run.1 = queue s /\ is_Some (rec run.1).
Proof.
  cbn zeta. unfold decode_frame.
  destruct (AcceptWaveform r bts) as [[e | [|]] r1]; cbn; [by eauto | |].
  - destruct (Result r1) as [[e | res] r2]; cbn; [by eauto |].
    destruct (result_text "text" res) as [txt |]; cbn; [| by eauto].
    destruct (truthy txt); cbn; by eauto.
  - destruct (PartialResult r1) as [[e | res] r2]; cbn; [by eauto |].
    destruct (result_text "partial" res) as [p |]; cbn; [| by eauto].
    destruct (truthy p && _); cbn; by eauto.
Qed.

(** An iteration takes one frame off the queue, whatever the decoder
    does with it. *)
Lemma loop_iter_queue (clk : tick) (s : t) :
  queue (_loop_iter clk s).1 = tail (queue s).
Proof.
  unfold _loop_iter. destruct (queue s) as [| bts q] eqn:Hq; cbn; [done |].
  destruct (rec s) as [r |]; cbn; [| done].
  by destruct (decode_frame_keeps r bts clk (set_queue q s)) as [-> _].
Qed.

Lemma loop_iters_drain (clks : list tick) (s : t) :
  let run := _loop_iters clks s in
  queue run.1 = drop (List.length clks) (queue s)
  /\ running run.1 = running s
  /\ List.length run.2 = List.length clks.
Proof.
  cbn zeta. revert s. induction clks as [| clk clks IH]; intros s.
  - cbn. by rewrite drop_0.
  - cbn [_loop_iters List.length].
    pose proof (loop_iter_queue clk s) as Hq.
    pose proof (loop_iter_limiter clk s) as (_ & Hrun & _). cbn zeta in Hrun.
    destruct (_loop_iter clk s) as [s1 out]. cbn [fst snd] in Hq, Hrun.
    destruct (IH s1) as (Hq' & Hrun' & Hlen).
    destruct (_loop_iters clks s1) as [s2 outs]. cbn [fst snd] in *.
    rewrite Hq', Hq, Hrun', Hrun. cbn [List.length]. rewrite Hlen.
    repeat split.
    destruct (queue s); cbn; [by destruct (List.length clks) | done].
Qed.

(** A decoder exception gives exactly the status message. *)
Lemma decode_raises_status (r : recognizer) (bts : bytes) (e : exn)
    (clk : tick) (s : t) :
  decode_raises r bts e -> (decode_frame r bts clk s).2 = [vosk_error e].
Proof.
  unfold decode_raises, decode_frame.
  intros [H | [(r1 & Ha & H) | (r1 & Ha & H)]].
  - destruct (AcceptWaveform r bts) as [res r1]. cbn in H. by subst res.
  - rewrite Ha. destruct (Result r1) as [res r2]. cbn in H. by subst res.
  - rewrite Ha. destruct (PartialResult r1) as [res r2]. cbn in H.
    by subst res.
Qed.

End decoding.

(** C6. When decoding a frame raises, the iteration of the loop puts one
    status message (the exception, in the error colour) on the queue and
    nothing else, and the loop goes on: the recognizer stays as running as
    it was, and the iterations that follow take every remaining frame off
    the queue. *)
Theorem decode_exception_reported `{V : Vosk} (s : VoskStreamer.t)
    (r : recognizer) (bts : bytes) (q : list bytes) (e : exn)
    (clk : tick) (clks : list tick) :
  VoskStreamer.rec s = Some r ->
  VoskStreamer.queue s = bts :: q ->
  VoskStreamer.decode_raises r bts e ->
  List.length clks = List.length q ->
  let run := VoskStreamer._loop_iter clk s in
  let rest := VoskStreamer._loop_iters clks run.1 in
  run.2 = [MsgStatus ("VOSK error: " +:+ e) CONFIG.error]
  /\ VoskStreamer.queue run.1 = q
  /\ VoskStreamer.running run.1 = VoskStreamer.running s
  /\ is_Some (VoskStreamer.rec run.1)
  /\ VoskStreamer._loop_iters (clk :: clks) s = (rest.1, run.2 :: rest.2)
  /\ VoskStreamer.queue rest.1 = []
  /\ VoskStreamer.running rest.1 = VoskStreamer.running s
  /\ List.length rest.2 = List.length q.
Proof.
  intros Hr Hq Hraise Hlen. cbn zeta.
  pose proof (loop_iter_queue clk s) as Hq1. rewrite Hq in Hq1. cbn in Hq1.
  pose proof (loop_iter_limiter clk s) as (_ & Hrun1 & _). cbn zeta in Hrun1.
  assert (Hout : (VoskStreamer._loop_iter clk s).2
                 = [VoskStreamer.vosk_error e]
                 /\ is_Some (VoskStreamer.rec (VoskStreamer._loop_iter clk s).1)).
  { unfold VoskStreamer._loop_iter. rewrite Hq. cbn. rewrite Hr.
    split; [by apply decode_raises_status | apply decode_frame_keeps]. }
  destruct Hout as [Hout Hrec].
  pose proof (loop_iters_drain clks (VoskStreamer._loop_iter clk s).1)
    as (Hq2 & Hrun2 & Hlen2).
  cbn zeta in Hq2, Hrun2, Hlen2.
  cbn [VoskStreamer._loop_iters].
  destruct (VoskStreamer._loop_iter clk s) as [s1 out]. cbn [fst snd] in *.
  destruct (VoskStreamer._loop_iters clks s1) as [s2 outs].
  cbn [fst snd] in *.
  subst out. repeat split; try done; try congruence.
  rewrite Hq2, Hq1, Hlen. apply drop_all.
Qed.

(** The echo recognizer with a bad frame first in its queue: one status
    message, and the two frames behind it are decoded. *)
Lemma decode_exception_reported_witness :
  let s := echo_streamer 80 [[xff]; [x01]; [x00]] in
  let run := @VoskStreamer._loop_iter echo_decoder (at_ms 1000) s in
  let rest := @VoskStreamer._loop_iters echo_decoder
                [at_ms 1100; at_ms 1200] run.1 in
  run.2 = [MsgStatus ("VOSK error: " +:+ "bad frame") CONFIG.error]
  /\ VoskStreamer.queue run.1 = [[x01]; [x00]]
  /\ VoskStreamer.running run.1 = VoskStreamer.running s
  /\ is_Some (VoskStreamer.rec run.1)
  /\ @VoskStreamer._loop_iters echo_decoder
       (at_ms 1000 :: [at_ms 1100; at_ms 1200]) s
     = (rest.1, run.2 :: rest.2)
  /\ VoskStreamer.queue rest.1 = []
  /\ VoskStreamer.running rest.1 = VoskStreamer.running s
  /\ List.length rest.2 = List.length [[x01]; [x00]].
Proof.
  cbn zeta.
  apply (@decode_exception_reported echo_decoder
           (echo_streamer 80 [[xff]; [x01]; [x00]]) ([] : bytes) [xff]
           [[x01]; [x00]] "bad frame" (at_ms 1000)
           [at_ms 1100; at_ms 1200]).
  - vm_compute. reflexivity.
  - vm_compute. reflexivity.
  - left. vm_compute. reflexivity.
  - reflexivity.
Defined.

(** ** The streaming recognizer: started only once loaded *)

Section loading.
Context `{V : Vosk}.

Import VoskStreamer.

(** [load] fails, and leaves [self.rec] alone, unless the import, the
    directory test, [Model] and [KaldiRecognizer] all go through. *)
Lemma load_result (f : gmap FS.path FS.node) (s : t) :
  let run := load f s in
  if run.1.1 then
    vosk_import = None
    /\ FS.isdir f (model_path s) = true
    /\ (exists m r, Model f (model_path s) = inr m
                    /\ KaldiRecognizer m (sample_rate s) = inr r
                    /\ rec run.1.2 = Some (SetWords r false))
  else rec run.1.2 = rec s.
Proof.
  cbn zeta. unfold load.
  destruct vosk_import as [e |]; cbn; [done |].
  destruct (FS.isdir f (model_path s)); cbn; [| done].
  destruct (Model f (model_path s)) as [e | m]; cbn; [done |].
  destruct (KaldiRecognizer m (sample_rate s)) as [e | r] eqn:Hk; cbn;
    [done |].
  split; [done |]. split; [done |]. by exists m, r.
Qed.

Lemma load_keeps_running (f : gmap FS.path FS.node) (s : t) :
  running (load f s).1.2 = running s.
Proof.
  unfold load.
  destruct vosk_import as [e |]; cbn; [done |].
  destruct (FS.isdir f (model_path s)); cbn; [| done].
  destruct (Model f (model_path s)) as [e | m]; cbn; [done |].
  by destruct (KaldiRecognizer m (sample_rate s)) as [e | r].
Qed.

Lemma loop_iter_rec_none (clk : tick) (s : t) :
  rec s = None -> rec (_loop_iter clk s).1 = None.
Proof.
  intros Hr. unfold _loop_iter. destruct (queue s) as [| bts q]; [done |].
  cbn. by rewrite Hr.
Qed.

(** One event on a recognizer that never loaded: no thread is started,
    and the recognizer stays unloaded unless the event is a [load] that
    succeeds. *)
Lemma step_unloaded (ev : event) (s : t) (loops : nat) :
  rec s = None -> running s = false ->
  let run := step ev (s, loops) in
  run.1.2 <> Spawned
  /\ ((run.1.2 = Loaded true /\ is_Some (rec run.1.1.1))
      \/ (rec run.1.1.1 = None /\ running run.1.1.1 = false
          /\ (run.1.1.2 <= loops)%nat)).
Proof.
  intros Hr Hrun. cbn zeta. destruct ev as [f | | | bts | v | clk]; cbn.
  - pose proof (load_result f s) as Hl. pose proof (load_keeps_running f s).
    destruct (load f s) as [[ok s'] msgs]. cbn in *.
    split; [done |]. destruct ok.
    + left. split; [done |].
      destruct Hl as (_ & _ & m & r & _ & _ & ->). by eauto.
    + right. split; [congruence |]. split; [congruence | lia].
  - unfold start. rewrite Hr, Hrun. cbn. split; [done |]. right. by auto.
  - split; [done |]. right. by auto.
  - split; [done |]. right. by auto.
  - split; [done |]. right. by auto.
  - destruct loops as [| loops']; cbn; [split; [done |]; right; by auto |].
    rewrite Hrun. unfold flush_final. rewrite Hr. cbn.
    split; [done |]. right. repeat split; [done.. | lia].
Qed.

(** A thread is started only after a [load] that returned [True]. *)
Lemma run_spawn_after_load (evs : list event) (s : t) (loops : nat) :
  rec s = None -> running s = false ->
  forall i : nat,
    (run evs (s, loops)).1.2 !! i = Some Spawned ->
    exists j : nat,
      (j < i)%nat /\ (run evs (s, loops)).1.2 !! j = Some (Loaded true).
Proof.
  revert s loops. induction evs as [| ev evs IH]; intros s loops Hr Hrun i.
  - done.
  - cbn [run].
    pose proof (step_unloaded ev s loops Hr Hrun) as [Hns Hcase].
    cbn zeta in Hns, Hcase.
    destruct (step ev (s, loops)) as [[[s1 l1] o] msgs]. cbn in Hns, Hcase.
    specialize (IH s1 l1).
    destruct (run evs (s1, l1)) as [[st2 os] msgs']. cbn [fst snd] in *.
    destruct i as [| i]; cbn; [congruence |]. intros Hi.
    destruct Hcase as [[-> _] | (Hr1 & Hrun1 & _)].
    + exists 0%nat. split; [lia | done].
    + destruct (IH Hr1 Hrun1 i Hi) as (j & Hj & Hlj).
      exists (S j). split; [lia | done].
Qed.

Lemma loop_iter_keeps_loaded (clk : tick) (s : t) :
  is_Some (rec s) -> is_Some (rec (_loop_iter clk s).1).
Proof.
  intros [r Hr]. unfold _loop_iter.
  destruct (queue s) as [| bts q]; cbn; [by eauto |].
  rewrite Hr. apply decode_frame_keeps.
Qed.

Lemma flush_final_keeps_loaded (clk : tick) (s : t) :
  is_Some (rec s) -> is_Some (rec (flush_final clk s).1).
Proof.
  intros [r Hr]. unfold flush_final. rewrite Hr.
  destruct (FinalResult r) as [[e | res] r1]; cbn; [by eauto |].
  destruct (result_text "text" res) as [txt |]; cbn; [| by eauto].
  destruct (truthy txt); cbn; by eauto.
Qed.

Lemma step_keeps_loaded (ev : event) (s : t) (loops : nat) :
  is_Some (rec s) -> is_Some (rec (step ev (s, loops)).1.1.1).
Proof.
  intros Hs. destruct ev as [f | | | bts | v | clk]; cbn; try done.
  - pose proof (load_result f s) as Hl.
    destruct (load f s) as [[ok s'] msgs]. cbn in *.
    destruct ok; [| congruence].
    destruct Hl as (_ & _ & m & r & _ & _ & ->). by eauto.
  - unfold start. by destruct (running s || _).
  - destruct loops as [| loops']; [done |].
    destruct (running s).
    + pose proof (loop_iter_keeps_loaded clk s Hs) as H1.
      by destruct (_loop_iter clk s).
    + pose proof (flush_final_keeps_loaded clk s Hs) as H1.
      by destruct (flush_final clk s).
Qed.

Lemma run_keeps_loaded (evs : list event) (s : t) (loops : nat) :
  is_Some (rec s) -> is_Some (rec (run evs (s, loops)).1.1.1).
Proof.
  revert s loops. induction evs as [| ev evs IH]; intros s loops Hs; [done |].
  cbn [run]. pose proof (step_keeps_loaded ev s loops Hs) as H1.
  destruct (step ev (s, loops)) as [[[s1 l1] o] msgs]. cbn in H1.
  specialize (IH s1 l1 H1).
  by destruct (run evs (s1, l1)) as [[st2 os] msgs'].
Qed.

(** As long as no [load] has succeeded the recognizer is not running and
    has no loop thread. *)
Lemma run_unloaded_idle (evs : list event) (s : t) :
  rec s = None -> running s = false ->
  rec (run evs (s, 0%nat)).1.1.1 = None ->
  running (run evs (s, 0%nat)).1.1.1 = false
  /\ (run evs (s, 0%nat)).1.1.2 = 0%nat.
Proof.
  revert s. induction evs as [| ev evs IH]; intros s Hr Hrun; [done |].
  cbn [run].
  pose proof (step_unloaded ev s 0%nat Hr Hrun) as [_ Hcase].
  cbn zeta in Hcase.
  destruct (step ev (s, 0%nat)) as [[[s1 l1] o] msgs]. cbn in Hcase.
  pose proof (run_keeps_loaded evs s1 l1) as Hmono.
  specialize (IH s1).
  destruct Hcase as [[_ Hs1] | (Hr1 & Hrun1 & Hl1)].
  - destruct (run evs (s1, l1)) as [[st2 os] msgs']. cbn [fst snd] in *.
    intros Hnone. destruct (Hmono Hs1) as [r2 Hr2]. congruence.
  - assert (l1 = 0%nat) as -> by lia.
    destruct (run evs (s1, 0%nat)) as [[st2 os] msgs']. cbn [fst snd] in *.
    by apply IH.
Qed.

End loading.

(** C7. [start] does nothing, and starts no thread, while [self.rec] is
    [None]; [load] returns [False] and leaves [self.rec] as it was when
    the model path is no directory or [Model] or [KaldiRecognizer] raises,
    and sets [self.rec] when it returns [True]. So whatever is done to a
    recognizer from its construction on, a loop thread is started only
    after a [load] that returned [True], and until then the recognizer is
    not running and has no loop thread. *)
Theorem never_started_before_loaded `{V : Vosk} :
  (forall s : VoskStreamer.t,
      VoskStreamer.rec s = None -> VoskStreamer.start s = (s, false))
  /\ (forall (f : gmap FS.path FS.node) (s : VoskStreamer.t),
         FS.isdir f (VoskStreamer.model_path s) = false ->
         (VoskStreamer.load f s).1.1 = false
         /\ VoskStreamer.rec (VoskStreamer.load f s).1.2 = VoskStreamer.rec s)
  /\ (forall (f : gmap FS.path FS.node) (s : VoskStreamer.t) (e : exn),
         Model f (VoskStreamer.model_path s) = inl e ->
         (VoskStreamer.load f s).1.1 = false
         /\ VoskStreamer.rec (VoskStreamer.load f s).1.2 = VoskStreamer.rec s)
  /\ (forall (f : gmap FS.path FS.node) (s : VoskStreamer.t)
             (m : vosk_model) (e : exn),
         Model f (VoskStreamer.model_path s) = inr m ->
         KaldiRecognizer m (VoskStreamer.sample_rate s) = inl e ->
         (VoskStreamer.load f s).1.1 = false
         /\ VoskStreamer.rec (VoskStreamer.load f s).1.2 = VoskStreamer.rec s)
  /\ (forall (f : gmap FS.path FS.node) (s : VoskStreamer.t),
         (VoskStreamer.load f s).1.1 = true ->
         is_Some (VoskStreamer.rec (VoskStreamer.load f s).1.2))
  /\ (forall (path : FS.path) (rate interval : Z)
             (evs : list VoskStreamer.event) (i : nat),
         let outs := (VoskStreamer.run evs
                        (VoskStreamer.__init__ path rate interval, 0%nat)).1.2 in
         outs !! i = Some VoskStreamer.Spawned ->
         exists j : nat,
           (j < i)%nat /\ outs !! j = Some (VoskStreamer.Loaded true))
  /\ (forall (path : FS.path) (rate interval : Z)
             (evs : list VoskStreamer.event),
         let st := (VoskStreamer.run evs
                      (VoskStreamer.__init__ path rate interval, 0%nat)).1.1 in
         VoskStreamer.rec st.1 = None ->
         VoskStreamer.running st.1 = false /\ st.2 = 0%nat).
Proof.
  split; [| split; [| split; [| split; [| split; [| split]]]]].
  - intros s Hr. unfold VoskStreamer.start. rewrite Hr.
    by rewrite orb_true_r.
  - intros f s Hdir. pose proof (load_result f s) as Hl. cbn zeta in Hl.
    destruct ((VoskStreamer.load f s).1.1); [| done].
    destruct Hl as (_ & Hd & _). congruence.
  - intros f s e Hm. pose proof (load_result f s) as Hl. cbn zeta in Hl.
    destruct ((VoskStreamer.load f s).1.1); [| done].
    destruct Hl as (_ & _ & m & r & Hm' & _). congruence.
  - intros f s m e Hm Hk. pose proof (load_result f s) as Hl.
    cbn zeta in Hl.
    destruct ((VoskStreamer.load f s).1.1); [| done].
    destruct Hl as (_ & _ & m' & r & Hm' & Hk' & _).
    rewrite Hm in Hm'. injection Hm' as <-. congruence.
  - intros f s Hok. pose proof (load_result f s) as Hl. cbn zeta in Hl.
    rewrite Hok in Hl. destruct Hl as (_ & _ & m & r & _ & _ & ->).
    by eauto.
  - intros path rate interval evs i. cbn zeta.
    by apply run_spawn_after_load.
  - intros path rate interval evs. cbn zeta.
    by apply run_unloaded_idle.
Qed.

(** ** The fallback worker *)

Section fallback.
Context `{SR : SpeechRecognition}.

Import GoogleSegmentWorker.

Lemma deliver_all_segment_queue (w : t) (puts : list (target * message))
    (q : queues) :
  segment_queue (foldl (deliver w) q puts) = segment_queue q.
Proof.
  revert q. induction puts as [| [tg m] puts IH]; intros q; cbn; [done |].
  rewrite IH. destruct tg; cbn; [done |]. by destruct (queue w).
Qed.

Lemma deliver_all_message_queue (w : t) (puts : list (target * message))
    (q : queues) :
  queue w = The_message_queue ->
  message_queue (foldl (deliver w) q puts) = message_queue q ++ puts.*2.
Proof.
  intros Hw. revert q.
  induction puts as [| [tg m] puts IH]; intros q; cbn.
  - by rewrite app_nil_r.
  - rewrite IH. destruct tg; cbn; [| rewrite Hw; cbn];
      by rewrite <- app_assoc.
Qed.

(** An iteration takes one chunk off [segment_queue], whatever the
    recognition does. *)
Lemma fallback_iter_queue (w : t) (clk : tick) (q : queues) :
  segment_queue (_loop_iter w clk q) = tail (segment_queue q).
Proof.
  unfold _loop_iter.
  destruct (segment_queue q) as [| raw rest] eqn:Hq; [by rewrite Hq |].
  by rewrite deliver_all_segment_queue.
Qed.

Lemma fallback_iters_drain (w : t) (clks : list tick) (q : queues) :
  segment_queue (_loop_iters w clks q)
  = drop (List.length clks) (segment_queue q).
Proof.
  revert q. induction clks as [| clk clks IH]; intros q; cbn [_loop_iters].
  - cbn. by rewrite drop_0.
  - rewrite IH, fallback_iter_queue. cbn [List.length].
    destruct (segment_queue q) as [| raw rest]; [| done].
    cbn. by destruct (List.length clks).
Qed.

End fallback.

(** Blank is what [str.strip] takes for white space: the no-break space
    U+00A0 and the next-line character U+0085 are part of it. *)
Lemma strip_takes_unicode_space :
  strip (String (ascii_of_nat 160) ("hi" +:+ String (ascii_of_nat 133) ""))
  = "hi"
  /\ strip (String (ascii_of_nat 160) (String (ascii_of_nat 133) "")) = "".
Proof. vm_compute. split; reflexivity. Qed.

(** C8, as stated, fails: a recognized result that is not empty but
    blank (three spaces) yields no transcription message. *)
Lemma blank_result_yields_no_final :
  let w := app_worker in
  let raw := [x02; x00] in
  (exists a, @AudioData scripted_service raw
               (GoogleSegmentWorker.sample_rate w)
               (GoogleSegmentWorker.sample_width w) = inr a
             /\ @recognize_google scripted_service a = Recognized "   ")
  /\ "   " <> ""
  /\ List.filter is_transcription
       (@GoogleSegmentWorker.recognize_chunk scripted_service w raw
          (at_ms 1000)).*2 = [].
Proof.
  cbn zeta. split; [| split].
  - exists [x02; x00]. split; vm_compute; reflexivity.
  - discriminate.
  - vm_compute. reflexivity.
Qed.

(** C8, amended. For every chunk the worker takes off [segment_queue]: a
    recognized result that is not blank (not empty once stripped of white
    space) yields exactly one transcription message, with the text as
    recognized, and no error status; a blank result and "no speech"
    ([UnknownValueError]) yield no transcription and no error status; a
    transport failure ([RequestError]) yields the error status
    "Network/ASR Error" and no transcription; any other exception yields
    one error status. In every case the iteration ends with the chunk off
    the queue, so that as many iterations as there are chunks take them
    all; the messages go to [self.queue]. *)
Theorem fallback_chunk_outcomes `{SR : SpeechRecognition}
    (w : GoogleSegmentWorker.t) (raw : bytes) (clk : tick) :
  let puts := (GoogleSegmentWorker.recognize_chunk w raw clk).*2 in
  let finals := List.filter is_transcription puts in
  let errors := List.filter is_error_status puts in
  match AudioData raw (GoogleSegmentWorker.sample_rate w)
          (GoogleSegmentWorker.sample_width w) with
  | inl e =>
    finals = []
    /\ errors = [MsgStatus ("Google worker error: " +:+ e) CONFIG.error]
  | inr a =>
    match recognize_google a with
    | Recognized text =>
      finals = (if truthy (strip text)
                then [MsgTranscription text (hms clk)] else [])
      /\ errors = []
    | UnknownValueError => finals = [] /\ errors = []
    | RequestError _ =>
      finals = [] /\ errors = [MsgStatus "Network/ASR Error" CONFIG.error]
    | OtherError e =>
      finals = []
      /\ errors = [MsgStatus ("Google worker error: " +:+ e) CONFIG.error]
    end
  end
  /\ (forall (q : queues) (rest : list bytes),
         segment_queue q = raw :: rest ->
         segment_queue (GoogleSegmentWorker._loop_iter w clk q) = rest
         /\ (GoogleSegmentWorker.queue w
             = GoogleSegmentWorker.The_message_queue ->
             message_queue (GoogleSegmentWorker._loop_iter w clk q)
             = message_queue q ++ puts))
  /\ (forall (q : queues) (clks : list tick),
         List.length clks = List.length (segment_queue q) ->
         segment_queue (GoogleSegmentWorker._loop_iters w clks q) = []).
Proof.
  cbn zeta. split; [| split].
  - unfold GoogleSegmentWorker.recognize_chunk.
    destruct (AudioData raw _ _) as [e | a]; [by vm_compute |].
    destruct (recognize_google a) as [text | | e | e].
    + destruct (truthy (strip text)); by vm_compute.
    + by vm_compute.
    + by vm_compute.
    + by vm_compute.
  - intros q rest Hq. split.
    + by rewrite fallback_iter_queue, Hq.
    + intros Hw. unfold GoogleSegmentWorker._loop_iter. rewrite Hq.
      by rewrite deliver_all_message_queue.
  - intros q clks Hlen. rewrite fallback_iters_drain, Hlen. apply drop_all.
Qed.

(** ** The capture loop and its sink *)

(** Nothing the program does to the capture object sets [sink]. *)
Lemma sink_never_set (pa_ok : bool) (rate chunk_ms : Z)
    (methods : list LowLatencyCapture.method) :
  LowLatencyCapture.sink (used_capture pa_ok rate chunk_ms methods) = None.
Proof.
  unfold used_capture.
  assert (Hgen : forall c, LowLatencyCapture.sink c = None ->
            LowLatencyCapture.sink
              (foldl (fun c m => LowLatencyCapture.apply m c) c methods)
            = None).
  { induction methods as [| m methods IH]; intros c Hc; [done |].
    cbn [foldl]. apply IH. destruct m as [av err | | v | idx]; cbn; try done.
    unfold LowLatencyCapture.start.
    destruct (negb av || negb (LowLatencyCapture.pa c)); [done |].
    destruct (LowLatencyCapture.running c); [done |].
    by destruct err. }
  by apply Hgen.
Qed.

(** C1, on the code. Every frame read puts its amplitude on
    [message_queue]; but the capture object of the program has no sink, so
    the frame goes to [segment_queue] even when the streaming recognizer
    is running, and that recognizer is left as it was. With
    [_capture_sink] as the sink (which the program never installs) the
    frame would go to the recognizer when it runs and to [segment_queue]
    otherwise. *)
Theorem frames_bypass_running_recognizer `{V : Vosk} (pa_ok : bool)
    (chunk_ms : Z) (methods : list LowLatencyCapture.method)
    (a : GeminiStreamingAutoDLApp.t) (vs : VoskStreamer.t)
    (data : bytes) :
  let c := used_capture pa_ok CONFIG.sample_rate chunk_ms methods in
  let running_vs := VoskStreamer.set_running true vs in
  let stopped_vs := VoskStreamer.set_running false vs in
  let app := fun o => GeminiStreamingAutoDLApp.set_vosk_streamer o a in
  let heard := fun arr app =>
    GeminiStreamingAutoDLApp.set_q
      (put_message (MsgAmplitude (rms_of arr))
         (GeminiStreamingAutoDLApp.q app)) app in
  let to_segment_queue := fun app =>
    GeminiStreamingAutoDLApp.set_q
      (put_segment data (GeminiStreamingAutoDLApp.q app)) app in
  match frombuffer_int16 data with
  | None =>
    GeminiStreamingAutoDLApp._read_loop_iter (inr data) c
      (app (Some running_vs)) = None
  | Some arr =>
    GeminiStreamingAutoDLApp._read_loop_iter (inr data) c
      (app (Some running_vs))
    = Some (to_segment_queue (heard arr (app (Some running_vs))))
    /\ GeminiStreamingAutoDLApp._read_loop_iter (inr data)
         (with_sink LowLatencyCapture.Bound_capture_sink c)
         (app (Some running_vs))
       = Some (heard arr
                 (app (Some (VoskStreamer.feed data running_vs))))
    /\ GeminiStreamingAutoDLApp._read_loop_iter (inr data)
         (with_sink LowLatencyCapture.Bound_capture_sink c)
         (app (Some stopped_vs))
       = Some (to_segment_queue (heard arr (app (Some stopped_vs))))
    /\ GeminiStreamingAutoDLApp._read_loop_iter (inr data)
         (with_sink LowLatencyCapture.Bound_capture_sink c) (app None)
       = Some (to_segment_queue (heard arr (app None)))
  end.
Proof.
  cbn zeta. unfold GeminiStreamingAutoDLApp._read_loop_iter.
  rewrite sink_never_set.
  destruct (frombuffer_int16 data) as [arr |]; [| done].
  repeat split.
Qed.

(** The application as it starts, with the echo recognizer loaded and
    running: a frame of two samples goes to [segment_queue], and the queue
    of the recognizer stays empty. *)
Example frame_not_fed_to_recognizer :
  let a0 := @GeminiStreamingAutoDLApp.__init__ echo_decoder true true
              CONFIG.chunk_ms in
  let a1 := @GeminiStreamingAutoDLApp._load_vosk_model echo_decoder
              empty_model_dir CONFIG.model_target_dir
              CONFIG.partial_update_ms a0 in
  let c := used_capture true CONFIG.sample_rate CONFIG.chunk_ms
             [LowLatencyCapture.Start true None] in
  let data := [x10; x00; xf0; xff] in
  (@VoskStreamer.running echo_decoder
     <$> GeminiStreamingAutoDLApp.vosk_streamer a1) = Some true
  /\ exists a2,
       @GeminiStreamingAutoDLApp._read_loop_iter echo_decoder (inr data) c a1
       = Some a2
       /\ segment_queue (GeminiStreamingAutoDLApp.q a2) = [data]
       /\ (@VoskStreamer.queue echo_decoder
             <$> GeminiStreamingAutoDLApp.vosk_streamer a2) = Some []
       /\ last (message_queue (GeminiStreamingAutoDLApp.q a2))
          = Some (MsgAmplitude (AmpRms [16; -16])).
Proof.
  cbn zeta. split; [vm_compute; reflexivity |].
  eexists. split; [vm_compute; reflexivity |].
  repeat split.
Qed.

(** * Further properties of the code *)

(** ** Provisioning: every mirror fails *)

(** X1. When every mirror fails, [auto_download_model] returns [False]
    after one call of [urlopen] for each mirror whose url [Request]
    accepts, in the order of the list; its last report is "All downloads
    failed", and the disk is as [os.makedirs] left it, but for the [.part]
    file of the last attempt that started to read a body. *)
Theorem all_mirrors_fail `{E : Env} (target_dir : FS.path)
    (urls : list string) (w : world) (f1 : gmap FS.path FS.node) :
  let zip_path := zip_path_of target_dir in
  FS.isdir (fs w) target_dir = false ->
  FS.makedirs (fs w) (FS.dirname target_dir) = inr f1 ->
  can_download f1 zip_path ->
  Forall fails urls ->
  let run := auto_download_model target_dir urls w in
  run.1 = inr false
  /\ requests run.2 = requests w ++ requested urls
  /\ last (progress run.2)
     = Some (StatusCall None 0 (Some 0) "All downloads failed")
  /\ fs run.2
     = part_left (leftover urls None) (FS.add_suffix zip_path ".part") f1.
Proof.
  cbn zeta. intros Hdir Hmk Hcan Hfail.
  unfold auto_download_model. rewrite Hdir, Hmk.
  change (FS.join (FS.dirname target_dir) CONFIG.model_zip)
    with (zip_path_of target_dir).
  set (w1 := set_fs (OpMakedirs (FS.dirname target_dir)) f1 w).
  destruct (try_urls_past_failures target_dir (zip_path_of target_dir)
              urls [] w1 Hcan Hfail) as (w2 & Hrun & Hfs & Hreq & _).
  rewrite app_nil_r in Hrun. rewrite Hrun. cbn.
  rewrite last_snoc. by rewrite Hfs, Hreq.
Qed.

(** Four mirrors, each failing in its own way: three calls of [urlopen],
    and the three bytes of the broken body in the [.part] file. *)
Lemma all_mirrors_fail_witness :
  let urls := [untyped_url; superscript_mirror; mirror_1;
               unreachable_mirror] in
  let run := @auto_download_model every_way_to_fail CONFIG.model_target_dir
               urls (fresh_world ∅) in
  run.1 = inr false
  /\ requests run.2 = requests (fresh_world ∅) ++ requested urls
  /\ last (progress run.2)
     = Some (StatusCall None 0 (Some 0) "All downloads failed")
  /\ fs run.2
     = part_left (@leftover every_way_to_fail urls None)
         (FS.add_suffix (zip_path_of CONFIG.model_target_dir) ".part")
         models_dir_only.
Proof.
  cbn zeta.
  apply (@all_mirrors_fail every_way_to_fail CONFIG.model_target_dir
           [untyped_url; superscript_mirror; mirror_1; unreachable_mirror]
           (fresh_world ∅) models_dir_only).
  - vm_compute. reflexivity.
  - vm_compute. reflexivity.
  - repeat split; vm_compute; reflexivity.
  - repeat constructor; vm_compute; reflexivity.
Defined.

(** ** Provisioning: progress reports *)

Lemma report_progress_progress downloaded total dest w :
  progress (report_progress downloaded total
              ("Downloading " +:+ FS.basename dest) w)
  = progress w ++ option_list (chunk_report total dest downloaded).
Proof.
  unfold report_progress, chunk_report.
  destruct (percent_of downloaded total); cbn; [by rewrite app_nil_r | done].
Qed.

Lemma omap_option_list {A B} (f : A -> option B) (x : A) (l : list A) :
  omap f (x :: l) = option_list (f x) ++ omap f l.
Proof. cbn. by destruct (f x). Qed.

Lemma read_chunks_progress data tmp dest total n w :
  progress (read_chunks data tmp dest total n w).2
  = progress w ++ omap (chunk_report total dest) (byte_counts data n).
Proof.
  revert n w. induction data as [| c rest IH | e]; intros n w.
  - cbn. by rewrite app_nil_r.
  - destruct c as [| b c]; [cbn; by rewrite app_nil_r |].
    set (chunk := b :: c).
    change (progress
              (read_chunks rest tmp dest total
                 (n + Z.of_nat (List.length chunk))
                 (report_progress (n + Z.of_nat (List.length chunk)) total
                    ("Downloading " +:+ FS.basename dest)
                    (set_fs (OpWrite tmp chunk)
                       (FS.write (fs w) tmp chunk) w))).2
            = progress w
              ++ omap (chunk_report total dest)
                   ((n + Z.of_nat (List.length chunk))
                    :: byte_counts rest (n + Z.of_nat (List.length chunk)))).
    rewrite IH, report_progress_progress, omap_option_list.
    cbn [progress set_fs]. by rewrite <- app_assoc.
  - cbn. by rewrite app_nil_r.
Qed.

(** The counts grow with every chunk, up to the number of bytes
    received. *)
Lemma byte_counts_grow data n :
  spaced 1 n (byte_counts data n)
  /\ last (n :: byte_counts data n)
     = Some (n + Z.of_nat (List.length (body_received data))).
Proof.
  revert n. induction data as [| c rest IH | e]; intros n.
  - cbn. split; [done | f_equal; lia].
  - destruct c as [| b c]; [cbn; split; [done | f_equal; lia] |].
    set (chunk := b :: c).
    change (byte_counts (SChunk chunk rest) n)
      with ((n + Z.of_nat (List.length chunk))
            :: byte_counts rest (n + Z.of_nat (List.length chunk))).
    change (body_received (SChunk chunk rest))
      with (chunk ++ body_received rest).
    destruct (IH (n + Z.of_nat (List.length chunk))) as [Hsp Hlast].
    split.
    + cbn [spaced]. split; [| done]. subst chunk. cbn [List.length]. lia.
    + rewrite length_app, Nat2Z.inj_add, Z.add_assoc, <- Hlast.
      by destruct (byte_counts rest _).
  - cbn. split; [done | f_equal; lia].
Qed.

(** X2. The reports of a download. When there is no body to read, or the
    [.part] file cannot be opened, the one report is the error. Else
    there is one report for each chunk read from the body, in order,
    carrying the number of bytes read so far (which grows with every
    chunk, up to the size of what was received), the total the mirror
    announced and the percent computed from the two; then one last
    report: 100 percent and the size of the whole body when the download
    succeeded, the error when it failed. *)
Theorem download_progress_reports `{E : Env} (url : string)
    (dest_path : FS.path) (w : world) :
  let run := _download_with_progress url dest_path w in
  let error := fun e =>
    StatusCall None 0 (Some 0) ("Download error: " +:+ e) in
  match answer url with
  | None => run.1 = false /\ exists e, progress run.2 = progress w ++ [error e]
  | Some data =>
    match FS.open_wb (fs w) (FS.add_suffix dest_path ".part") with
    | inl e => run.1 = false /\ progress run.2 = progress w ++ [error e]
    | inr _ =>
      let counts := byte_counts data 0 in
      spaced 1 0 counts
      /\ last (0 :: counts)
         = Some (Z.of_nat (List.length (body_received data)))
      /\ exists final,
           progress run.2
           = progress w
             ++ omap (chunk_report (announced url) dest_path) counts
             ++ [final]
           /\ if run.1 then
                body_bytes data = Some (body_received data)
                /\ final
                   = StatusCall (Some 100)
                       (Z.of_nat (List.length (body_received data)))
                       (announced url) "Download complete"
              else exists e, final = error e
    end
  end.
Proof.
  cbn zeta.
  unfold _download_with_progress, urlopen, download_error, announced, answer.
  destruct (Request url) as [e |]; cbn; [split; [done | by exists e] |].
  destruct (fetch url) as [e | header data] eqn:Hfetch; cbn;
    [split; [done | by exists e] |].
  destruct (parse_content_length header) as [e | total]; cbn;
    [split; [done | by exists e] |].
  destruct (FS.open_wb _ _) as [e | f1] eqn:Hopen; cbn; [done |].
  apply open_wb_inr in Hopen.
  pose proof (part_ne dest_path) as Hne.
  destruct (byte_counts_grow data 0) as [Hsp Hlast].
  split; [done |]. split; [done |].
  match goal with |- context [read_chunks data ?tmp dest_path ?tot ?n ?w1] =>
    pose proof (read_chunks_progress data tmp dest_path tot n w1) as Hp;
    destruct (read_chunks_spec data tmp dest_path tot n w1 [] Hne)
      as (steps & _ & _ & Hfs & Hres);
    [cbn; rewrite Hopen; apply lookup_insert_eq |];
    destruct (read_chunks data tmp dest_path tot n w1) as [res w2] end.
  cbn [fst snd progress set_fs] in *.
  destruct res as [e | got]; cbn.
  { eexists. rewrite Hp, <- app_assoc. split; [reflexivity |]. by eexists. }
  destruct Hres as [Hbytes ->].
  destruct (FS.replace _ _ _) as [e | f3]; cbn.
  { eexists. rewrite Hp, <- app_assoc. split; [reflexivity |]. by eexists. }
  eexists. rewrite Hp, <- app_assoc. split; [reflexivity |].
  split; [done |]. do 2 f_equal.
Qed.

(** ** Provisioning: extraction *)

Lemma extract_members_reports `{E : Env} members i total extract_to w :
  let run := extract_members members i total extract_to w in
  if run.1 then
    (disk_trace run.2).*1 = (disk_trace w).*1 ++ (OpExtract <$> members)
    /\ progress run.2
       = progress w ++ omap (member_report total) (numbered i members)
  else
    exists done m rest e,
      let before := extract_members done i total extract_to w in
      members = done ++ m :: rest
      /\ before.1 = true
      /\ FS.extract (fs before.2) extract_to m = (fs run.2, Some e)
      /\ (disk_trace run.2).*1
         = (disk_trace w).*1 ++ (OpExtract <$> (done ++ [m]))
      /\ progress run.2
         = progress w ++ omap (member_report total) (numbered i done)
           ++ [StatusCall None 0 (Some 0) ("Extract error: " +:+ e)].
Proof.
  cbn zeta. revert i w.
  induction members as [| m members IH]; intros i w.
  - cbn. by rewrite !app_nil_r.
  - cbn [extract_members].
    destruct (FS.extract (fs w) extract_to m) as [f' [e |]] eqn:Hx.
    + cbn. exists [], m, members, e. cbn.
      rewrite fmap_app. cbn. done.
    + set (w1 := match int_truediv (i * 100) total with
                 | inl _ => set_fs (OpExtract m) f' w
                 | inr percent =>
                   status_cb (Some percent) i (Some total)
                     ("Extracting " +:+ FS.m_name m)
                     (set_fs (OpExtract m) f' w)
                 end).
      assert (Hw1 : (disk_trace w1).*1 = (disk_trace w).*1 ++ [OpExtract m]
                    /\ progress w1
                       = progress w
                         ++ option_list (member_report total (i, m))).
      { unfold w1, member_report. cbn [fst snd].
        destruct (int_truediv (i * 100) total); cbn;
          rewrite fmap_app; cbn; by rewrite ?app_nil_r. }
      destruct Hw1 as [Htr1 Hp1].
      specialize (IH (i + 1) w1).
      destruct (extract_members members (i + 1) total extract_to w1)
        as [ok w2]. cbn [fst snd] in *.
      change (numbered i (m :: members))
        with ((i, m) :: numbered (i + 1) members).
      destruct ok.
      * destruct IH as [Htr Hp]. rewrite Htr, Hp, Htr1, Hp1.
        rewrite omap_option_list. cbn [fmap list_fmap].
        by rewrite <- !app_assoc.
      * destruct IH as (done & m' & rest & e & -> & Hbefore & Hx' & Htr & Hp).
        exists (m :: done), m', rest, e.
        change (extract_members (m :: done) i total extract_to w)
          with (match FS.extract (fs w) extract_to m with
                | (f0, Some e0) =>
                  extract_error e0 (set_fs (OpExtract m) f0 w)
                | (f0, None) =>
                  extract_members done (i + 1) total extract_to
                    match int_truediv (i * 100) total with
                    | inr percent =>
                      status_cb (Some percent) i (Some total)
                        ("Extracting " +:+ FS.m_name m)
                        (set_fs (OpExtract m) f0 w)
                    | inl _ => set_fs (OpExtract m) f0 w
                    end
                end).
        rewrite Hx.
        assert (Hw1' : match int_truediv (i * 100) total with
                       | inr percent =>
                         status_cb (Some percent) i (Some total)
                           ("Extracting " +:+ FS.m_name m)
                           (set_fs (OpExtract m) f' w)
                       | inl _ => set_fs (OpExtract m) f' w
                       end = w1)
          by (unfold w1; by destruct (int_truediv (i * 100) total)).
        rewrite Hw1'. rewrite Htr, Hp, Htr1, Hp1.
        change (numbered i (m :: done))
          with ((i, m) :: numbered (i + 1) done).
        rewrite omap_option_list. cbn [fmap list_fmap app].
        by rewrite <- !app_assoc.
Qed.

(** X3. [_extract_zip] extracts the members in the order of the archive
    and reports each with its number and [int(i*100/total)]. When a
    member cannot be extracted it returns [False] after an "Extract
    error" report; the members before it have been extracted, and the
    disk is the one the extraction of that member left when it raised
    (with the directories it had made and what it had written): nothing
    is undone. When the file is no archive, there is only the error
    report. *)
Theorem extract_zip_reports `{E : Env} (zip_path extract_to : FS.path)
    (w : world) :
  let run := _extract_zip zip_path extract_to w in
  let error := fun e =>
    StatusCall None 0 (Some 0) ("Extract error: " +:+ e) in
  match fs w !! zip_path with
  | Some (FS.File content) =>
    match unzip content with
    | Some members =>
      let total := Z.of_nat (List.length members) in
      if run.1 then
        (disk_trace run.2).*1 = (disk_trace w).*1 ++ (OpExtract <$> members)
        /\ progress run.2
           = progress w ++ omap (member_report total) (numbered 1 members)
      else
        exists done m rest e,
          let before := extract_members done 1 total extract_to w in
          members = done ++ m :: rest
          /\ before.1 = true
          /\ FS.extract (fs before.2) extract_to m = (fs run.2, Some e)
          /\ (disk_trace run.2).*1
             = (disk_trace w).*1 ++ (OpExtract <$> (done ++ [m]))
          /\ progress run.2
             = progress w ++ omap (member_report total) (numbered 1 done)
               ++ [error e]
    | None =>
      run.1 = false /\ fs run.2 = fs w
      /\ progress run.2 = progress w ++ [error "File is not a zip file"]
    end
  | _ =>
    run.1 = false /\ fs run.2 = fs w
    /\ exists e, progress run.2 = progress w ++ [error e]
  end.
Proof.
  cbn zeta. unfold _extract_zip, extract_error.
  destruct (fs w !! zip_path) as [[content |] |] eqn:Hzip; cbn.
  - destruct (unzip content) as [members |] eqn:Hun; cbn; [| done].
    apply extract_members_reports.
  - repeat split. by eexists.
  - repeat split. by eexists.
Qed.

(** ** Provisioning: putting the model in place *)

Lemma strip_prefix_Some (pre k rest : FS.path) :
  FS.strip_prefix pre k = Some rest <-> k = pre ++ rest.
Proof.
  revert k. induction pre as [| a pre IH]; intros k; cbn.
  - split; [by intros [= ->] | by intros ->].
  - destruct k as [| b k]; [done |]. case_decide as Hab.
    + subst b. rewrite IH. split; [by intros -> | by intros [= ->]].
    + split; [done | intros [= -> _]; done].
Qed.

Lemma find_model_dir_Some f parent names p :
  find_model_dir f parent names = Some p ->
  exists nm, nm ∈ names /\ p = FS.join parent nm
             /\ String.prefix "vosk-model" nm = true
             /\ FS.isdir f p = true.
Proof.
  induction names as [| nm names IH]; cbn [find_model_dir]; [done |].
  destruct (String.prefix "vosk-model" nm && FS.isdir f (FS.join parent nm))
    eqn:Hc.
  - intros [= <-]. apply andb_true_iff in Hc as [Hp Hd].
    exists nm. repeat split; [by left | done..].
  - intros Hf. destruct (IH Hf) as (nm' & Hin & ?).
    exists nm'. split; [by right | done].
Qed.

Lemma find_model_dir_None f parent names :
  find_model_dir f parent names = None ->
  forall nm, nm ∈ names -> String.prefix "vosk-model" nm = true ->
             FS.isdir f (FS.join parent nm) = false.
Proof.
  induction names as [| nm0 names IH]; cbn [find_model_dir]; intros Hf nm Hin.
  - by apply elem_of_nil in Hin.
  - destruct (String.prefix "vosk-model" nm0
              && FS.isdir f (FS.join parent nm0)) eqn:Hc; [done |].
    apply elem_of_cons in Hin as [-> | Hin]; [| by apply IH].
    intros Hp. rewrite Hp in Hc. done.
Qed.

Lemma rmtree_lookup f p f' k v :
  FS.rmtree f p = inr f' -> f' !! k = Some v -> f !! k = Some v.
Proof.
  unfold FS.rmtree. destruct (f !! p) as [[|] |]; try done.
  intros [= <-]. rewrite map_lookup_filter_Some. by intros [? _].
Qed.

Lemma move_lookup f src dst f' k v :
  FS.move f src dst = inr f' -> f' !! k = Some v ->
  exists k0 real_dst,
    f !! k0 = Some v /\ FS.rekey src real_dst k0 = k
    /\ (real_dst = dst \/ real_dst = FS.join dst (FS.basename src)).
Proof.
  unfold FS.move.
  set (rd := if FS.isdir f dst then FS.join dst (FS.basename src) else dst).
  assert (Hrd : rd = dst \/ rd = FS.join dst (FS.basename src))
    by (unfold rd; destruct (FS.isdir f dst); auto).
  destruct (FS.exists_ f rd); [done |].
  destruct (negb (FS.exists_ f src)); [done |].
  destruct (negb (FS.parent_ok f rd)); [done |].
  intros [= <-] Hk. apply elem_of_list_to_map_2 in Hk.
  apply list_elem_of_fmap in Hk as ([k0 v0] & [= -> ->] & Hin).
  apply elem_of_map_to_list in Hin. by exists k0, rd.
Qed.

(** The move onto a sibling path never leaves a regular file at another
    sibling path that held none. *)
Lemma try_move_no_file parent name zip_name src w :
  let target_dir := FS.join parent name in
  let zip_path := FS.join parent zip_name in
  FS.isdir (fs w) src = true ->
  (forall c, fs w !! zip_path <> Some (FS.File c)) ->
  forall c, fs (try_move_into_place src target_dir w) !! zip_path
            <> Some (FS.File c).
Proof.
  cbn zeta. intros Hsrc Hzip c. unfold try_move_into_place.
  case_decide; [by apply Hzip |].
  set (target := FS.join parent name) in *.
  set (zip := FS.join parent zip_name) in *.
  assert (Hmove : forall w1,
            (forall k v, fs w1 !! k = Some v -> fs w !! k = Some v) ->
            fs match FS.move (fs w1) src target with
               | inl _ => w1
               | inr f' => set_fs (OpMove src target) f' w1
               end !! zip <> Some (FS.File c)).
  { intros w1 Hsub.
    destruct (FS.move (fs w1) src target) as [e | f'] eqn:Hm.
    - intros Hf. exact (Hzip c (Hsub _ _ Hf)).
    - cbn. intros Hf.
      destruct (move_lookup _ _ _ _ _ _ Hm Hf) as (k0 & rd & Hk0 & Hre & Hrd).
      apply Hsub in Hk0. unfold FS.rekey in Hre.
      destruct (FS.strip_prefix src k0) as [rest |] eqn:Hsp.
      + apply strip_prefix_Some in Hsp. subst k0.
        assert (rest = []) as ->.
        { apply (f_equal List.length) in Hre.
          destruct Hrd as [-> | ->]; unfold target, zip, FS.join in Hre;
            rewrite !length_app in Hre; cbn in Hre;
            destruct rest; [done | cbn in Hre; lia | done | cbn in Hre; lia]. }
        rewrite app_nil_r in Hk0. unfold FS.isdir in Hsrc.
        rewrite Hk0 in Hsrc. done.
      + subst k0. exact (Hzip c Hk0). }
  destruct (FS.exists_ (fs w) target).
  - destruct (FS.rmtree (fs w) target) as [e | f'] eqn:Hrm; [by apply Hzip |].
    apply Hmove. cbn. intros k v. by apply (rmtree_lookup _ target).
  - by apply Hmove.
Qed.

Lemma try_remove_no_file p w c : fs (try_remove p w) !! p <> Some (FS.File c).
Proof.
  unfold try_remove, FS.remove.
  destruct (fs w !! p) as [[c' |] |] eqn:Hp; cbn; [| congruence..].
  by rewrite lookup_delete_eq.
Qed.

Lemma try_remove_isdir p w q :
  FS.isdir (fs w) q = true -> FS.isdir (fs (try_remove p w)) q = true.
Proof.
  unfold try_remove, FS.remove, FS.isdir.
  destruct (fs w !! p) as [[c' |] |] eqn:Hp; cbn; try done.
  intros Hq. destruct (decide (p = q)) as [-> | Hne].
  - by rewrite Hp in Hq.
  - by rewrite lookup_delete_ne.
Qed.

(** X4. Once the archive is downloaded, the round of the loop returns
    [True] exactly when the extraction went through and left, beside the
    target, a directory whose name starts with "vosk-model" (the model
    name itself first); it never returns [False], it falls through to the
    next mirror instead, leaving the disk as the extraction left it. When
    it returns, no archive file is left at the archive path, no request
    was sent, and a target directory that the archive created under the
    model name is still there. *)
Theorem install_outcome `{E : Env} (parent : FS.path) (name : string)
    (w : world) :
  let target_dir := FS.join parent name in
  let zip_path := zip_path_of target_dir in
  let possible := FS.join parent CONFIG.model_name in
  let extracted :=
    _extract_zip zip_path parent
      (status_cb None 0 (Some 0) "Extracting model..." w) in
  let run := install_downloaded target_dir zip_path w in
  requests run.2 = requests w
  /\ match run.1 with
     | Some r =>
       r = true
       /\ extracted.1 = true
       /\ (exists nm, String.prefix "vosk-model" nm = true
                      /\ FS.isdir (fs extracted.2) (FS.join parent nm) = true)
       /\ (forall c, fs run.2 !! zip_path <> Some (FS.File c))
       /\ (name = CONFIG.model_name ->
           FS.isdir (fs extracted.2) target_dir = true ->
           FS.isdir (fs run.2) target_dir = true)
     | None =>
       fs run.2 = fs extracted.2
       /\ (extracted.1 = true ->
           FS.isdir (fs extracted.2) possible = false
           /\ forall nm, nm ∈ FS.listdir (fs extracted.2) parent ->
                         String.prefix "vosk-model" nm = true ->
                         FS.isdir (fs extracted.2) (FS.join parent nm) = false)
     end.
Proof.
  cbn zeta. split; [apply install_requests |].
  assert (Hpar : FS.dirname (FS.join parent name) = parent)
    by apply removelast_last.
  assert (Hzip : zip_path_of (FS.join parent name)
                 = FS.join parent CONFIG.model_zip)
    by (unfold zip_path_of; by rewrite Hpar).
  unfold install_downloaded. rewrite Hpar, Hzip.
  destruct (_extract_zip _ parent _) as [ok2 w2]. cbn [fst snd].
  destruct ok2; [| done].
  destruct (FS.isdir (fs w2) (FS.join parent CONFIG.model_name)) eqn:Hposs.
  - cbn [fst snd]. split; [done |]. split; [done |].
    split; [by exists CONFIG.model_name |].
    split.
    + apply try_move_no_file.
      * cbn. by apply try_remove_isdir.
      * intros c. cbn. apply try_remove_no_file.
    + intros -> _. unfold try_move_into_place. rewrite decide_True by done.
      cbn. by apply try_remove_isdir.
  - destruct (find_model_dir _ _ _) as [found |] eqn:Hfind; cbn [fst snd].
    + apply find_model_dir_Some in Hfind as (nm & _ & -> & Hpre & Hdir).
      split; [done |]. split; [done |]. split; [by exists nm |].
      split.
      * apply try_move_no_file.
        -- cbn. by apply try_remove_isdir.
        -- intros c. cbn. apply try_remove_no_file.
      * intros -> Ht. congruence.
    + split; [done |]. intros _. split; [done |].
      by apply find_model_dir_None.
Qed.

(** ** Provisioning: an extraction that fails half-way *)

Lemma mkdir_exist_ok_keeps f p f' k v :
  FS.mkdir_exist_ok f p = inr f' -> f !! k = Some v -> f' !! k = Some v.
Proof.
  unfold FS.mkdir_exist_ok. destruct (f !! p) as [[|] |] eqn:Hp; try done.
  - by intros [= <-].
  - intros [= <-] Hk. rewrite lookup_insert_ne; [done | congruence].
Qed.

Lemma mkdir_exist_ok_made f p f' :
  FS.mkdir_exist_ok f p = inr f' -> f' !! p = Some FS.Dir.
Proof.
  unfold FS.mkdir_exist_ok. destruct (f !! p) as [[|] |] eqn:Hp; try done.
  - by intros [= <-].
  - intros [= <-]. apply lookup_insert_eq.
Qed.

Lemma mkdir_exist_ok_other f p f' k :
  FS.mkdir_exist_ok f p = inr f' -> k <> p -> f' !! k = f !! k.
Proof.
  unfold FS.mkdir_exist_ok. destruct (f !! p) as [[|] |] eqn:Hp; try done.
  - by intros [= <-].
  - intros [= <-] Hk. by rewrite lookup_insert_ne.
Qed.

Lemma mkdirs_from_keeps f done todo f' k v :
  FS.mkdirs_from f done todo = inr f' -> f !! k = Some v -> f' !! k = Some v.
Proof.
  revert f done. induction todo as [| name todo IH]; intros f done; cbn.
  - by intros [= <-].
  - destruct (FS.mkdir_exist_ok f (done ++ [name])) as [e | f0] eqn:Hm;
      [done |].
    intros Hrest Hk. eapply IH; [exact Hrest |].
    by eapply mkdir_exist_ok_keeps.
Qed.

(** [os.makedirs] leaves every part of the path a directory. *)
Lemma mkdirs_from_made f done todo f' (n : nat) :
  FS.mkdirs_from f done todo = inr f' ->
  (1 <= n <= List.length todo)%nat ->
  f' !! (done ++ take n todo) = Some FS.Dir.
Proof.
  revert f done n. induction todo as [| name todo IH]; intros f done n; cbn.
  - lia.
  - destruct (FS.mkdir_exist_ok f (done ++ [name])) as [e | f0] eqn:Hm;
      [done |].
    intros Hrest Hn. destruct n as [| n]; [lia |]. cbn [take].
    destruct n as [| n].
    + rewrite take_0. eapply mkdirs_from_keeps; [exact Hrest |].
      by eapply mkdir_exist_ok_made.
    + rewrite (cons_middle name), app_assoc.
      apply (IH f0); [done | lia].
Qed.

(** Paths longer than the one made are not touched. *)
Lemma mkdirs_from_longer f done todo f' k :
  FS.mkdirs_from f done todo = inr f' ->
  (List.length done + List.length todo < List.length k)%nat ->
  f' !! k = f !! k.
Proof.
  revert f done. induction todo as [| name todo IH]; intros f done; cbn.
  - by intros [= <-].
  - destruct (FS.mkdir_exist_ok f (done ++ [name])) as [e | f0] eqn:Hm;
      [done |].
    intros Hrest Hlen. rewrite (IH f0 (done ++ [name]) Hrest).
    + eapply mkdir_exist_ok_other; [exact Hm |].
      intros ->. rewrite length_app in Hlen. cbn in Hlen. lia.
    + rewrite length_app. cbn. lia.
Qed.

(** Making a path whose parts are all directories changes nothing. *)
Lemma mkdirs_from_again f done todo :
  (forall n : nat, (1 <= n <= List.length todo)%nat ->
                   f !! (done ++ take n todo) = Some FS.Dir) ->
  FS.mkdirs_from f done todo = inr f.
Proof.
  revert done. induction todo as [| name todo IH]; intros done Hall; cbn.
  - done.
  - pose proof (Hall 1%nat ltac:(cbn; lia)) as H1. cbn in H1.
    rewrite take_0 in H1. unfold FS.mkdir_exist_ok. rewrite H1.
    apply IH. intros n Hn. rewrite <- app_assoc. cbn.
    apply (Hall (S n)). cbn. lia.
Qed.

Lemma write_keeps_dirs f p c q :
  FS.isdir f q = true -> FS.isdir (FS.write f p c) q = true.
Proof.
  unfold FS.write, FS.isdir.
  destruct (f !! p) as [[c0 |] |] eqn:Hp; try done.
  intros Hq. destruct (decide (p = q)) as [-> | Hne].
  - by rewrite Hp in Hq.
  - by rewrite lookup_insert_ne.
Qed.

Lemma open_wb_keeps_dirs f p f' q :
  FS.open_wb f p = inr f' -> FS.isdir f q = true -> FS.isdir f' q = true.
Proof.
  intros Ho Hq. pose proof (open_wb_inr _ _ _ Ho) as ->.
  unfold FS.open_wb in Ho. destruct p as [| a p]; [done |].
  unfold FS.isdir in *. destruct (decide (a :: p = q)) as [<- | Hne].
  - destruct (f !! (a :: p)) as [[|] |]; done.
  - by rewrite lookup_insert_ne.
Qed.

Lemma isdir_keeps (f f' : gmap FS.path FS.node) q :
  (forall k v, f !! k = Some v -> f' !! k = Some v) ->
  FS.isdir f q = true -> FS.isdir f' q = true.
Proof.
  intros Hk. unfold FS.isdir.
  destruct (f !! q) as [[|] |] eqn:Hq; try done.
  by rewrite (Hk _ _ Hq).
Qed.

(** Extracting a member never removes or replaces a directory, whether
    the extraction succeeds or raises. *)
Lemma extract_keeps_dirs f extract_to m q :
  FS.isdir f q = true -> FS.isdir (FS.extract f extract_to m).1 q = true.
Proof.
  unfold FS.extract. cbv zeta. intros Hq.
  set (target := extract_to ++ FS.m_path m).
  assert (Hbody : forall f1, FS.isdir f1 q = true ->
            FS.isdir
              (match FS.m_body m with
               | FS.MDir =>
                 if FS.isdir f1 target then (f1, None)
                 else match FS.mkdir_exist_ok f1 target with
                      | inl e => (f1, Some e)
                      | inr f2 => (f2, None)
                      end
               | FS.MFile c =>
                 match FS.open_wb f1 target with
                 | inl e => (f1, Some e)
                 | inr f2 => (FS.write f2 target c, None)
                 end
               | FS.MBad None e => (f1, Some e)
               | FS.MBad (Some c) e =>
                 match FS.open_wb f1 target with
                 | inl e' => (f1, Some e')
                 | inr f2 => (FS.write f2 target c, Some e)
                 end
               end).1 q = true).
  { intros f1 Hf1. destruct (FS.m_body m) as [| c | [c |] e].
    - destruct (FS.isdir f1 target); [done |].
      destruct (FS.mkdir_exist_ok f1 target) as [e | f2] eqn:Hx; [done |].
      cbn. eapply isdir_keeps; [| exact Hf1].
      intros k v. by eapply mkdir_exist_ok_keeps.
    - destruct (FS.open_wb f1 target) as [e | f2] eqn:Ho; [done |].
      cbn. apply write_keeps_dirs. by eapply open_wb_keeps_dirs.
    - destruct (FS.open_wb f1 target) as [e' | f2] eqn:Ho; [done |].
      cbn. apply write_keeps_dirs. by eapply open_wb_keeps_dirs.
    - done. }
  destruct (FS.dirname target) as [| a d]; [by apply Hbody |].
  destruct (FS.makedirs f (a :: d)) as [e | f1] eqn:Hm; [done |].
  apply Hbody. eapply isdir_keeps; [| exact Hq].
  intros k v. unfold FS.makedirs in Hm. by eapply mkdirs_from_keeps.
Qed.

Lemma extract_members_keeps_dirs `{E : Env} members i total extract_to w q :
  FS.isdir (fs w) q = true ->
  FS.isdir (fs (extract_members members i total extract_to w).2) q = true.
Proof.
  revert i w. induction members as [| m members IH]; intros i w Hq; cbn;
    [done |].
  pose proof (extract_keeps_dirs (fs w) extract_to m q Hq) as Hk.
  destruct (FS.extract (fs w) extract_to m) as [f' [e |]] eqn:Hx; cbn;
    [done |].
  apply IH. destruct (int_truediv (i * 100) total); exact Hk.
Qed.

(** A member that cannot be extracted makes the whole extraction fail. *)
Lemma extract_members_bad `{E : Env} members i total extract_to w :
  Exists (fun m => exists written e, FS.m_body m = FS.MBad written e)
    members ->
  (extract_members members i total extract_to w).1 = false.
Proof.
  intros Hbad. revert i w.
  induction Hbad as [m members (wr & e & He) | m members _ IH]; intros i w;
    cbn.
  - unfold FS.extract. cbv zeta. rewrite He.
    destruct (match FS.dirname _ with [] => _ | _ :: _ => _ end); [done |].
    destruct wr; [| done]. by destruct (FS.open_wb _ _).
  - destruct (FS.extract (fs w) extract_to m) as [f' [e |]]; [done |].
    apply IH.
Qed.

(** Extracting the directory entry of the model beside the archive. *)
Lemma extract_model_dir (f : gmap FS.path FS.node) (parent : FS.path)
    (n0 : string) :
  parent <> [] ->
  (forall n : nat, (1 <= n <= List.length parent)%nat ->
                   f !! take n parent = Some FS.Dir) ->
  f !! FS.join parent CONFIG.model_name = None ->
  FS.extract f parent (FS.Member n0 [CONFIG.model_name] FS.MDir)
  = (<[FS.join parent CONFIG.model_name := FS.Dir]> f, None).
Proof.
  intros Hne Hdirs Hnone. unfold FS.extract. cbv zeta. cbn [FS.m_path FS.m_body].
  change (parent ++ [CONFIG.model_name])
    with (FS.join parent CONFIG.model_name).
  assert (Hd : FS.dirname (FS.join parent CONFIG.model_name) = parent)
    by apply removelast_last.
  rewrite Hd.
  assert (Hmk : match parent with
                | [] => inr f
                | s :: l => FS.makedirs f (s :: l)
                end = inr f).
  { destruct parent as [| a d]; [done |]. unfold FS.makedirs.
    apply mkdirs_from_again. intros n Hn. by apply Hdirs. }
  rewrite Hmk. unfold FS.isdir, FS.mkdir_exist_ok. by rewrite Hnone.
Qed.

(** X5. An extraction that fails is not undone, and the target directory
    is where the archive of the model unpacks. So when a mirror serves an
    archive (its url is one [Request] accepts, the length it announces is
    one [int] converts, and the whole body arrives), the archive makes
    the model directory and a later member cannot be extracted,
    [auto_download_model] returns [False] and leaves the directory behind,
    and the next call takes it for the model: it returns [True] at once,
    with no request and no change to the disk. *)
Theorem half_extracted_model_is_accepted `{E : Env} (parent : FS.path)
    (url : string) (urls2 : list string) (w : world)
    (f1 : gmap FS.path FS.node) (content : bytes) (n0 : string)
    (more : list FS.member) :
  let target_dir := FS.join parent CONFIG.model_name in
  let zip_path := zip_path_of target_dir in
  fs w !! target_dir = None ->
  FS.makedirs (fs w) parent = inr f1 ->
  can_download f1 zip_path ->
  serves url content ->
  unzip content = Some (FS.Member n0 [CONFIG.model_name] FS.MDir :: more) ->
  Exists (fun m => exists written e, FS.m_body m = FS.MBad written e)
    more ->
  let run1 := auto_download_model target_dir [url] w in
  let run2 := auto_download_model target_dir urls2 run1.2 in
  run1.1 = inr false
  /\ FS.isdir (fs run1.2) target_dir = true
  /\ run2.1 = inr true
  /\ requests run2.2 = requests run1.2
  /\ fs run2.2 = fs run1.2.
Proof.
  cbn zeta. intros Hnone Hmk Hcan Hserve Hunzip Hbad.
  set (target := FS.join parent CONFIG.model_name) in *.
  assert (Hpar : FS.dirname target = parent) by apply removelast_last.
  assert (Hparent : parent <> []).
  { intros ->. by cbn in Hmk. }
  set (zip := zip_path_of target) in *.
  assert (Hzip : zip = FS.join parent CONFIG.model_zip)
    by (unfold zip, zip_path_of; by rewrite Hpar).
  assert (Hrun1 : (auto_download_model target [url] w).1 = inr false
                  /\ FS.isdir (fs (auto_download_model target [url] w).2)
                       target = true).
  { unfold auto_download_model.
    assert (Hnd : FS.isdir (fs w) target = false)
      by (unfold FS.isdir; by rewrite Hnone).
    rewrite Hnd, Hpar, Hmk. rewrite <- Hzip.
    set (w1 := set_fs (OpMakedirs parent) f1 w).
    cbn [try_urls].
    set (w2 := status_cb None 0 (Some 0) ("Trying: " +:+ url) w1).
    destruct (download_succeeds url zip w2 content Hcan Hserve)
      as (Hok & Hfs & _).
    destruct (_download_with_progress url zip w2) as [ok w3].
    cbn [fst snd] in Hok, Hfs. subst ok.
    set (tmp := FS.add_suffix zip ".part") in *.
    unfold w2, w1 in Hfs. cbn [status_cb set_fs fs] in Hfs.
    assert (Hlz : List.length zip = S (List.length parent)).
    { rewrite Hzip. unfold FS.join. rewrite length_app. cbn. lia. }
    assert (Hlt : List.length tmp = S (List.length parent)).
    { unfold tmp, FS.add_suffix. rewrite length_app, Hzip.
      unfold FS.dirname, FS.join. rewrite removelast_last. cbn. lia. }
    assert (Hlg : List.length target = S (List.length parent)).
    { unfold target, FS.join. rewrite length_app. cbn. lia. }
    assert (Hdirs : forall n : nat, (1 <= n <= List.length parent)%nat ->
                      fs w3 !! take n parent = Some FS.Dir).
    { intros n Hn. rewrite Hfs.
      assert (Hlen : (List.length (take n parent) <= List.length parent)%nat)
        by (rewrite length_take; lia).
      rewrite lookup_insert_ne, lookup_delete_ne;
        [| intros Heq; apply (f_equal List.length) in Heq; lia..].
      unfold FS.makedirs in Hmk. destruct parent as [| a d]; [done |].
      by apply (mkdirs_from_made _ [] _ _ n Hmk). }
    assert (Hzt : zip <> target).
    { rewrite Hzip. unfold target, FS.join.
      intros Heq. apply app_inv_head in Heq. by vm_compute in Heq. }
    assert (Htt : tmp <> target).
    { unfold tmp, FS.add_suffix. rewrite Hzip.
      unfold FS.dirname, FS.basename, FS.join.
      rewrite removelast_last, last_last. unfold target, FS.join.
      intros Heq. apply app_inv_head in Heq. by vm_compute in Heq. }
    assert (Htarget : fs w3 !! target = None).
    { rewrite Hfs, lookup_insert_ne, lookup_delete_ne by done.
      rewrite <- Hnone. unfold FS.makedirs in Hmk.
      destruct parent as [| a d]; [done |].
      apply (mkdirs_from_longer _ [] _ _ _ Hmk). cbn in *. lia. }
    assert (Hfile : fs w3 !! zip = Some (FS.File content))
      by (rewrite Hfs; apply lookup_insert_eq).
    unfold install_downloaded. rewrite Hpar.
    unfold _extract_zip. cbn [status_cb fs]. rewrite Hfile, Hunzip.
    cbn [extract_members]. cbn [status_cb fs].
    rewrite (extract_model_dir _ _ n0 Hparent Hdirs Htarget).
    match goal with |- context [extract_members more ?i ?t parent ?w4] =>
      pose proof (extract_members_bad more i t parent w4 Hbad) as Hfalse;
      pose proof (extract_members_keeps_dirs more i t parent w4 target)
        as Hkeep;
      destruct (extract_members more i t parent w4) as [ok w5] end.
    cbn [fst snd] in *. subst ok. cbn.
    split; [done |]. apply Hkeep.
    destruct (int_truediv _ _); cbn [status_cb set_fs fs].
    all: unfold FS.isdir; fold target; by rewrite lookup_insert_eq. }
  destruct Hrun1 as [Hr1 Hd1]. split; [done |]. split; [done |].
  revert Hd1. generalize (auto_download_model target [url] w).2.
  intros w' Hd1. unfold auto_download_model. by rewrite Hd1.
Qed.

(** The archive of the only mirror is damaged after its first entry: the
    first call fails, the second reports the model as present. *)
Lemma half_extracted_model_is_accepted_witness :
  let target_dir := FS.join ["models"] CONFIG.model_name in
  let run1 := @auto_download_model damaged_archive target_dir [mirror_1]
                (fresh_world ∅) in
  let run2 := @auto_download_model damaged_archive target_dir CANDIDATE_URLS
                run1.2 in
  run1.1 = inr false
  /\ FS.isdir (fs run1.2) target_dir = true
  /\ run2.1 = inr true
  /\ requests run2.2 = requests run1.2
  /\ fs run2.2 = fs run1.2.
Proof.
  cbn zeta.
  apply (@half_extracted_model_is_accepted damaged_archive ["models"]
           mirror_1 CANDIDATE_URLS (fresh_world ∅) models_dir_only
           [x50; x4b; x03; x04] "vosk-model-small-en-us-0.15/"
           [FS.Member "vosk-model-small-en-us-0.15/am/final.mdl"
              [CONFIG.model_name; "am"; "final.mdl"]
              (FS.MBad (Some []) "Bad CRC-32 for file")]).
  - vm_compute. reflexivity.
  - vm_compute. reflexivity.
  - repeat split; vm_compute; reflexivity.
  - eexists. split; vm_compute; reflexivity.
  - reflexivity.
  - constructor. by eexists _, _.
Defined.

(** What the damaged entry leaves: the directory made for it, and the
    file it was to fill. *)
Lemma damaged_member_leaves_its_file :
  let target_dir := FS.join ["models"] CONFIG.model_name in
  let run := @auto_download_model damaged_archive target_dir [mirror_1]
               (fresh_world ∅) in
  run.1 = inr false
  /\ fs run.2 !! (target_dir ++ ["am"]) = Some FS.Dir
  /\ fs run.2 !! (target_dir ++ ["am"; "final.mdl"]) = Some (FS.File []).
Proof. vm_compute. repeat split; reflexivity. Qed.

(** ** Provisioning: the move onto the target directory *)

Lemma under_true (pre k : FS.path) :
  FS.under pre k = true <-> exists rest, k = pre ++ rest.
Proof.
  unfold FS.under. destruct (FS.strip_prefix pre k) as [rest |] eqn:Hs.
  - apply strip_prefix_Some in Hs. split; [by eauto | done].
  - split; [done |]. intros [rest Hr]. apply strip_prefix_Some in Hr.
    congruence.
Qed.

Lemma rekey_under (src dst rest : FS.path) :
  FS.rekey src dst (src ++ rest) = dst ++ rest.
Proof.
  unfold FS.rekey.
  by rewrite (proj2 (strip_prefix_Some src (src ++ rest) rest) eq_refl).
Qed.

Lemma rekey_other (src dst k : FS.path) :
  FS.under src k = false -> FS.rekey src dst k = k.
Proof.
  unfold FS.under, FS.rekey. by destruct (FS.strip_prefix src k).
Qed.

(** Where an entry of the renamed tree comes from, when nothing lies
    under the destination. *)
Lemma renamed_lookup (f : gmap FS.path FS.node) (src dst k : FS.path)
    (v : FS.node) :
  (forall k', FS.under dst k' = true -> f !! k' = None) ->
  (list_to_map (map (fun kv => (FS.rekey src dst kv.1, kv.2))
                  (map_to_list f)) : gmap FS.path FS.node) !! k = Some v
  <-> exists k0, f !! k0 = Some v /\ FS.rekey src dst k0 = k.
Proof.
  intros Hfree.
  assert (Hinj : forall k1 k2 : FS.path,
            is_Some (f !! k1) -> is_Some (f !! k2) ->
            FS.rekey src dst k1 = FS.rekey src dst k2 -> k1 = k2).
  { intros k1 k2 [v1 H1] [v2 H2]. unfold FS.rekey.
    destruct (FS.strip_prefix src k1) as [r1 |] eqn:Hs1;
      destruct (FS.strip_prefix src k2) as [r2 |] eqn:Hs2.
    - apply strip_prefix_Some in Hs1, Hs2. subst k1 k2.
      by intros ->%app_inv_head.
    - intros <-. rewrite Hfree in H2; [done |]. apply under_true. by eauto.
    - intros ->. rewrite Hfree in H1; [done |]. apply under_true. by eauto.
    - done. }
  rewrite <- elem_of_list_to_map.
  - rewrite list_elem_of_fmap. split.
    + intros ([k0 v0] & [= -> ->] & Hin). apply elem_of_map_to_list in Hin.
      by exists k0.
    + intros (k0 & Hk0 & <-). exists (k0, v).
      split; [done |]. by apply elem_of_map_to_list.
  - rewrite <- list_fmap_compose.
    change (NoDup ((fun kv : FS.path * FS.node => FS.rekey src dst kv.1)
                     <$> map_to_list f)).
    apply NoDup_fmap_2_strong; [| apply NoDup_map_to_list].
    intros [k1 v1] [k2 v2] H1%elem_of_map_to_list H2%elem_of_map_to_list Heq.
    cbn in Heq. assert (k1 = k2) as -> by (apply Hinj; by eauto).
    f_equal. congruence.
Qed.

(** X6. When the directory found beside the target has another name and
    nothing is at the target path, [auto_download_model] moves it there:
    afterwards the target is a directory holding every entry the found
    directory held, with the same content, the found directory is gone,
    and the rest of the disk is as it was. *)
Theorem moved_into_place (parent : FS.path) (found_name target_name : string)
    (w : world) :
  let found := FS.join parent found_name in
  let target_dir := FS.join parent target_name in
  found_name <> target_name ->
  FS.isdir (fs w) found = true ->
  (forall k, FS.under target_dir k = true -> fs w !! k = None) ->
  FS.parent_ok (fs w) target_dir = true ->
  let w' := try_move_into_place found target_dir w in
  FS.isdir (fs w') target_dir = true
  /\ (forall rest, fs w' !! (target_dir ++ rest) = fs w !! (found ++ rest))
  /\ (forall rest, fs w' !! (found ++ rest) = None)
  /\ (forall k, FS.under found k = false -> FS.under target_dir k = false ->
                fs w' !! k = fs w !! k).
Proof.
  cbn zeta. intros Hname Hdir Hfree Hparent.
  set (src := FS.join parent found_name) in *.
  set (dst := FS.join parent target_name) in *.
  assert (Hne : src <> dst).
  { unfold src, dst, FS.join. intros Heq%app_inv_head. congruence. }
  assert (Hdst : fs w !! dst = None).
  { apply Hfree, under_true. exists []. by rewrite app_nil_r. }
  assert (Hsrc : fs w !! src = Some FS.Dir).
  { unfold FS.isdir in Hdir. by destruct (fs w !! src) as [[|] |]. }
  assert (Hrun : fs (try_move_into_place src dst w)
                 = list_to_map (map (fun kv => (FS.rekey src dst kv.1, kv.2))
                                  (map_to_list (fs w)))).
  { assert (He1 : FS.exists_ (fs w) dst = false)
      by (unfold FS.exists_; by rewrite Hdst).
    assert (He2 : FS.isdir (fs w) dst = false)
      by (unfold FS.isdir; by rewrite Hdst).
    assert (He3 : FS.exists_ (fs w) src = true)
      by (unfold FS.exists_; by rewrite Hsrc).
    unfold try_move_into_place. rewrite decide_False by done.
    rewrite He1. unfold FS.move. rewrite He2, He1, He3, Hparent. done. }
  rewrite Hrun. clear Hrun.
  assert (Hcross : forall r1 r2, dst ++ r1 <> src ++ r2).
  { intros r1 r2. unfold src, dst, FS.join. rewrite <- !app_assoc.
    intros Heq%app_inv_head. cbn in Heq. congruence. }
  assert (Hmoved : forall rest,
            (list_to_map (map (fun kv => (FS.rekey src dst kv.1, kv.2))
                            (map_to_list (fs w))) : gmap FS.path FS.node)
              !! (dst ++ rest) = fs w !! (src ++ rest)).
  { intros rest. apply option_eq. intros v.
    rewrite (renamed_lookup _ _ _ _ _ Hfree). split.
    - intros (k0 & Hk0 & Hre). unfold FS.rekey in Hre.
      destruct (FS.strip_prefix src k0) as [r |] eqn:Hs.
      + apply strip_prefix_Some in Hs. apply app_inv_head in Hre.
        by subst.
      + subst k0. rewrite Hfree in Hk0; [done |]. apply under_true.
        by eauto.
    - intros Hv. exists (src ++ rest). split; [done | apply rekey_under]. }
  split; [| split; [done | split]].
  - unfold FS.isdir. specialize (Hmoved []). rewrite !app_nil_r in Hmoved.
    by rewrite Hmoved, Hsrc.
  - intros rest.
    destruct (list_to_map _ !! (src ++ rest)) as [v |] eqn:Hl; [| done].
    exfalso. apply (renamed_lookup _ _ _ _ _ Hfree) in Hl
      as (k0 & Hk0 & Hre). unfold FS.rekey in Hre.
    destruct (FS.strip_prefix src k0) as [r |] eqn:Hs.
    + by apply Hcross in Hre.
    + subst k0.
      by rewrite (proj2 (strip_prefix_Some src (src ++ rest) rest) eq_refl)
        in Hs.
  - intros k Hks Hkd. apply option_eq. intros v.
    rewrite (renamed_lookup _ _ _ _ _ Hfree). split.
    + intros (k0 & Hk0 & Hre). unfold FS.rekey in Hre.
      destruct (FS.strip_prefix src k0) as [r |] eqn:Hs; [| by subst].
      exfalso. subst k.
      assert (FS.under dst (dst ++ r) = true)
        by (apply under_true; by eauto). congruence.
    + intros Hv. exists k. split; [done | by apply rekey_other].
Qed.

(** The model unpacked as "vosk-model-en-us-0.22" lands at the target,
    its README with it. *)
Lemma moved_into_place_witness :
  let found := FS.join ["models"] "vosk-model-en-us-0.22" in
  let target_dir := FS.join ["models"] CONFIG.model_name in
  let w := fresh_world unpacked_elsewhere in
  let w' := try_move_into_place found target_dir w in
  FS.isdir (fs w') target_dir = true
  /\ (forall rest, fs w' !! (target_dir ++ rest) = fs w !! (found ++ rest))
  /\ (forall rest, fs w' !! (found ++ rest) = None)
  /\ (forall k, FS.under found k = false -> FS.under target_dir k = false ->
                fs w' !! k = fs w !! k).
Proof.
  cbn zeta.
  apply (moved_into_place ["models"] "vosk-model-en-us-0.22"
           CONFIG.model_name (fresh_world unpacked_elsewhere)).
  - discriminate.
  - vm_compute. reflexivity.
  - intros k [rest ->]%under_true. cbn.
    unfold unpacked_elsewhere.
    rewrite !lookup_insert_ne by discriminate. apply lookup_empty.
  - vm_compute. reflexivity.
Defined.

(** ** Provisioning: failing mirrors, then one that succeeds *)

Section mirrors_at_return.
Context `{E : Env}.

(** What the rounds of the loop do after a download depends on the world
    through its disk only. *)
Lemma extract_members_same_fs members i total extract_to w w' :
  fs w = fs w' ->
  (extract_members members i total extract_to w).1
  = (extract_members members i total extract_to w').1
  /\ fs (extract_members members i total extract_to w).2
     = fs (extract_members members i total extract_to w').2.
Proof.
  revert i w w'. induction members as [| m members IH]; intros i w w' Hfs;
    cbn [extract_members]; [done |].
  rewrite Hfs.
  destruct (FS.extract (fs w') extract_to m) as [f' [e |]]; [done |].
  apply IH. by destruct (int_truediv (i * 100) total).
Qed.

Lemma extract_zip_same_fs zip_path extract_to w w' :
  fs w = fs w' ->
  (_extract_zip zip_path extract_to w).1
  = (_extract_zip zip_path extract_to w').1
  /\ fs (_extract_zip zip_path extract_to w).2
     = fs (_extract_zip zip_path extract_to w').2.
Proof.
  intros Hfs. unfold _extract_zip. rewrite Hfs.
  destruct (fs w' !! zip_path) as [[content |] |]; [| done..].
  destruct (unzip content) as [members |]; [| done].
  by apply extract_members_same_fs.
Qed.

Lemma try_remove_same_fs p w w' :
  fs w = fs w' -> fs (try_remove p w) = fs (try_remove p w').
Proof.
  intros Hfs. unfold try_remove. rewrite Hfs.
  by destruct (FS.remove (fs w') p).
Qed.

Lemma try_move_same_fs src target_dir w w' :
  fs w = fs w' ->
  fs (try_move_into_place src target_dir w)
  = fs (try_move_into_place src target_dir w').
Proof.
  intros Hfs. unfold try_move_into_place. case_decide; [done |].
  rewrite Hfs. destruct (FS.exists_ (fs w') target_dir).
  - destruct (FS.rmtree (fs w') target_dir) as [e | f']; [done |].
    cbn [fs set_fs]. by destruct (FS.move f' src target_dir).
  - rewrite Hfs. by destruct (FS.move (fs w') src target_dir).
Qed.

Lemma install_same_fs target_dir zip_path w w' :
  fs w = fs w' ->
  (install_downloaded target_dir zip_path w).1
  = (install_downloaded target_dir zip_path w').1
  /\ fs (install_downloaded target_dir zip_path w).2
     = fs (install_downloaded target_dir zip_path w').2.
Proof.
  intros Hfs. unfold install_downloaded.
  set (parent := FS.dirname target_dir).
  destruct (extract_zip_same_fs zip_path parent
              (status_cb None 0 (Some 0) "Extracting model..." w)
              (status_cb None 0 (Some 0) "Extracting model..." w') Hfs)
    as [Hok Hx].
  destruct (_extract_zip zip_path parent
              (status_cb None 0 (Some 0) "Extracting model..." w))
    as [ok2 w2].
  destruct (_extract_zip zip_path parent
              (status_cb None 0 (Some 0) "Extracting model..." w'))
    as [ok2' w2'].
  cbn [fst snd] in Hok, Hx. subst ok2'. destruct ok2; [| done].
  rewrite Hx. destruct (FS.isdir (fs w2') _).
  - cbn [fst snd]. split; [done |]. apply try_move_same_fs. cbn [fs status_cb].
    by apply try_remove_same_fs.
  - destruct (find_model_dir _ _ _) as [found |]; [| done].
    cbn [fst snd]. split; [done |]. apply try_move_same_fs.
    cbn [fs status_cb]. by apply try_remove_same_fs.
Qed.

(** What a path that holds nothing keeps holding. *)
Lemma mkdirs_from_other f done todo f' k :
  FS.mkdirs_from f done todo = inr f' ->
  (forall n : nat, k <> done ++ take n todo) ->
  f' !! k = f !! k.
Proof.
  revert f done. induction todo as [| name todo IH]; intros f done; cbn.
  - by intros [= <-].
  - destruct (FS.mkdir_exist_ok f (done ++ [name])) as [e | f0] eqn:Hm;
      [done |].
    intros Hrest Hk. rewrite (IH f0 (done ++ [name]) Hrest).
    + eapply mkdir_exist_ok_other; [exact Hm |].
      specialize (Hk 1%nat). cbn in Hk. by rewrite take_0 in Hk.
    + intros n. rewrite <- app_assoc. apply (Hk (S n)).
Qed.

Lemma take_removelast {A} (n : nat) (l : list A) :
  exists n', take n (removelast l) = take n' l.
Proof.
  rewrite removelast_firstn_len. rewrite take_take. by eexists.
Qed.

Lemma write_other f p c k : k <> p -> FS.write f p c !! k = f !! k.
Proof.
  intros Hne. unfold FS.write.
  destruct (f !! p) as [[c0 |] |]; try done. by rewrite lookup_insert_ne.
Qed.

Lemma open_wb_other f p f' k :
  FS.open_wb f p = inr f' -> k <> p -> f' !! k = f !! k.
Proof.
  intros Ho Hne. rewrite (open_wb_inr _ _ _ Ho). by rewrite lookup_insert_ne.
Qed.

(** The extraction of a member touches its target and the directories
    above it, nothing else. *)
Lemma extract_other f extract_to m k :
  (forall n : nat, k <> take n (extract_to ++ FS.m_path m)) ->
  (FS.extract f extract_to m).1 !! k = f !! k.
Proof.
  intros Hk. unfold FS.extract. cbv zeta.
  set (target := extract_to ++ FS.m_path m) in *.
  assert (Htarget : k <> target).
  { specialize (Hk (List.length target)). by rewrite firstn_all in Hk. }
  assert (Hbody : forall f1, f1 !! k = f !! k ->
            (match FS.m_body m with
             | FS.MDir =>
               if FS.isdir f1 target then (f1, None)
               else match FS.mkdir_exist_ok f1 target with
                    | inl e => (f1, Some e)
                    | inr f2 => (f2, None)
                    end
             | FS.MFile c =>
               match FS.open_wb f1 target with
               | inl e => (f1, Some e)
               | inr f2 => (FS.write f2 target c, None)
               end
             | FS.MBad None e => (f1, Some e)
             | FS.MBad (Some c) e =>
               match FS.open_wb f1 target with
               | inl e' => (f1, Some e')
               | inr f2 => (FS.write f2 target c, Some e)
               end
             end).1 !! k = f !! k).
  { intros f1 Hf1. destruct (FS.m_body m) as [| c | [c |] e].
    - destruct (FS.isdir f1 target); [done |].
      destruct (FS.mkdir_exist_ok f1 target) as [e | f2] eqn:Hx; [done |].
      cbn. by rewrite (mkdir_exist_ok_other _ _ _ _ Hx Htarget).
    - destruct (FS.open_wb f1 target) as [e | f2] eqn:Ho; [done |].
      cbn. by rewrite write_other, (open_wb_other _ _ _ _ Ho Htarget).
    - destruct (FS.open_wb f1 target) as [e' | f2] eqn:Ho; [done |].
      cbn. by rewrite write_other, (open_wb_other _ _ _ _ Ho Htarget).
    - done. }
  destruct (FS.dirname target) as [| a d] eqn:Hd; [by apply Hbody |].
  destruct (FS.makedirs f (a :: d)) as [e | f1] eqn:Hm; [done |].
  apply Hbody. unfold FS.makedirs in Hm.
  apply (mkdirs_from_other _ _ _ _ _ Hm). intros n. cbn [app].
  rewrite <- Hd. unfold FS.dirname.
  destruct (take_removelast n target) as [n' ->]. apply Hk.
Qed.

Lemma extract_members_other members i total extract_to w k :
  Forall (fun m => forall n : nat, k <> take n (extract_to ++ FS.m_path m))
    members ->
  fs (extract_members members i total extract_to w).2 !! k = fs w !! k.
Proof.
  intros Hall. revert i w.
  induction Hall as [| m members Hm _ IH]; intros i w; cbn [extract_members];
    [done |].
  pose proof (extract_other (fs w) extract_to m k Hm) as Hx.
  destruct (FS.extract (fs w) extract_to m) as [f' [e |]]; cbn [fst] in Hx;
    [done |].
  rewrite IH. by destruct (int_truediv (i * 100) total).
Qed.

(** A member that does not start with [name] does not land at the
    sibling [name] of the extraction directory, nor makes it. *)
Lemma sibling_not_on_the_way (parent rest : FS.path) (name : string)
    (n : nat) :
  head rest <> Some name -> parent ++ [name] <> take n (parent ++ rest).
Proof.
  intros Hhead Heq. rewrite take_app in Heq.
  destruct (decide (n <= List.length parent)%nat) as [Hle | Hgt].
  - apply (f_equal List.length) in Heq.
    rewrite !length_app, !length_take in Heq. cbn in Heq. lia.
  - rewrite take_ge in Heq by lia. apply app_inv_head in Heq.
    destruct rest as [| a rest]; [by rewrite take_nil in Heq |].
    destruct (n - List.length parent)%nat; [done |].
    cbn in Heq. injection Heq as <- _. by apply Hhead.
Qed.

Lemma try_remove_absent p w k :
  fs w !! k = None -> fs (try_remove p w) !! k = None.
Proof.
  intros Hk. unfold try_remove, FS.remove.
  destruct (fs w !! p) as [[c |] |]; cbn; try done.
  by apply lookup_delete_None; right.
Qed.

(** The move onto the target directory puts nothing at a sibling of the
    target that held nothing. *)
Lemma try_move_absent parent name other src w :
  name <> other ->
  fs w !! FS.join parent other = None ->
  fs (try_move_into_place src (FS.join parent name) w)
    !! FS.join parent other = None.
Proof.
  intros Hne Hnone. unfold try_move_into_place. case_decide; [done |].
  set (target := FS.join parent name) in *.
  set (k := FS.join parent other) in *.
  assert (Hmove : forall w1,
            fs w1 !! k = None ->
            fs match FS.move (fs w1) src target with
               | inl _ => w1
               | inr f' => set_fs (OpMove src target) f' w1
               end !! k = None).
  { intros w1 Hk1.
    destruct (FS.move (fs w1) src target) as [e | f'] eqn:Hm; [done |].
    cbn. destruct (f' !! k) as [v |] eqn:Hf; [| done]. exfalso.
    destruct (move_lookup _ _ _ _ _ _ Hm Hf) as (k0 & rd & Hk0 & Hre & Hrd).
    unfold FS.rekey in Hre.
    destruct (FS.strip_prefix src k0) as [rest |] eqn:Hsp.
    - unfold k, target, FS.join in Hre, Hrd.
      destruct Hrd as [-> | ->]; rewrite <- ?app_assoc in Hre;
        apply app_inv_head in Hre; cbn in Hre; by injection Hre as -> _.
    - subst k0. congruence. }
  destruct (FS.exists_ (fs w) target).
  - destruct (FS.rmtree (fs w) target) as [e | f'] eqn:Hrm; [done |].
    apply Hmove. cbn. destruct (f' !! k) as [v |] eqn:Hf; [| done].
    apply (rmtree_lookup _ _ _ _ _ Hrm) in Hf. congruence.
  - by apply Hmove.
Qed.

(** A round of the loop that finds the archive downloaded leaves no
    [.part] file when there was none and no entry of the archive bears
    its name. *)
Lemma install_absent parent name other w content members :
  let target_dir := FS.join parent name in
  let zip_path := zip_path_of target_dir in
  name <> other ->
  fs w !! FS.join parent other = None ->
  fs w !! zip_path = Some (FS.File content) ->
  unzip content = Some members ->
  Forall (fun m => head (FS.m_path m) <> Some other) members ->
  fs (install_downloaded target_dir zip_path w).2 !! FS.join parent other
  = None.
Proof.
  cbn zeta. intros Hne Hnone Hzip Hunzip Hmem.
  assert (Hpar : FS.dirname (FS.join parent name) = parent)
    by apply removelast_last.
  unfold install_downloaded. rewrite Hpar.
  assert (Hx : fs (_extract_zip (zip_path_of (FS.join parent name)) parent
                     (status_cb None 0 (Some 0) "Extracting model..." w)).2
                 !! FS.join parent other = None).
  { unfold _extract_zip. cbn [fs status_cb]. rewrite Hzip, Hunzip.
    rewrite extract_members_other; [done |].
    eapply Forall_impl; [exact Hmem |]. intros m Hm n.
    by apply sibling_not_on_the_way. }
  destruct (_extract_zip _ parent _) as [ok2 w2]. cbn [fst snd] in *.
  destruct ok2; [| done].
  destruct (FS.isdir (fs w2) (FS.join parent CONFIG.model_name)).
  - cbn [snd]. apply try_move_absent; [done |]. cbn [fs status_cb].
    by apply try_remove_absent.
  - destruct (find_model_dir _ _ _) as [found |]; [| done].
    cbn [snd]. apply try_move_absent; [done |]. cbn [fs status_cb].
    by apply try_remove_absent.
Qed.

(** A download that returns [True] found a directory to write in, and
    its mirror served a whole body. *)
Lemma download_ok_can_download url dest w :
  (_download_with_progress url dest w).1 = true ->
  can_download (fs w) dest /\ exists content, serves url content.
Proof.
  pose proof (part_ne dest) as Hne.
  unfold _download_with_progress, urlopen, download_error, serves, answer.
  destruct (Request url) as [e |]; [done |].
  destruct (fetch url) as [e | header data]; [done |].
  destruct (parse_content_length header) as [e | total]; [done |].
  cbn [fs]. set (tmp := FS.add_suffix dest ".part") in *.
  destruct (FS.open_wb (fs w) tmp) as [e | f1] eqn:Hopen; [done |].
  assert (Hopened : FS.parent_ok (fs w) tmp = true
                    /\ FS.isdir (fs w) tmp = false).
  { unfold FS.open_wb in Hopen. unfold FS.isdir.
    destruct tmp as [| a l]; [done |].
    destruct (fs w !! (a :: l)) as [[|] |]; try done;
      by destruct (FS.parent_ok (fs w) (a :: l)). }
  destruct Hopened as [Hpar Htmp].
  apply open_wb_inr in Hopen. subst f1.
  match goal with |- context [read_chunks data tmp dest ?tot ?n ?w1] =>
    destruct (read_chunks_spec data tmp dest tot n w1 [] Hne)
      as (steps & _ & _ & Hfs & Hres);
    [cbn; apply lookup_insert_eq |];
    destruct (read_chunks data tmp dest tot n w1) as [res w2] end.
  cbn [fst snd fs set_fs app] in *. rewrite insert_insert_eq in Hfs.
  destruct res as [e | got]; [done |]. destruct Hres as [Hbytes _].
  unfold FS.replace. rewrite Hfs, lookup_insert_eq.
  rewrite lookup_insert_ne by done.
  assert (Hpar' : FS.parent_ok (fs w) dest = true).
  { unfold FS.parent_ok in *. unfold tmp in Hpar.
    by rewrite dirname_add_suffix in Hpar. }
  intros Hok. split; [| by eexists _, _].
  repeat split; [done | | done].
  unfold FS.isdir. by destruct (fs w !! dest) as [[|] |].
Qed.

(** What it takes for a run with one mirror to return [True]. *)
Lemma one_mirror_succeeds target_dir url w :
  FS.isdir (fs w) target_dir = false ->
  (auto_download_model target_dir [url] w).1 = inr true ->
  exists f1 content,
    FS.makedirs (fs w) (FS.dirname target_dir) = inr f1
    /\ can_download f1 (zip_path_of target_dir)
    /\ serves url content
    /\ let w1 := status_cb None 0 (Some 0) ("Trying: " +:+ url)
                   (set_fs (OpMakedirs (FS.dirname target_dir)) f1 w) in
       let w2 := (_download_with_progress url (zip_path_of target_dir)
                    w1).2 in
       let done := install_downloaded target_dir (zip_path_of target_dir)
                     w2 in
       done.1 = Some true
       /\ (auto_download_model target_dir [url] w).2 = done.2.
Proof.
  intros Hdir. unfold auto_download_model. rewrite Hdir.
  destruct (FS.makedirs (fs w) (FS.dirname target_dir)) as [e | f1];
    [done |].
  change (FS.join (FS.dirname target_dir) CONFIG.model_zip)
    with (zip_path_of target_dir).
  cbn [try_urls].
  set (w1 := status_cb None 0 (Some 0) ("Trying: " +:+ url) _).
  pose proof (download_ok_can_download url (zip_path_of target_dir) w1)
    as Hcan.
  destruct (_download_with_progress url (zip_path_of target_dir) w1)
    as [ok w2] eqn:Hd.
  cbn [fst snd] in *. destruct ok; [| done].
  destruct (Hcan eq_refl) as [Hcd [content Hserve]].
  destruct (install_downloaded target_dir (zip_path_of target_dir) w2)
    as [[r |] w3] eqn:Hi; cbn [fst snd]; [| done].
  intros [= ->]. exists f1, content. split; [done |]. split; [done |].
  split; [done |].
  cbv zeta. fold w1. rewrite Hd. cbn [snd]. by rewrite Hi.
Qed.

End mirrors_at_return.

(** The second half of C4 needs a proviso of its own: an archive may
    hold an entry that bears the name of the [.part] file. Then the run
    returns [True] and a file of that name is on the disk. *)
Lemma archive_entry_named_part_stays :
  let target_dir := CONFIG.model_target_dir in
  let run := @auto_download_model archive_with_part_entry target_dir
               [mirror_2] (fresh_world models_dir_only) in
  run.1 = inr true
  /\ fs run.2 !! FS.add_suffix (zip_path_of target_dir) ".part"
     = Some (FS.File [x00]).
Proof. vm_compute. split; reflexivity. Qed.

(** C4, amended. When the download from a mirror fails,
    [auto_download_model] goes on to the next mirror and leaves the
    [.part] file as the failed attempt left it (the next attempt that gets
    a response truncates it). When the mirrors before mirror N fail and
    mirror N succeeds (a run with mirror N alone returns [True]), then
    the run returns [True], [urlopen] is called for each failing mirror
    that [Request] accepts, then for mirror N, and for no mirror after
    it; and when the run returns the disk is the one that the run with
    mirror N alone leaves: nothing a failing mirror sent persists. No
    [.part] file remains, unless the target directory is the path of
    the [.part] file or an entry of the archive of mirror N lands at that
    path or under it. *)
Theorem failing_mirrors_then_one_serves `{E : Env} (parent : FS.path)
    (name : string) (failing : list string) (url_n : string)
    (rest : list string) (w : world) :
  let target_dir := FS.join parent name in
  let zip_path := zip_path_of target_dir in
  let tmp_path := FS.add_suffix zip_path ".part" in
  let alone := auto_download_model target_dir [url_n] w in
  let run := auto_download_model target_dir (failing ++ url_n :: rest) w in
  FS.isdir (fs w) target_dir = false ->
  Forall fails failing ->
  alone.1 = inr true ->
  (exists f1 w_failed,
      FS.makedirs (fs w) parent = inr f1
      /\ try_urls target_dir zip_path (failing ++ url_n :: rest)
           (set_fs (OpMakedirs parent) f1 w)
         = try_urls target_dir zip_path (url_n :: rest) w_failed
      /\ fs w_failed = part_left (leftover failing None) tmp_path f1
      /\ requests w_failed = requests w ++ requested failing)
  /\ run.1 = inr true
  /\ requests run.2 = requests w ++ requested failing ++ [url_n]
  /\ fs run.2 = fs alone.2
  /\ (target_dir <> tmp_path ->
      (forall content members,
          serves url_n content -> unzip content = Some members ->
          Forall (fun m => head (FS.m_path m)
                           <> Some (FS.basename tmp_path)) members) ->
      fs run.2 !! tmp_path = None).
Proof.
  cbn zeta. intros Hdir Hfail Halone.
  assert (Hpar : FS.dirname (FS.join parent name) = parent)
    by apply removelast_last.
  set (target := FS.join parent name) in *.
  set (zip := zip_path_of target) in *.
  assert (Hzip : zip = FS.join parent CONFIG.model_zip)
    by (unfold zip, zip_path_of; by rewrite Hpar).
  set (tmp := FS.add_suffix zip ".part") in *.
  assert (Htmp : tmp = FS.join parent (FS.basename tmp)).
  { unfold tmp, FS.add_suffix at 1. rewrite Hzip at 1.
    unfold FS.dirname, FS.join at 1. rewrite removelast_last.
    unfold FS.join. f_equal. f_equal. unfold tmp, FS.add_suffix, FS.basename.
    by rewrite last_last. }
  destruct (one_mirror_succeeds target url_n w Hdir Halone)
    as (f1 & content & Hmk & Hcan & Hserve & Hdone & Halone2).
  cbn zeta in Hdone, Halone2. fold zip in Hcan, Hdone, Halone2.
  rewrite Hpar in Hmk, Hdone, Halone2.
  set (w1 := set_fs (OpMakedirs parent) f1 w) in *.
  destruct (try_urls_past_failures target zip failing (url_n :: rest) w1
              Hcan Hfail) as (w2 & Hrun & Hfs2 & Hreq2 & Hcan2).
  set (a3 := status_cb None 0 (Some 0) ("Trying: " +:+ url_n) w1) in *.
  set (w3 := status_cb None 0 (Some 0) ("Trying: " +:+ url_n) w2).
  destruct (download_succeeds url_n zip a3 content Hcan Hserve)
    as (_ & Hfsa & _).
  destruct (download_succeeds url_n zip w3 content Hcan2 Hserve)
    as (Hok & Hfs4 & Hreq4).
  assert (Hsame : fs (_download_with_progress url_n zip w3).2
                  = fs (_download_with_progress url_n zip a3).2).
  { rewrite Hfs4, Hfsa. cbn [w3 a3 w1 status_cb set_fs fs]. rewrite Hfs2.
    fold tmp. destruct (leftover failing None); cbn [part_left]; [| done].
    by rewrite delete_insert_eq. }
  destruct (install_same_fs target zip _ _ Hsame) as [Hres Hfs5].
  assert (Hrunall : auto_download_model target (failing ++ url_n :: rest) w
                    = (inr true,
                       (install_downloaded target zip
                          (_download_with_progress url_n zip w3).2).2)).
  { unfold auto_download_model. rewrite Hdir, Hpar, Hmk. rewrite <- Hzip.
    fold w1. rewrite Hrun. cbn [try_urls]. fold w3.
    destruct (_download_with_progress url_n zip w3) as [ok w4].
    cbn [fst snd] in *. subst ok. rewrite Hdone in Hres.
    by destruct (install_downloaded target zip w4) as [[r |] w5];
      cbn [fst snd] in *; simplify_eq. }
  split.
  { exists f1, w2. by rewrite Hreq2. }
  rewrite Hrunall. cbn [fst snd]. split; [done |]. split; [| split].
  - rewrite install_requests, Hreq4. cbn [w3 status_cb requests].
    by rewrite Hreq2, <- app_assoc.
  - by rewrite Hfs5, Halone2.
  - intros Htarget Hentries.
    assert (Hname : name <> FS.basename tmp).
    { intros Heq. apply Htarget. rewrite Htmp. unfold target.
      by rewrite Heq. }
    assert (Hunzip : exists members, unzip content = Some members).
    { revert Hdone. unfold install_downloaded, _extract_zip.
      cbn [fs status_cb]. rewrite Hfsa, lookup_insert_eq.
      destruct (unzip content) as [members |]; [by eexists | done]. }
    destruct Hunzip as [members Hunzip].
    rewrite Htmp. apply (install_absent parent name (FS.basename tmp) _
                           content members); try done.
    + rewrite <- Htmp, Hfs4.
      rewrite lookup_insert_ne by (intros Heq; by apply (part_ne zip)).
      apply lookup_delete_eq.
    + fold target zip. rewrite Hfs4. apply lookup_insert_eq.
    + by apply (Hentries content members).
Qed.

(** The first mirror breaks after three bytes, the second serves the
    archive: the run returns [True], both mirrors were asked, the disk is
    the one the second mirror alone leaves, and the [.part] file is
    gone. *)
Lemma failing_mirrors_then_one_serves_witness :
  let target_dir := FS.join ["models"] CONFIG.model_name in
  let zip_path := zip_path_of target_dir in
  let tmp_path := FS.add_suffix zip_path ".part" in
  let w := fresh_world models_dir_only in
  let alone := @auto_download_model first_mirror_breaks target_dir
                 [mirror_2] w in
  let run := @auto_download_model first_mirror_breaks target_dir
               ([mirror_1] ++ mirror_2 :: []) w in
  (exists f1 w_failed,
      FS.makedirs (fs w) ["models"] = inr f1
      /\ @try_urls first_mirror_breaks target_dir zip_path
           ([mirror_1] ++ mirror_2 :: []) (set_fs (OpMakedirs ["models"]) f1 w)
         = @try_urls first_mirror_breaks target_dir zip_path
             (mirror_2 :: []) w_failed
      /\ fs w_failed
         = part_left (@leftover first_mirror_breaks [mirror_1] None)
             tmp_path f1
      /\ requests w_failed = requests w ++ requested [mirror_1])
  /\ run.1 = inr true
  /\ requests run.2 = requests w ++ requested [mirror_1] ++ [mirror_2]
  /\ fs run.2 = fs alone.2
  /\ fs run.2 !! tmp_path = None.
Proof.
  cbn zeta.
  destruct (@failing_mirrors_then_one_serves first_mirror_breaks ["models"]
              CONFIG.model_name [mirror_1] mirror_2 []
              (fresh_world models_dir_only))
    as (Hfailed & Hrun & Hreq & Hfs & Hpart).
  - vm_compute. reflexivity.
  - constructor; [vm_compute; reflexivity | constructor].
  - vm_compute. reflexivity.
  - split; [exact Hfailed |]. split; [exact Hrun |]. split; [exact Hreq |].
    split; [exact Hfs |]. apply Hpart.
    + vm_compute. discriminate.
    + intros content members _ [= <-].
      repeat constructor; vm_compute; discriminate.
Defined.

(** ** The streaming recognizer: what an iteration emits *)

Lemma lstrip_chars_head (l : list ascii) :
  lstrip_chars l = []
  \/ exists c l', lstrip_chars l = c :: l' /\ py_isspace c = false.
Proof.
  induction l as [| a l IH]; cbn; [by left |].
  destruct (py_isspace a) eqn:Ha; [done |]. right. by exists a, l.
Qed.

Lemma lstrip_chars_fixed (c : ascii) (l : list ascii) :
  py_isspace c = false -> lstrip_chars (c :: l) = c :: l.
Proof. intros Hc. cbn. by rewrite Hc. Qed.

Lemma lstrip_chars_suffix (l : list ascii) :
  exists pre, l = pre ++ lstrip_chars l /\ Forall (fun a => py_isspace a = true) pre.
Proof.
  induction l as [| a l (pre & Hl & Hpre)]; cbn; [by exists [] |].
  destruct (py_isspace a) eqn:Ha.
  - exists (a :: pre). split; [cbn; congruence | by constructor].
  - by exists [].
Qed.

(** What [strip] returns has no white space at either end. *)
Lemma strip_chars_trimmed (l : list ascii) :
  let r := rev (lstrip_chars (rev (lstrip_chars l))) in
  lstrip_chars r = r /\ lstrip_chars (rev r) = rev r.
Proof.
  cbn zeta. rewrite rev_involutive.
  destruct (lstrip_chars_head l) as [-> | (c & a' & -> & Hc)]; [done |].
  cbn [rev].
  destruct (lstrip_chars_suffix (rev a' ++ [c])) as (pre & Hsplit & Hpre).
  destruct (lstrip_chars_head (rev a' ++ [c])) as [Hb | (d & b' & Hb & Hd)].
  - exfalso. rewrite Hb, app_nil_r in Hsplit. rewrite <- Hsplit in Hpre.
    apply Forall_app in Hpre as [_ Hlast].
    apply Forall_inv in Hlast. congruence.
  - rewrite Hb in *. split; [| by apply lstrip_chars_fixed].
    destruct (exists_last (l := d :: b') ltac:(done)) as (b0 & z & Hz).
    rewrite Hz in *. rewrite app_assoc in Hsplit.
    apply app_inj_tail in Hsplit as [_ <-].
    rewrite rev_unit. by apply lstrip_chars_fixed.
Qed.

Lemma strip_idempotent (s : string) : strip (strip s) = strip s.
Proof.
  unfold strip. rewrite list_ascii_of_string_of_list_ascii.
  destruct (strip_chars_trimmed (list_ascii_of_string s)) as [H1 H2].
  cbn zeta in H1, H2. by rewrite H1, H2, rev_involutive.
Qed.

Lemma truthy_not_empty (s : string) : truthy s = true -> s <> "".
Proof. by destruct s. Qed.

Section emitting.
Context `{V : Vosk}.

Import VoskStreamer.

Lemma result_text_trimmed (key res txt : string) :
  result_text key res = Some txt -> strip txt = txt.
Proof.
  unfold result_text, get_stripped.
  destruct (json_loads res) as [[fields |] |]; try done.
  destruct (dict_get key fields) as [[s |] |]; try done;
    intros [= <-]; apply strip_idempotent.
Qed.

End emitting.

(** X7. One iteration of the recognizer loop, and the flush at its exit,
    put at most one message each: an error status, a transcription or a
    partial, whose text is stripped of white space and not empty; the
    flush puts no partial and no status. A result without the key, with a
    blank text, or that [json.loads] or [strip] cannot take, gives no
    message at all. *)
Theorem streamer_emits_trimmed_text `{V : Vosk} (clk : tick)
    (s : VoskStreamer.t) :
  let out := (VoskStreamer._loop_iter clk s).2 in
  let flushed := (VoskStreamer.flush_final clk s).2 in
  (out = [] \/ exists m, out = [m] /\ streamer_message clk m)
  /\ (flushed = []
      \/ exists txt, flushed = [MsgTranscription txt (hms clk)]
                     /\ txt <> "" /\ strip txt = txt).
Proof.
  cbn zeta. split.
  - unfold VoskStreamer._loop_iter.
    destruct (VoskStreamer.queue s) as [| bts q]; cbn; [by left |].
    destruct (VoskStreamer.rec s) as [r |]; cbn.
    + unfold VoskStreamer.decode_frame.
      destruct (AcceptWaveform r bts) as [[e | [|]] r1]; cbn.
      * right. eexists. split; [done |]. left. by eexists.
      * destruct (Result r1) as [[e | res] r2]; cbn.
        { right. eexists. split; [done |]. left. by eexists. }
        destruct (VoskStreamer.result_text "text" res) as [txt |] eqn:Ht;
          cbn; [| by left].
        destruct (truthy txt) eqn:Hty; cbn; [| by left].
        right. eexists. split; [done |]. right. left. exists txt.
        split; [done |]. split; [by apply truthy_not_empty |].
        by eapply result_text_trimmed.
      * destruct (PartialResult r1) as [[e | res] r2]; cbn.
        { right. eexists. split; [done |]. left. by eexists. }
        destruct (VoskStreamer.result_text "partial" res) as [p |] eqn:Ht;
          cbn; [| by left].
        destruct (truthy p) eqn:Hty; cbn; [| by left].
        destruct (_ <=? _); cbn; [| by left].
        right. eexists. split; [done |]. right. right. exists p.
        split; [done |]. split; [by apply truthy_not_empty |].
        by eapply result_text_trimmed.
    + right. eexists. split; [done |]. left. by eexists.
  - unfold VoskStreamer.flush_final.
    destruct (VoskStreamer.rec s) as [r |]; cbn; [| by left].
    destruct (FinalResult r) as [[e | res] r1]; cbn; [by left |].
    destruct (VoskStreamer.result_text "text" res) as [txt |] eqn:Ht;
      cbn; [| by left].
    destruct (truthy txt) eqn:Hty; cbn; [| by left].
    right. exists txt. split; [done |].
    split; [by apply truthy_not_empty | by eapply result_text_trimmed].
Qed.

(** ** The streaming recognizer: feeding, stopping, restarting *)

Section feeding.
Context `{V : Vosk}.

Import VoskStreamer.

(** Decoding a frame neither reads nor writes the queue. *)
Lemma decode_frame_set_queue (r : recognizer) (bts : bytes) (clk : tick)
    (q : list bytes) (s : t) :
  decode_frame r bts clk (set_queue q s)
  = (set_queue q (decode_frame r bts clk s).1, (decode_frame r bts clk s).2).
Proof.
  unfold decode_frame.
  destruct (AcceptWaveform r bts) as [[e | [|]] r1]; cbn; [done | |].
  - destruct (Result r1) as [[e | res] r2]; cbn; [done |].
    destruct (result_text "text" res) as [txt |]; cbn; [| done].
    by destruct (truthy txt).
  - destruct (PartialResult r1) as [[e | res] r2]; cbn; [done |].
    destruct (result_text "partial" res) as [p |]; cbn; [| done].
    by destruct (truthy p && _).
Qed.

Lemma loop_iter_feed (clk : tick) (bts : bytes) (s : t) :
  queue s <> [] ->
  _loop_iter clk (feed bts s)
  = (feed bts (_loop_iter clk s).1, (_loop_iter clk s).2).
Proof.
  intros Hq. destruct s as [mp sr pi m r q run last]. cbn in Hq.
  destruct q as [| b0 q]; [done |].
  unfold _loop_iter, feed.
  cbn [queue set_queue app rec model_path sample_rate partial_interval_ms
       model running _last_partial_time].
  destruct r as [r |]; [| done].
  set (s0 := {| model_path := mp; sample_rate := sr;
                partial_interval_ms := pi; model := m; rec := Some r;
                queue := q; running := run; _last_partial_time := last |}).
  change (decode_frame r b0 clk _)
    with (decode_frame r b0 clk (set_queue (q ++ [bts]) s0)) at 1.
  rewrite decode_frame_set_queue.
  change (set_queue q (Streamer mp sr pi m (Some r) (b0 :: q) run last))
    with s0.
  pose proof (decode_frame_keeps r b0 clk s0) as [Hk _]. cbn zeta in Hk.
  destruct (decode_frame r b0 clk s0) as [s1 out]. cbn [fst snd] in *.
  unfold s0 in Hk. cbn [queue] in Hk. by rewrite Hk.
Qed.

End feeding.

(** X8. The queue of the recognizer is first in, first out. [feed] puts
    the frame at the end of the queue and touches nothing else; an
    iteration takes the frame at the head of the queue and decodes that
    one. So a frame fed while others wait does not change how they are
    decoded: running the loop for no more iterations than there were
    frames waiting gives the same messages and the same recognizer, with
    the new frame still at the end of the queue; and once the frames that
    waited are all taken, the next iteration decodes the new frame. *)
Theorem feed_is_first_in_first_out `{V : Vosk} (clks : list tick)
    (bts : bytes) (s : VoskStreamer.t) :
  (List.length clks <= List.length (VoskStreamer.queue s))%nat ->
  let before := VoskStreamer._loop_iters clks s in
  let after := VoskStreamer._loop_iters clks (VoskStreamer.feed bts s) in
  VoskStreamer.queue (VoskStreamer.feed bts s)
  = VoskStreamer.queue s ++ [bts]
  /\ VoskStreamer.rec (VoskStreamer.feed bts s) = VoskStreamer.rec s
  /\ VoskStreamer.running (VoskStreamer.feed bts s) = VoskStreamer.running s
  /\ (forall clk b0 q r,
        VoskStreamer.queue s = b0 :: q -> VoskStreamer.rec s = Some r ->
        VoskStreamer._loop_iter clk s
        = VoskStreamer.decode_frame r b0 clk (VoskStreamer.set_queue q s)
        /\ VoskStreamer.queue (VoskStreamer._loop_iter clk s).1 = q)
  /\ after = (VoskStreamer.feed bts before.1, before.2)
  /\ VoskStreamer.queue after.1
     = drop (List.length clks) (VoskStreamer.queue s) ++ [bts]
  /\ (List.length clks = List.length (VoskStreamer.queue s) ->
      forall clk r,
        VoskStreamer.rec before.1 = Some r ->
        VoskStreamer._loop_iter clk after.1
        = VoskStreamer.decode_frame r bts clk
            (VoskStreamer.set_queue [] before.1)).
Proof.
  intros Hlen. cbn zeta.
  assert (Hcomm : VoskStreamer._loop_iters clks (VoskStreamer.feed bts s)
                  = (VoskStreamer.feed bts
                       (VoskStreamer._loop_iters clks s).1,
                     (VoskStreamer._loop_iters clks s).2)).
  { revert s Hlen. induction clks as [| clk clks IH]; intros s Hlen; [done |].
    cbn [VoskStreamer._loop_iters].
    rewrite loop_iter_feed
      by (intros Hq; rewrite Hq in Hlen; cbn in Hlen; lia).
    pose proof (loop_iter_queue clk s) as Hq.
    destruct (VoskStreamer._loop_iter clk s) as [s1 out]. cbn [fst snd] in *.
    rewrite IH.
    - by destruct (VoskStreamer._loop_iters clks s1) as [s2 outs].
    - rewrite Hq. destruct (VoskStreamer.queue s); cbn in *; lia. }
  pose proof (loop_iters_drain clks s) as [Hdrain _]. cbn zeta in Hdrain.
  split; [done |]. split; [done |]. split; [done |].
  split; [| split; [done |]; split].
  - intros clk b0 q r Hq Hr.
    assert (Hit : VoskStreamer._loop_iter clk s
                  = VoskStreamer.decode_frame r b0 clk
                      (VoskStreamer.set_queue q s)).
    { unfold VoskStreamer._loop_iter. rewrite Hq.
      change (VoskStreamer.rec (VoskStreamer.set_queue q s))
        with (VoskStreamer.rec s). by rewrite Hr. }
    split; [done |]. rewrite Hit.
    by destruct (decode_frame_keeps r b0 clk (VoskStreamer.set_queue q s))
      as [-> _].
  - rewrite Hcomm. cbn [fst]. unfold VoskStreamer.feed at 1.
    cbn [VoskStreamer.queue VoskStreamer.set_queue]. by rewrite Hdrain.
  - intros Hall clk r Hr. rewrite Hcomm. cbn [fst].
    unfold VoskStreamer._loop_iter, VoskStreamer.feed.
    cbn [VoskStreamer.queue VoskStreamer.set_queue VoskStreamer.rec].
    rewrite Hdrain, Hall, drop_all. cbn [app]. by rewrite Hr.
Qed.

(** Two frames wait, a third is fed, the loop runs twice. *)
Lemma feed_is_first_in_first_out_witness :
  let s := echo_streamer 80 [[x01]; [x00]] in
  let clks := [at_ms 1000; at_ms 1100] in
  let before := @VoskStreamer._loop_iters echo_decoder clks s in
  let after := @VoskStreamer._loop_iters echo_decoder clks
                 (@VoskStreamer.feed echo_decoder [x02] s) in
  VoskStreamer.queue (@VoskStreamer.feed echo_decoder [x02] s)
  = VoskStreamer.queue s ++ [[x02]]
  /\ VoskStreamer.rec (@VoskStreamer.feed echo_decoder [x02] s)
     = VoskStreamer.rec s
  /\ VoskStreamer.running (@VoskStreamer.feed echo_decoder [x02] s)
     = VoskStreamer.running s
  /\ (forall clk b0 q r,
        VoskStreamer.queue s = b0 :: q -> VoskStreamer.rec s = Some r ->
        @VoskStreamer._loop_iter echo_decoder clk s
        = @VoskStreamer.decode_frame echo_decoder r b0 clk
            (VoskStreamer.set_queue q s)
        /\ VoskStreamer.queue
             (@VoskStreamer._loop_iter echo_decoder clk s).1 = q)
  /\ after = (@VoskStreamer.feed echo_decoder [x02] before.1, before.2)
  /\ VoskStreamer.queue after.1
     = drop (List.length clks) (VoskStreamer.queue s) ++ [[x02]]
  /\ (List.length clks = List.length (VoskStreamer.queue s) ->
      forall clk r,
        VoskStreamer.rec before.1 = Some r ->
        @VoskStreamer._loop_iter echo_decoder clk after.1
        = @VoskStreamer.decode_frame echo_decoder r [x02] clk
            (VoskStreamer.set_queue [] before.1)).
Proof.
  cbn zeta.
  apply (@feed_is_first_in_first_out echo_decoder
           [at_ms 1000; at_ms 1100] [x02] (echo_streamer 80 [[x01]; [x00]])).
  vm_compute. lia.
Defined.

Lemma flush_final_keeps `{V : Vosk} (clk : tick) (s : VoskStreamer.t) :
  let run := VoskStreamer.flush_final clk s in
  VoskStreamer.queue run.1 = VoskStreamer.queue s
  /\ VoskStreamer.running run.1 = VoskStreamer.running s
  /\ VoskStreamer._last_partial_time run.1
     = VoskStreamer._last_partial_time s
  /\ (run.2 = []
      \/ exists txt, run.2 = [MsgTranscription txt (hms clk)] /\ txt <> "").
Proof.
  cbn zeta. unfold VoskStreamer.flush_final.
  destruct (VoskStreamer.rec s) as [r |]; cbn;
    [| repeat split; try done; by left].
  destruct (FinalResult r) as [[e | res] r1]; cbn;
    [repeat split; try done; by left |].
  destruct (VoskStreamer.result_text "text" res) as [txt |]; cbn;
    [| repeat split; try done; by left].
  destruct (truthy txt) eqn:Hty; cbn; [| repeat split; try done; by left].
  repeat split; try done. right. exists txt. split; [done |].
  by apply truthy_not_empty.
Qed.

(** X9. After [stop()], the next time the loop thread tests [running] it
    leaves the loop: it decodes no further frame (those still queued stay
    queued), puts no partial and no status, and puts at most the one
    transcription of the flush, with a text that is not empty. *)
Theorem stop_ends_the_loop `{V : Vosk} (s : VoskStreamer.t) (loops : nat)
    (clk : tick) :
  let after := VoskStreamer.step (VoskStreamer.EvIter clk)
                 (VoskStreamer.stop s, S loops) in
  let msgs := after.2 in
  after.1.2 = VoskStreamer.LoopExit msgs
  /\ after.1.1.2 = loops
  /\ VoskStreamer.queue after.1.1.1 = VoskStreamer.queue s
  /\ VoskStreamer.running after.1.1.1 = false
  /\ VoskStreamer._last_partial_time after.1.1.1
     = VoskStreamer._last_partial_time s
  /\ (msgs = []
      \/ exists txt, msgs = [MsgTranscription txt (hms clk)] /\ txt <> "").
Proof.
  cbn zeta. cbn [VoskStreamer.step].
  change (VoskStreamer.running (VoskStreamer.stop s)) with false.
  cbn iota.
  pose proof (flush_final_keeps clk (VoskStreamer.stop s))
    as (Hq & Hr & Hl & Hm).
  cbn zeta in Hq, Hr, Hl, Hm.
  destruct (VoskStreamer.flush_final clk (VoskStreamer.stop s))
    as [s' msgs].
  cbn [fst snd] in *. done.
Qed.

(** X10. A [start()] that follows a [stop()] before the loop thread has
    tested [running] starts a second thread, and the first never leaves:
    from then on two threads take frames off the same queue, for as long
    as the recognizer runs. *)
Theorem restart_leaves_two_loops `{V : Vosk} (s : VoskStreamer.t)
    (clks : list tick) :
  is_Some (VoskStreamer.rec s) ->
  VoskStreamer.running s = true ->
  let restarted :=
    (VoskStreamer.run [VoskStreamer.EvStop; VoskStreamer.EvStart]
       (s, 1%nat)).1 in
  let later :=
    (VoskStreamer.run (VoskStreamer.EvIter <$> clks) restarted.1).1 in
  restarted.2 = [VoskStreamer.Quiet; VoskStreamer.Spawned]
  /\ restarted.1.2 = 2%nat
  /\ VoskStreamer.running restarted.1.1 = true
  /\ later.1.2 = 2%nat
  /\ VoskStreamer.running later.1.1 = true
  /\ Forall (fun o => exists msgs, o = VoskStreamer.Put msgs) later.2.
Proof.
  intros [r Hr] Hrun. cbn zeta.
  assert (Hre : (VoskStreamer.run [VoskStreamer.EvStop; VoskStreamer.EvStart]
                   (s, 1%nat)).1
                = ((VoskStreamer.set_running true
                      (VoskStreamer.stop s), 2%nat),
                   [VoskStreamer.Quiet; VoskStreamer.Spawned])).
  { cbn [VoskStreamer.run VoskStreamer.step]. unfold VoskStreamer.start.
    cbn [VoskStreamer.stop VoskStreamer.running VoskStreamer.set_running
         VoskStreamer.rec]. by rewrite Hr. }
  rewrite Hre. cbn [fst snd]. split; [done |]. split; [done |].
  split; [done |].
  assert (Hgen : forall s0, VoskStreamer.running s0 = true ->
            let later := (VoskStreamer.run (VoskStreamer.EvIter <$> clks)
                            (s0, 2%nat)).1 in
            later.1.2 = 2%nat
            /\ VoskStreamer.running later.1.1 = true
            /\ Forall (fun o => exists msgs, o = VoskStreamer.Put msgs)
                 later.2).
  { clear. induction clks as [| clk clks IH]; intros s0 Hrun0; cbn zeta.
    - by cbn.
    - cbn [fmap list_fmap VoskStreamer.run VoskStreamer.step]. rewrite Hrun0.
      pose proof (loop_iter_limiter clk s0) as (_ & Hr1 & _).
      cbn zeta in Hr1.
      destruct (VoskStreamer._loop_iter clk s0) as [s1 msgs].
      cbn [fst snd] in Hr1. rewrite Hrun0 in Hr1.
      specialize (IH s1 Hr1). cbn zeta in IH.
      change (list_fmap tick VoskStreamer.event VoskStreamer.EvIter clks)
        with (VoskStreamer.EvIter <$> clks).
      destruct (VoskStreamer.run (VoskStreamer.EvIter <$> clks) (s1, 2%nat))
        as [[st2 os] msgs'].
      cbn [fst snd] in *. destruct IH as (? & ? & ?).
      repeat split; [done.. |]. constructor; [by eexists | done]. }
  by apply Hgen.
Qed.

(** The echo recognizer, running with one loop thread. *)
Lemma restart_leaves_two_loops_witness :
  let s := echo_streamer 80 [[x01]; [x00]] in
  let clks := [at_ms 1000; at_ms 1100; at_ms 1200] in
  let restarted :=
    (@VoskStreamer.run echo_decoder
       [VoskStreamer.EvStop; VoskStreamer.EvStart] (s, 1%nat)).1 in
  let later :=
    (@VoskStreamer.run echo_decoder (VoskStreamer.EvIter <$> clks)
       restarted.1).1 in
  restarted.2 = [VoskStreamer.Quiet; VoskStreamer.Spawned]
  /\ restarted.1.2 = 2%nat
  /\ VoskStreamer.running restarted.1.1 = true
  /\ later.1.2 = 2%nat
  /\ VoskStreamer.running later.1.1 = true
  /\ Forall (fun o => exists msgs, o = VoskStreamer.Put msgs) later.2.
Proof.
  cbn zeta.
  apply (@restart_leaves_two_loops echo_decoder
           (echo_streamer 80 [[x01]; [x00]])
           [at_ms 1000; at_ms 1100; at_ms 1200]).
  - vm_compute. by eexists.
  - vm_compute. reflexivity.
Defined.

(** ** The capture object and its loop *)

(** X11. Whatever the program does to the capture object (start, stop,
    the frame length slider, the device choice), as long as the products
    of the rate and the frame lengths it is given stay below 2^53 in
    absolute value: its sample rate stays the one it was built with, its
    frame size stays [max(1, int(rate * chunk_ms / 1000))] for its
    current [chunk_ms], at least one sample, and a stream it has open was
    opened as 16-bit mono at that rate. *)
Theorem capture_stays_consistent (pa_ok : bool) (rate chunk_ms : Z)
    (methods : list LowLatencyCapture.method) :
  Z.abs (rate * chunk_ms) < 2 ^ 53 ->
  Forall (exact_frames rate) methods ->
  let c := used_capture pa_ok rate chunk_ms methods in
  LowLatencyCapture.rate c = rate
  /\ Z.abs (rate * LowLatencyCapture.chunk_ms c) < 2 ^ 53
  /\ LowLatencyCapture.chunk c
     = Z.max 1 (Z.quot (rate * LowLatencyCapture.chunk_ms c) 1000)
  /\ 1 <= LowLatencyCapture.chunk c
  /\ (LowLatencyCapture.running c = true -> LowLatencyCapture.pa c = true)
  /\ (forall st, LowLatencyCapture.opened c = Some st ->
        LowLatencyCapture.sample_width st = 2
        /\ LowLatencyCapture.channels st = 1
        /\ LowLatencyCapture.stream_rate st = rate
        /\ 1 <= LowLatencyCapture.frames_per_buffer st).
Proof.
  intros Hb Hall. cbn zeta. unfold used_capture.
  set (inv := fun c : LowLatencyCapture.t =>
    LowLatencyCapture.rate c = rate
    /\ Z.abs (rate * LowLatencyCapture.chunk_ms c) < 2 ^ 53
    /\ LowLatencyCapture.chunk c
       = Z.max 1 (Z.quot (rate * LowLatencyCapture.chunk_ms c) 1000)
    /\ LowLatencyCapture.pa c = pa_ok
    /\ (LowLatencyCapture.running c = true -> LowLatencyCapture.pa c = true)
    /\ (forall st, LowLatencyCapture.opened c = Some st ->
          LowLatencyCapture.sample_width st = 2
          /\ LowLatencyCapture.channels st = 1
          /\ LowLatencyCapture.stream_rate st = rate
          /\ 1 <= LowLatencyCapture.frames_per_buffer st)).
  assert (Hgen : forall c, inv c ->
            inv (foldl (fun c m => LowLatencyCapture.apply m c) c methods)).
  { induction Hall as [| m methods Hm _ IH]; intros c Hc; [done |].
    cbn [foldl]. apply IH.
    destruct Hc as (Hr & Hbc & Hch & Hpa & Hrun & Hop).
    assert (Hc : inv c) by (unfold inv; by auto).
    destruct m as [av err | | v | idx]; cbn.
    - unfold LowLatencyCapture.start.
      destruct (negb av || negb (LowLatencyCapture.pa c)) eqn:Hav;
        [exact Hc |].
      destruct (LowLatencyCapture.running c) eqn:Hrunning; [exact Hc |].
      destruct err; [exact Hc |]. cbn. unfold inv. cbn.
      apply orb_false_iff in Hav as [_ Hp%negb_false_iff].
      repeat split; try done; intros; simplify_eq; cbn; try done; lia.
    - unfold inv. cbn. repeat split; try done.
    - cbn in Hm. unfold inv.
      cbn [LowLatencyCapture.set_chunk_ms LowLatencyCapture.rate
             LowLatencyCapture.chunk_ms LowLatencyCapture.chunk
             LowLatencyCapture.pa LowLatencyCapture.running
             LowLatencyCapture.opened].
      rewrite Hr, (frames_per_chunk_exact rate v Hm).
      repeat split; try done; by apply Hop.
    - unfold inv. cbn. repeat split; try done; by apply Hop. }
  destruct (Hgen (LowLatencyCapture.__init__ pa_ok rate chunk_ms None))
    as (Hr & Hbc & Hch & Hpa & Hrun & Hop).
  { unfold inv.
    cbn [LowLatencyCapture.__init__ LowLatencyCapture.rate
           LowLatencyCapture.chunk_ms LowLatencyCapture.chunk
           LowLatencyCapture.pa LowLatencyCapture.running
           LowLatencyCapture.opened].
    rewrite (frames_per_chunk_exact rate chunk_ms Hb).
    repeat split; try done. }
  repeat split; try done; try (by apply Hop). rewrite Hch. lia.
Qed.

(** The capture object of the program after the slider has been moved to
    10 ms and the microphone started. *)
Lemma capture_stays_consistent_witness :
  let c := used_capture true CONFIG.sample_rate CONFIG.chunk_ms
             [LowLatencyCapture.Set_chunk_ms 10;
              LowLatencyCapture.Start true None] in
  LowLatencyCapture.rate c = CONFIG.sample_rate
  /\ Z.abs (CONFIG.sample_rate * LowLatencyCapture.chunk_ms c) < 2 ^ 53
  /\ LowLatencyCapture.chunk c
     = Z.max 1 (Z.quot (CONFIG.sample_rate * LowLatencyCapture.chunk_ms c)
                  1000)
  /\ 1 <= LowLatencyCapture.chunk c
  /\ (LowLatencyCapture.running c = true -> LowLatencyCapture.pa c = true)
  /\ (forall st, LowLatencyCapture.opened c = Some st ->
        LowLatencyCapture.sample_width st = 2
        /\ LowLatencyCapture.channels st = 1
        /\ LowLatencyCapture.stream_rate st = CONFIG.sample_rate
        /\ 1 <= LowLatencyCapture.frames_per_buffer st).
Proof.
  cbn zeta.
  apply (capture_stays_consistent true CONFIG.sample_rate CONFIG.chunk_ms
           [LowLatencyCapture.Set_chunk_ms 10;
            LowLatencyCapture.Start true None]).
  - vm_compute. reflexivity.
  - repeat constructor.
Defined.

(** ** Reading frames *)

Lemma frombuffer_int16_length (n : nat) (data : bytes) :
  (List.length data = (2 * n)%nat -> exists arr,
      frombuffer_int16 data = Some arr /\ List.length arr = n
      /\ Forall (fun v => -32768 <= v <= 32767) arr)
  /\ (List.length data = (2 * n + 1)%nat -> frombuffer_int16 data = None).
Proof.
  revert data. induction n as [| n IH]; intros data.
  - split.
    + destruct data; [| done]. intros _. by exists [].
    + destruct data as [| b [| b' data]]; cbn; try done.
  - destruct data as [| lo [| hi data]].
    + split; cbn; lia.
    + split; cbn; lia.
    + destruct (IH data) as [Heven Hodd]. split.
      * intros Hlen. destruct Heven as (arr & Harr & Hl & Hall).
        { cbn in Hlen. lia. }
        cbn [frombuffer_int16]. rewrite Harr. eexists. split; [done |].
        split; [cbn; lia |]. constructor; [| done].
        pose proof (Byte.to_N_bounded lo). pose proof (Byte.to_N_bounded hi).
        destruct (Z.leb_spec 32768
                    (Z.of_N (Byte.to_N lo) + 256 * Z.of_N (Byte.to_N hi)));
          lia.
      * intros Hlen. cbn [frombuffer_int16]. rewrite Hodd; [done |].
        cbn in Hlen. lia.
Qed.

(** X12. [np.frombuffer] turns a buffer of [2 n] bytes into [n] samples
    between -32768 and 32767, and raises on a buffer of odd length; that
    call and the [time.sleep] that ends an iteration are outside every
    [try] of [_read_loop]. So an iteration ends the capture thread
    exactly when it reads a buffer of odd length (nothing has been put
    then), or [chunk_ms] is negative, or the clock refuses the sleep
    (the amplitude and the frame have been put by then). An iteration
    whose read fails never ends the thread. *)
Theorem odd_buffer_ends_capture `{V : Vosk} `{P : Platform} (data : bytes)
    (c : LowLatencyCapture.t) (a : GeminiStreamingAutoDLApp.t) :
  ((GeminiStreamingAutoDLApp._read_loop_pass (inr data) c a).2 = false
   <-> Nat.Odd (List.length data)
       \/ LowLatencyCapture.chunk_ms c < 0
       \/ sleep_accepts (LowLatencyCapture.chunk_ms c) = false)
  /\ (Nat.Odd (List.length data) ->
      GeminiStreamingAutoDLApp._read_loop_pass (inr data) c a = (a, false))
  /\ (forall a',
        GeminiStreamingAutoDLApp._read_loop_iter (inr data) c a = Some a' ->
        (GeminiStreamingAutoDLApp._read_loop_pass (inr data) c a).1 = a')
  /\ (forall arr, frombuffer_int16 data = Some arr ->
        List.length data = (2 * List.length arr)%nat
        /\ Forall (fun v => -32768 <= v <= 32767) arr)
  /\ (forall e,
        (GeminiStreamingAutoDLApp._read_loop_pass (inl e) c a).2 = true).
Proof.
  assert (Hcases : (exists arr, frombuffer_int16 data = Some arr
                       /\ List.length data = (2 * List.length arr)%nat
                       /\ Forall (fun v => -32768 <= v <= 32767) arr
                       /\ Nat.Even (List.length data))
                   \/ (frombuffer_int16 data = None
                       /\ Nat.Odd (List.length data))).
  { destruct (Nat.Even_or_Odd (List.length data)) as [[n Hn] | [n Hn]].
    - destruct (frombuffer_int16_length n data) as [He _].
      destruct (He Hn) as (arr & Harr & Hl & Hall).
      left. exists arr. repeat split; [done | lia | done | by exists n].
    - destruct (frombuffer_int16_length n data) as [_ Ho].
      right. split; [by apply Ho | by exists n]. }
  assert (Hsleep : GeminiStreamingAutoDLApp.sleep_quarter
                     (LowLatencyCapture.chunk_ms c) = false
                   <-> LowLatencyCapture.chunk_ms c < 0
                       \/ sleep_accepts (LowLatencyCapture.chunk_ms c)
                          = false).
  { unfold GeminiStreamingAutoDLApp.sleep_quarter.
    rewrite andb_false_iff, Z.leb_gt. done. }
  split; [| split; [| split; [| split]]].
  - unfold GeminiStreamingAutoDLApp._read_loop_pass,
      GeminiStreamingAutoDLApp._read_loop_iter.
    destruct Hcases as [(arr & -> & _ & _ & Hev) | [-> Hodd]].
    + assert (Hno : ~ Nat.Odd (List.length data))
        by (intros Hodd; by apply (Nat.Even_Odd_False _ Hev)).
      destruct (LowLatencyCapture.sink c); cbn [snd]; rewrite Hsleep;
        by intuition.
    + cbn. split; [by left | done].
  - intros Hodd.
    unfold GeminiStreamingAutoDLApp._read_loop_pass,
      GeminiStreamingAutoDLApp._read_loop_iter.
    destruct Hcases as [(arr & _ & _ & _ & Hev) | [-> _]]; [| done].
    exfalso. by apply (Nat.Even_Odd_False _ Hev).
  - intros a' Ha'. unfold GeminiStreamingAutoDLApp._read_loop_pass.
    by rewrite Ha'.
  - intros arr Harr.
    destruct Hcases as [(arr' & Harr' & ? & ? & _) | [Hn _]]; [| congruence].
    rewrite Harr in Harr'. injection Harr' as <-. done.
  - done.
Qed.

(** The capture loop with no sink installed, over reads of whole
    samples, when the sleep that ends an iteration returns. *)
Lemma read_loop_without_sink `{V : Vosk} `{P : Platform}
    (c : LowLatencyCapture.t) (reads : list (exn + bytes))
    (a : GeminiStreamingAutoDLApp.t) :
  LowLatencyCapture.sink c = None ->
  GeminiStreamingAutoDLApp.sleep_quarter (LowLatencyCapture.chunk_ms c)
  = true ->
  Forall whole_samples reads ->
  exists a',
    _read_loop_iters reads c a = (a', true)
    /\ message_queue (GeminiStreamingAutoDLApp.q a')
       = message_queue (GeminiStreamingAutoDLApp.q a)
         ++ (amplitude_of <$> reads)
    /\ segment_queue (GeminiStreamingAutoDLApp.q a')
       = segment_queue (GeminiStreamingAutoDLApp.q a)
         ++ List.concat (frame_of <$> reads)
    /\ other_queue (GeminiStreamingAutoDLApp.q a')
       = other_queue (GeminiStreamingAutoDLApp.q a)
    /\ GeminiStreamingAutoDLApp.vosk_streamer a'
       = GeminiStreamingAutoDLApp.vosk_streamer a
    /\ GeminiStreamingAutoDLApp.capture a'
       = GeminiStreamingAutoDLApp.capture a
    /\ GeminiStreamingAutoDLApp.google_worker a'
       = GeminiStreamingAutoDLApp.google_worker a.
Proof.
  intros Hsink Hsleep Hall.
  revert a. induction Hall as [| read reads Hread _ IH]; intros a.
  - exists a. cbn. by rewrite !app_nil_r.
  - cbn [_read_loop_iters].
    assert (Hstep : exists a1,
              GeminiStreamingAutoDLApp._read_loop_pass read c a = (a1, true)
              /\ message_queue (GeminiStreamingAutoDLApp.q a1)
                 = message_queue (GeminiStreamingAutoDLApp.q a)
                   ++ [amplitude_of read]
              /\ segment_queue (GeminiStreamingAutoDLApp.q a1)
                 = segment_queue (GeminiStreamingAutoDLApp.q a)
                   ++ frame_of read
              /\ other_queue (GeminiStreamingAutoDLApp.q a1)
                 = other_queue (GeminiStreamingAutoDLApp.q a)
              /\ GeminiStreamingAutoDLApp.vosk_streamer a1
                 = GeminiStreamingAutoDLApp.vosk_streamer a
              /\ GeminiStreamingAutoDLApp.capture a1
                 = GeminiStreamingAutoDLApp.capture a
              /\ GeminiStreamingAutoDLApp.google_worker a1
                 = GeminiStreamingAutoDLApp.google_worker a).
    { unfold GeminiStreamingAutoDLApp._read_loop_pass,
        GeminiStreamingAutoDLApp._read_loop_iter, amplitude_of, frame_of.
      destruct read as [e | data].
      - eexists. split; [done |]. cbn. by rewrite app_nil_r.
      - cbn in Hread. destruct Hread as [n Hn].
        destruct (frombuffer_int16_length n data) as [He _].
        destruct (He Hn) as (arr & -> & _ & _). rewrite Hsink, Hsleep.
        eexists. split; [done |]. by cbn. }
    destruct Hstep as (a1 & -> & Hm & Hs & Ho & Hv & Hc & Hg).
    destruct (IH a1) as (a' & Hrun & Hm' & Hs' & Ho' & Hv' & Hc' & Hg').
    exists a'. split; [done |].
    rewrite Hm', Hs', Ho', Hv', Hc', Hg', Hm, Hs, Ho, Hv, Hc, Hg.
    cbn [fmap list_fmap List.concat]. by rewrite <- !app_assoc.
Qed.

Lemma sleep_quarter_true `{P : Platform} (chunk_ms : Z) :
  0 <= chunk_ms -> sleep_accepts chunk_ms = true ->
  GeminiStreamingAutoDLApp.sleep_quarter chunk_ms = true.
Proof.
  intros H0 Hs. unfold GeminiStreamingAutoDLApp.sleep_quarter.
  rewrite Hs, andb_true_r. by apply Z.leb_le.
Qed.

(** X13. The capture loop of the program, over any number of reads of
    whole samples, with a frame length that is not negative and whose
    quarter the clock takes as the length of a sleep: the thread goes on,
    it puts one amplitude message per read on [message_queue], in order
    (0.0 for a read that failed), and every frame read, in order, on
    [segment_queue]; it never feeds the streaming recognizer, whose state
    it leaves alone. *)
Theorem read_loop_hands_on_every_frame `{V : Vosk} `{P : Platform}
    (pa_ok : bool) (chunk_ms : Z) (methods : list LowLatencyCapture.method)
    (reads : list (exn + bytes)) (a : GeminiStreamingAutoDLApp.t) :
  Forall whole_samples reads ->
  let c := used_capture pa_ok CONFIG.sample_rate chunk_ms methods in
  0 <= LowLatencyCapture.chunk_ms c ->
  sleep_accepts (LowLatencyCapture.chunk_ms c) = true ->
  exists a',
    _read_loop_iters reads c a = (a', true)
    /\ message_queue (GeminiStreamingAutoDLApp.q a')
       = message_queue (GeminiStreamingAutoDLApp.q a)
         ++ (amplitude_of <$> reads)
    /\ segment_queue (GeminiStreamingAutoDLApp.q a')
       = segment_queue (GeminiStreamingAutoDLApp.q a)
         ++ List.concat (frame_of <$> reads)
    /\ other_queue (GeminiStreamingAutoDLApp.q a')
       = other_queue (GeminiStreamingAutoDLApp.q a)
    /\ GeminiStreamingAutoDLApp.vosk_streamer a'
       = GeminiStreamingAutoDLApp.vosk_streamer a
    /\ GeminiStreamingAutoDLApp.capture a'
       = GeminiStreamingAutoDLApp.capture a.
Proof.
  intros Hall. cbn zeta. intros H0 Hsl.
  pose proof (sink_never_set pa_ok CONFIG.sample_rate chunk_ms methods)
    as Hsink.
  destruct (read_loop_without_sink _ reads a Hsink
              (sleep_quarter_true _ H0 Hsl) Hall)
    as (a' & Hrun & Hm & Hs & Ho & Hv & Hc & _).
  by exists a'.
Qed.

(** Three reads on the application as it starts with the echo recognizer
    running: a frame, a failed read, a frame. *)
Lemma read_loop_hands_on_every_frame_witness :
  let a := @GeminiStreamingAutoDLApp._load_vosk_model echo_decoder
             empty_model_dir CONFIG.model_target_dir
             CONFIG.partial_update_ms
             (@GeminiStreamingAutoDLApp.__init__ echo_decoder true true
                CONFIG.chunk_ms) in
  let reads := [inr [x10; x00]; inl "Input overflowed"; inr [xf0; xff]] in
  let c := used_capture true CONFIG.sample_rate CONFIG.chunk_ms
             [LowLatencyCapture.Start true None] in
  exists a',
    @_read_loop_iters echo_decoder day_clock reads c a = (a', true)
    /\ message_queue (GeminiStreamingAutoDLApp.q a')
       = message_queue (GeminiStreamingAutoDLApp.q a)
         ++ (amplitude_of <$> reads)
    /\ segment_queue (GeminiStreamingAutoDLApp.q a')
       = segment_queue (GeminiStreamingAutoDLApp.q a)
         ++ List.concat (frame_of <$> reads)
    /\ other_queue (GeminiStreamingAutoDLApp.q a')
       = other_queue (GeminiStreamingAutoDLApp.q a)
    /\ GeminiStreamingAutoDLApp.vosk_streamer a'
       = GeminiStreamingAutoDLApp.vosk_streamer a
    /\ GeminiStreamingAutoDLApp.capture a'
       = GeminiStreamingAutoDLApp.capture a.
Proof.
  cbn zeta.
  apply (@read_loop_hands_on_every_frame echo_decoder day_clock true
           CONFIG.chunk_ms [LowLatencyCapture.Start true None]
           [inr [x10; x00]; inl "Input overflowed"; inr [xf0; xff]]).
  - repeat constructor; by exists 1%nat.
  - vm_compute. discriminate.
  - vm_compute. reflexivity.
Defined.

(** ** A worker on a queue of its own, and reloading the model *)

Lemma deliver_all_own_queue `{SR : SpeechRecognition}
    (w : GoogleSegmentWorker.t)
    (puts : list (GoogleSegmentWorker.target * message)) (q : queues) :
  GoogleSegmentWorker.queue w = GoogleSegmentWorker.Another_queue ->
  Forall (fun p => p.1 = GoogleSegmentWorker.Self_queue) puts ->
  message_queue (foldl (GoogleSegmentWorker.deliver w) q puts)
  = message_queue q
  /\ other_queue (foldl (GoogleSegmentWorker.deliver w) q puts)
     = other_queue q ++ puts.*2.
Proof.
  intros Hw Hall. revert q.
  induction Hall as [| [tg m] puts Hp _ IH]; intros q; cbn [foldl].
  - cbn. by rewrite app_nil_r.
  - cbn in Hp. subst tg. destruct (IH (GoogleSegmentWorker.deliver w q
                                          (GoogleSegmentWorker.Self_queue, m)))
      as [-> ->].
    cbn. rewrite Hw. cbn. by rewrite <- app_assoc.
Qed.

(** X14. A worker built on a queue of its own still announces each chunk
    on the module's [message_queue]: for a chunk that makes an
    [AudioData], "Recognizing..." is the one message put there, and the
    worker's own queue gets the rest, with exactly one "Listening..."
    status, which comes last unless recognition raised an exception that
    is neither "no speech" nor a transport failure. A chunk that makes no
    [AudioData] puts nothing on [message_queue] and only the error on the
    worker's queue. The chunk is off [segment_queue] either way. *)
Theorem recognizing_goes_to_the_global_queue `{SR : SpeechRecognition}
    (w : GoogleSegmentWorker.t) (raw : bytes) (rest : list bytes)
    (clk : tick) (q : queues) :
  GoogleSegmentWorker.queue w = GoogleSegmentWorker.Another_queue ->
  segment_queue q = raw :: rest ->
  let q' := GoogleSegmentWorker._loop_iter w clk q in
  segment_queue q' = rest
  /\ exists own,
       other_queue q' = other_queue q ++ own
       /\ match AudioData raw (GoogleSegmentWorker.sample_rate w)
                  (GoogleSegmentWorker.sample_width w) with
          | inl e =>
            message_queue q' = message_queue q
            /\ own = [MsgStatus ("Google worker error: " +:+ e) CONFIG.error]
          | inr a =>
            message_queue q'
            = message_queue q ++ [MsgStatus "Recognizing..." CONFIG.ready]
            /\ List.filter is_listening own
               = [GoogleSegmentWorker.listening_status]
            /\ (last own = Some GoogleSegmentWorker.listening_status
                \/ exists e, recognize_google a = OtherError e)
          end.
Proof.
  intros Hw Hq. cbn zeta. split; [by rewrite fallback_iter_queue, Hq |].
  unfold GoogleSegmentWorker._loop_iter, GoogleSegmentWorker.recognize_chunk.
  rewrite Hq.
  destruct (AudioData raw _ _) as [e | a].
  - eexists. cbn. rewrite Hw. cbn. done.
  - cbn [foldl GoogleSegmentWorker.deliver].
    set (q1 := put_message _ _).
    assert (Hown : forall puts,
               Forall (fun p => p.1 = GoogleSegmentWorker.Self_queue) puts ->
               message_queue (foldl (GoogleSegmentWorker.deliver w) q1 puts)
               = message_queue q ++ [MsgStatus "Recognizing..." CONFIG.ready]
               /\ other_queue (foldl (GoogleSegmentWorker.deliver w) q1 puts)
                  = other_queue q ++ puts.*2).
    { intros puts Hall.
      destruct (deliver_all_own_queue w puts q1 Hw Hall) as [-> ->]. done. }
    assert (Hlast : forall puts,
               Forall (fun p => p.1 = GoogleSegmentWorker.Self_queue) puts ->
               List.filter is_listening puts.*2
               = [GoogleSegmentWorker.listening_status] ->
               (last puts.*2 = Some GoogleSegmentWorker.listening_status
                \/ exists e, recognize_google a = OtherError e) ->
               exists own,
                 other_queue (foldl (GoogleSegmentWorker.deliver w) q1 puts)
                 = other_queue q ++ own
                 /\ message_queue
                      (foldl (GoogleSegmentWorker.deliver w) q1 puts)
                    = message_queue q
                      ++ [MsgStatus "Recognizing..." CONFIG.ready]
                 /\ List.filter is_listening own
                    = [GoogleSegmentWorker.listening_status]
                 /\ (last own = Some GoogleSegmentWorker.listening_status
                     \/ exists e, recognize_google a = OtherError e)).
    { intros puts Hall Hone Hend. destruct (Hown puts Hall) as [-> ->].
      by exists puts.*2. }
    destruct (recognize_google a) as [text | | e | e] eqn:Hrec.
    + destruct (truthy (strip text)); cbn [app]; apply Hlast;
        [by repeat constructor | done | by left
        | by repeat constructor | done | by left].
    + apply Hlast; [by repeat constructor | done | by left].
    + apply Hlast; [by repeat constructor | done | by left].
    + apply Hlast; [by repeat constructor | done | right; by exists e].
Qed.

(** A chunk the scripted service recognizes, taken by a worker on its own
    queue. *)
Lemma recognizing_goes_to_the_global_queue_witness :
  let w := own_queue_worker in
  let raw := [x05; x00] in
  let q := put_segment raw no_queues in
  let q' := @GoogleSegmentWorker._loop_iter scripted_service w
              (at_ms 1000) q in
  segment_queue q' = []
  /\ exists own,
       other_queue q' = other_queue q ++ own
       /\ match @AudioData scripted_service raw
                  (GoogleSegmentWorker.sample_rate w)
                  (GoogleSegmentWorker.sample_width w) with
          | inl e =>
            message_queue q' = message_queue q
            /\ own = [MsgStatus ("Google worker error: " +:+ e) CONFIG.error]
          | inr a =>
            message_queue q'
            = message_queue q ++ [MsgStatus "Recognizing..." CONFIG.ready]
            /\ List.filter is_listening own
               = [GoogleSegmentWorker.listening_status]
            /\ (last own = Some GoogleSegmentWorker.listening_status
                \/ exists e, @recognize_google scripted_service a
                             = OtherError e)
          end.
Proof.
  cbn zeta.
  apply (@recognizing_goes_to_the_global_queue scripted_service
           own_queue_worker [x05; x00] [] (at_ms 1000)
           (put_segment [x05; x00] no_queues)); reflexivity.
Defined.

(** X15. Loading a model from the application: the message queue gets
    "Loading model...", then what [load] reports, then the outcome. On
    success the application holds a fresh recognizer that is loaded and
    running, with an empty feed queue, the interval of the slider and the
    configured sample rate, and the path was a directory. On failure, the
    recognizer the application had (if any) stays in place, with at least
    one error status reported before "VOSK load failed"; a path that is
    not a directory always fails. The capture object, the fallback worker
    and the segment queue are not touched. *)
Theorem failed_load_keeps_recognizer `{V : Vosk}
    (f : gmap FS.path FS.node) (path : FS.path) (partial_ms : Z)
    (a : GeminiStreamingAutoDLApp.t) :
  let a' := GeminiStreamingAutoDLApp._load_vosk_model f path partial_ms a in
  GeminiStreamingAutoDLApp.capture a' = GeminiStreamingAutoDLApp.capture a
  /\ GeminiStreamingAutoDLApp.google_worker a'
     = GeminiStreamingAutoDLApp.google_worker a
  /\ segment_queue (GeminiStreamingAutoDLApp.q a')
     = segment_queue (GeminiStreamingAutoDLApp.q a)
  /\ other_queue (GeminiStreamingAutoDLApp.q a')
     = other_queue (GeminiStreamingAutoDLApp.q a)
  /\ (FS.isdir f path = false ->
      GeminiStreamingAutoDLApp.vosk_streamer a'
      = GeminiStreamingAutoDLApp.vosk_streamer a)
  /\ exists mid last,
       message_queue (GeminiStreamingAutoDLApp.q a')
       = message_queue (GeminiStreamingAutoDLApp.q a)
         ++ MsgStatus "Loading model..." CONFIG.ready :: mid ++ [last]
       /\ ((last = MsgStatus "VOSK loaded & streaming" CONFIG.ready
            /\ existsb is_error_status mid = false
            /\ FS.isdir f path = true
            /\ exists vs,
                GeminiStreamingAutoDLApp.vosk_streamer a' = Some vs
                /\ VoskStreamer.running vs = true
                /\ VoskStreamer.rec vs <> None
                /\ VoskStreamer.queue vs = []
                /\ VoskStreamer.model_path vs = path
                /\ VoskStreamer.partial_interval_ms vs = partial_ms
                /\ VoskStreamer.sample_rate vs = CONFIG.sample_rate
                /\ VoskStreamer._last_partial_time vs = 0)
           \/ (last = MsgStatus "VOSK load failed" CONFIG.error
               /\ existsb is_error_status mid = true
               /\ GeminiStreamingAutoDLApp.vosk_streamer a'
                  = GeminiStreamingAutoDLApp.vosk_streamer a)).
Proof.
  cbn zeta.
  unfold GeminiStreamingAutoDLApp._load_vosk_model, VoskStreamer.load.
  cbn [VoskStreamer.__init__ VoskStreamer.model_path
         VoskStreamer.sample_rate].
  destruct vosk_import as [e |].
  { cbn. repeat split; try done.
    eexists [_], _. split; [by rewrite <- !app_assoc |]. right. done. }
  destruct (FS.isdir f path) eqn:Hdir; cbn [negb].
  2:{ cbn. repeat split; try done.
      eexists [_], _. split; [by rewrite <- !app_assoc |]. right. done. }
  destruct (Model f path) as [e | m].
  { cbn. repeat split; try done.
    eexists [_; _], _. split; [by rewrite <- !app_assoc |]. right. done. }
  cbn [VoskStreamer.set_model VoskStreamer.sample_rate].
  destruct (KaldiRecognizer m CONFIG.sample_rate) as [e | r].
  { cbn. repeat split; try done.
    eexists [_; _], _. split; [by rewrite <- !app_assoc |]. right. done. }
  cbn. repeat split; try done.
  eexists [_; _], _. split; [by rewrite <- !app_assoc |]. left.
  repeat split; try done. eexists. repeat split; done.
Qed.

(** ** The window *)

Lemma string_app_assoc (a b c : string) : (a +:+ b) +:+ c = a +:+ (b +:+ c).
Proof.
  induction a as [| x a IH]; [done |].
  change (String x ((a +:+ b) +:+ c) = String x (a +:+ (b +:+ c))).
  by f_equal.
Qed.

Lemma string_app_nil_r (a : string) : a +:+ "" = a.
Proof.
  induction a as [| x a IH]; [done |].
  change (String x (a +:+ "") = String x a). by f_equal.
Qed.

Lemma text_write_app `{P : Platform} (a b : string) :
  text_write (a +:+ b) = text_write a ++ text_write b.
Proof.
  unfold text_write. induction a as [| x a IH]; [done |].
  change (list_ascii_of_string (String x a +:+ b))
    with (x :: list_ascii_of_string (a +:+ b)).
  change (list_ascii_of_string (String x a))
    with (x :: list_ascii_of_string a).
  cbn [flat_map]. by rewrite IH, <- app_assoc.
Qed.

Lemma shown_app (l1 l2 : list (string * string)) :
  Window.shown (l1 ++ l2) = Window.shown l1 +:+ Window.shown l2.
Proof.
  unfold Window.shown. induction l1 as [| e l1 IH]; [done |].
  cbn [app foldr]. by rewrite IH, !string_app_assoc.
Qed.

Lemma finals_of_app (l1 l2 : list message) :
  finals_of (l1 ++ l2) = finals_of l1 ++ finals_of l2.
Proof. apply omap_app. Qed.

Lemma handle_all (msgs : list message) (w : Window.t) :
  let w' := foldl Window.handle w msgs in
  Window.transcript_log w' = Window.transcript_log w ++ finals_of msgs
  /\ Window.text_box w'
     = Window.text_box w +:+ Window.shown (finals_of msgs)
  /\ Window.clipboard w' = Window.clipboard w.
Proof.
  cbn zeta. revert w. induction msgs as [| m msgs IH]; intros w.
  - cbn. by rewrite app_nil_r, string_app_nil_r.
  - cbn [foldl]. destruct (IH (Window.handle w m)) as (-> & -> & ->).
    destruct m as [v | txt c | txt ts | p]; cbn; try done.
    split; [by rewrite <- app_assoc | split; [| done]].
    unfold Window.shown, finals_of. by rewrite !string_app_assoc.
Qed.

Lemma handle_all_partial_kept (msgs : list message) (w : Window.t) :
  Forall (fun m => is_partial m = false /\ is_transcription m = false) msgs ->
  Window.partial_display (foldl Window.handle w msgs)
  = Window.partial_display w.
Proof.
  intros Hall. revert w.
  induction Hall as [| m msgs [Hp Ht] _ IH]; intros w; [done |].
  cbn [foldl]. rewrite IH. by destruct m.
Qed.

Lemma handle_all_cleared (msgs : list message) (w : Window.t) :
  Window.partial_display w = "" ->
  existsb is_partial msgs = false ->
  Window.partial_display (foldl Window.handle w msgs) = "".
Proof.
  revert w. induction msgs as [| m msgs IH]; intros w Hw Hno; [done |].
  cbn [foldl]. cbn in Hno. apply orb_false_iff in Hno as [Hm Hno].
  apply IH; [| done]. by destruct m.
Qed.

(** X16. One poll of the message queue empties it and handles every
    message that was on it, oldest first: the transcript log grows by the
    transcriptions, in order, and the text box by their lines; the
    clipboard and the other queues are left alone; a transcription clears
    the partial line unless a partial follows it in the same poll, and
    the last partial of the poll is shown when no transcription follows
    it. *)
Theorem poll_appends_finals (q : queues) (w : Window.t) :
  let q' := (Window._process_queue q w).1 in
  let w' := (Window._process_queue q w).2 in
  let msgs := message_queue q in
  message_queue q' = []
  /\ segment_queue q' = segment_queue q
  /\ other_queue q' = other_queue q
  /\ Window.transcript_log w' = Window.transcript_log w ++ finals_of msgs
  /\ Window.text_box w'
     = Window.text_box w +:+ Window.shown (finals_of msgs)
  /\ Window.clipboard w' = Window.clipboard w
  /\ (forall pre txt ts post,
         msgs = pre ++ MsgTranscription txt ts :: post ->
         existsb is_partial post = false ->
         Window.partial_display w' = "")
  /\ (forall pre p post,
         msgs = pre ++ MsgPartial p :: post ->
         Forall (fun m => is_partial m = false
                          /\ is_transcription m = false) post ->
         Window.partial_display w' = "▸ " +:+ p)
  /\ (Forall (fun m => is_partial m = false
                       /\ is_transcription m = false) msgs ->
      Window.partial_display w' = Window.partial_display w).
Proof.
  cbn zeta. unfold Window._process_queue. cbn [fst snd].
  destruct (handle_all (message_queue q) w) as (Hlog & Hbox & Hclip).
  repeat split; try done.
  - intros pre txt ts post -> Hno. rewrite foldl_app. cbn [foldl].
    by apply handle_all_cleared.
  - intros pre p post -> Hall. rewrite foldl_app. cbn [foldl].
    by rewrite handle_all_partial_kept.
  - apply handle_all_partial_kept.
Qed.

Lemma export_keeps_window `{P : Platform} (now : string) (f : gmap FS.path FS.node)
    (w : Window.t) :
  let w' := (Window.export_transcript now f w).2 in
  Window.text_box w' = Window.text_box w
  /\ Window.transcript_log w' = Window.transcript_log w
  /\ Window.partial_display w' = Window.partial_display w
  /\ Window.clipboard w' = Window.clipboard w.
Proof.
  cbn zeta. unfold Window.export_transcript.
  destruct (Window.transcript_log w) as [| e log] eqn:Hlog; [by cbn |].
  destruct (FS.open_wb f _) as [err | f1]; by cbn.
Qed.

Lemma step_shows_log `{P : Platform} (s : gmap FS.path FS.node * Window.t)
    (ev : Window.event) :
  Window.text_box s.2 = Window.shown (Window.transcript_log s.2) ->
  Window.text_box (Window.step s ev).2
  = Window.shown (Window.transcript_log (Window.step s ev).2).
Proof.
  intros Hs. destruct ev as [msgs | | calls | now]; cbn [Window.step snd].
  - destruct (handle_all msgs s.2) as (-> & -> & _).
    by rewrite shown_app, Hs.
  - done.
  - by destruct calls.
  - destruct (export_keeps_window now s.1 s.2) as (-> & -> & _). done.
Qed.

Lemma run_shows_log `{P : Platform} (evs : list Window.event)
    (s : gmap FS.path FS.node * Window.t) :
  Window.text_box s.2 = Window.shown (Window.transcript_log s.2) ->
  Window.text_box (Window.run evs s).2
  = Window.shown (Window.transcript_log (Window.run evs s).2).
Proof.
  revert s. induction evs as [| ev evs IH]; intros s Hs; [done |].
  cbn. apply IH. by apply step_shows_log.
Qed.

Lemma write_all `{P : Platform} (p : FS.path) (log : list (string * string))
    (f : gmap FS.path FS.node) (c : bytes) :
  f !! p = Some (FS.File c) ->
  let f' := foldl (fun f' e =>
                     FS.write f' p
                       (text_write
                          (Window.line e +:+ Window.newline))) f log in
  f' !! p = Some (FS.File (c ++ text_write (Window.shown log)))
  /\ forall k, k <> p -> f' !! k = f !! k.
Proof.
  cbn zeta. revert f c. induction log as [| e log IH]; intros f c Hf.
  - cbn. by rewrite app_nil_r.
  - cbn [foldl Window.shown foldr].
    set (chunk := text_write (Window.line e +:+ Window.newline)).
    assert (Hw : FS.write f p chunk = <[p := FS.File (c ++ chunk)]> f).
    { unfold FS.write. by rewrite Hf. }
    rewrite Hw.
    destruct (IH (<[p := FS.File (c ++ chunk)]> f) (c ++ chunk)) as [Hp Hk];
      [by rewrite lookup_insert_eq |].
    split.
    + rewrite Hp. f_equal. f_equal.
      fold (Window.shown log).
      by rewrite text_write_app, <- app_assoc.
    + intros k Hne. rewrite Hk by done. by rewrite lookup_insert_ne.
Qed.

(** X17. Whatever polls and button presses the window has seen since it
    was built, the text box shows exactly the lines of the transcript
    log, one per entry, each ended by a newline. *)
Theorem box_shows_the_log `{P : Platform} (evs : list Window.event)
    (f : gmap FS.path FS.node) (clip : string) :
  let w := (Window.run evs (f, Window._build_ui clip)).2 in
  Window.text_box w = Window.shown (Window.transcript_log w).
Proof. cbn zeta. by apply run_shows_log. Qed.

(** X18. Export, in any state the window can reach: with an empty log it
    writes nothing and reports "No transcript to export"; when the file
    cannot be opened it writes nothing and reports the error; otherwise
    the file [transcript_<now>.txt] holds exactly what the text box
    shows, encoded as UTF-8 with the line separator of the platform for
    every newline, every other path of the disk is as before, and the
    status names the file. The box, the log, the partial line and the clipboard
    are not changed. *)
Theorem export_writes_what_is_shown `{P : Platform} (evs : list Window.event)
    (f0 : gmap FS.path FS.node) (clip now : string) :
  let s := Window.run evs (f0, Window._build_ui clip) in
  let s' := Window.export_transcript now s.1 s.2 in
  let fname := "transcript_" +:+ now +:+ ".txt" in
  match Window.transcript_log s.2 with
  | [] =>
    s'.1 = s.1
    /\ Window.status_label s'.2 = ("No transcript to export", CONFIG.error)
  | _ =>
    match FS.open_wb s.1 [fname] with
    | inl e =>
      s'.1 = s.1
      /\ Window.status_label s'.2 = ("Export failed: " +:+ e, CONFIG.error)
    | inr _ =>
      s'.1 !! [fname]
      = Some (FS.File (text_write (Window.text_box s.2)))
      /\ (forall k, k <> [fname] -> s'.1 !! k = s.1 !! k)
      /\ Window.status_label s'.2 = ("Exported " +:+ fname, CONFIG.ready)
    end
  end
  /\ Window.text_box s'.2 = Window.text_box s.2
  /\ Window.transcript_log s'.2 = Window.transcript_log s.2
  /\ Window.partial_display s'.2 = Window.partial_display s.2
  /\ Window.clipboard s'.2 = Window.clipboard s.2.
Proof.
  cbn zeta.
  pose proof (run_shows_log evs (f0, Window._build_ui clip) eq_refl) as Hs.
  set (s := Window.run evs (f0, Window._build_ui clip)) in *.
  split; [| apply export_keeps_window].
  unfold Window.export_transcript. rewrite Hs.
  destruct (Window.transcript_log s.2) as [| e log]; [done |].
  set (fname := "transcript_" +:+ now +:+ ".txt").
  destruct (FS.open_wb s.1 [fname]) as [err | f1] eqn:Hopen; [done |].
  cbn [fst snd].
  assert (Hf1 : f1 = <[[fname] := FS.File []]> s.1).
  { unfold FS.open_wb in Hopen.
    destruct (s.1 !! [fname]) as [[c |] |]; try done;
      destruct (FS.parent_ok s.1 [fname]); by simplify_eq. }
  destruct (write_all [fname] (e :: log) f1 []) as [Hp Hk];
    [by rewrite Hf1, lookup_insert_eq |].
  split; [exact Hp |]. split; [| done].
  intros k Hne. rewrite Hk by done. by rewrite Hf1, lookup_insert_ne.
Qed.

Lemma concat_lines (e : string * string) (log : list (string * string)) :
  Window.shown (e :: log)
  = String.concat Window.newline (Window.line <$> (e :: log))
    +:+ Window.newline.
Proof.
  revert e. induction log as [| e' log IH]; intros e.
  - cbn. by rewrite string_app_nil_r.
  - change (Window.shown (e :: e' :: log))
      with ((Window.line e +:+ Window.newline) +:+ Window.shown (e' :: log)).
    rewrite IH.
    change (String.concat Window.newline (Window.line <$> e :: e' :: log))
      with (Window.line e +:+ Window.newline
            +:+ String.concat Window.newline (Window.line <$> e' :: log)).
    by rewrite !string_app_assoc.
Qed.

(** X19. Copy, in any state the window can reach, when the clipboard
    calls return: the clipboard holds what the text box shows without its
    last newline (nothing for an empty transcript). When a clipboard
    call raises, the status is "Copy failed"; the transcript is never
    changed. *)
Theorem copy_is_the_box_less_a_newline `{P : Platform} (evs : list Window.event)
    (f0 : gmap FS.path FS.node) (clip : string)
    (calls : Window.clipboard_calls) :
  let w := (Window.run evs (f0, Window._build_ui clip)).2 in
  let w' := Window.copy_transcript calls w in
  match calls with
  | Window.Both_return =>
    Window.status_label w' = ("Copied to clipboard", CONFIG.ready)
    /\ match Window.transcript_log w with
       | [] => Window.clipboard w' = "" /\ Window.text_box w = ""
       | _ => Window.text_box w = Window.clipboard w' +:+ Window.newline
       end
  | _ => Window.status_label w' = ("Copy failed", CONFIG.error)
  end
  /\ Window.text_box w' = Window.text_box w
  /\ Window.transcript_log w' = Window.transcript_log w.
Proof.
  cbn zeta.
  pose proof (run_shows_log evs (f0, Window._build_ui clip) eq_refl) as Hs.
  set (s := Window.run evs (f0, Window._build_ui clip)) in *.
  split; [| by destruct calls].
  destruct calls; try done. split; [done |].
  cbn [Window.copy_transcript Window._set_status Window.set_clipboard
         Window.clipboard].
  rewrite Hs. destruct (Window.transcript_log s.2) as [| e log]; [done |].
  apply concat_lines.
Qed.

(** ** Startup *)

Lemma candidate_urls_accepted :
  Forall (fun url => Request url = None) CANDIDATE_URLS.
Proof. repeat constructor. Qed.

Lemma auto_download_requests `{E : Env} (target_dir : FS.path)
    (urls : list string) (w : world) :
  Forall (fun url => Request url = None) urls ->
  exists tried,
    requests (auto_download_model target_dir urls w).2 = requests w ++ tried
    /\ tried `prefix_of` urls
    /\ (tried <> [] -> FS.isdir (fs w) target_dir = false).
Proof.
  intros Hacc. unfold auto_download_model.
  destruct (FS.isdir (fs w) target_dir) eqn:Hdir.
  { exists []. cbn. rewrite app_nil_r. repeat split; try done.
    apply prefix_nil. }
  destruct (FS.makedirs (fs w) (FS.dirname target_dir)) as [e | f1].
  { exists []. cbn. rewrite app_nil_r. repeat split; try done.
    apply prefix_nil. }
  match goal with |- context [try_urls ?t ?z ?u ?w0] =>
    destruct (try_urls_requests t z u w0) as (tried & Hreq & Hpre & _);
    destruct (try_urls t z u w0) as [r w2] end.
  exists tried. cbn in *.
  by rewrite Hreq, (requested_prefix tried urls Hacc Hpre).
Qed.

Lemma makedirs_keeps_isdir (f f1 : gmap FS.path FS.node) (p q : FS.path) :
  FS.makedirs f p = inr f1 -> FS.isdir f q = true -> FS.isdir f1 q = true.
Proof.
  intros Hmk. apply isdir_keeps. intros k v Hk.
  unfold FS.makedirs in Hmk. destruct p; [done |].
  by eapply mkdirs_from_keeps.
Qed.

Lemma save_settings_requests (dumped : bytes) (w : world) :
  requests (save_settings dumped w) = requests w.
Proof. unfold save_settings. by destruct (FS.open_wb _ _). Qed.

Lemma put_messages_app (msgs : list message) (q : queues) :
  message_queue (put_messages msgs q) = message_queue q ++ msgs.
Proof.
  revert q. induction msgs as [| m msgs IH]; intros q; cbn.
  - by rewrite app_nil_r.
  - unfold put_messages in IH. rewrite IH. cbn. by rewrite <- app_assoc.
Qed.

Ltac nothing_added :=
  cbn; split; [done |]; split; [done |];
  exists []; rewrite app_nil_r; split; [done | left].

Ltac five := split; [| split; [| split; [| split]]].

Section startup.
Context `{E : Env} `{V : Vosk}.

Lemma start_workers_result (sr : surroundings) (st : settings)
    (a : GeminiStreamingAutoDLApp.t) :
  let a' := start_workers sr st a in
  GoogleSegmentWorker.running (GeminiStreamingAutoDLApp.google_worker a')
  = true
  /\ GeminiStreamingAutoDLApp.vosk_streamer a'
     = GeminiStreamingAutoDLApp.vosk_streamer a
  /\ exists added,
       message_queue (GeminiStreamingAutoDLApp.q a')
       = message_queue (GeminiStreamingAutoDLApp.q a) ++ added
       /\ (added = []
           \/ exists e, open_error sr = Some e
                        /\ added = [MsgStatus ("Mic start failed: " +:+ e)
                                      CONFIG.error]).
Proof.
  cbn zeta. unfold start_workers.
  assert (Hrun : GoogleSegmentWorker.running
                   (GoogleSegmentWorker.start
                      (GeminiStreamingAutoDLApp.google_worker a)).1 = true).
  { unfold GoogleSegmentWorker.start.
    destruct (GoogleSegmentWorker.running
                (GeminiStreamingAutoDLApp.google_worker a)) eqn:Hr;
      [exact Hr | done]. }
  cbn [set_google_worker GeminiStreamingAutoDLApp.capture].
  destruct (GeminiStreamingAutoDLApp.capture a) as [c |];
    [| by nothing_added].
  destruct (pyaudio_available sr); [| by nothing_added].
  match goal with |- context [LowLatencyCapture.start true ?oe ?cap] =>
    generalize cap; intros c2 end.
  unfold LowLatencyCapture.start. cbn [negb orb].
  destruct (LowLatencyCapture.pa c2); cbn [negb]; [| by nothing_added].
  destruct (LowLatencyCapture.running c2); [by nothing_added |].
  destruct (open_error sr) as [e |] eqn:Hoe; [| by nothing_added].
  cbn. split; [done |]. split; [done |].
  eexists. split; [done |]. right. by exists e.
Qed.

Lemma load_vosk_model_streamer (f : gmap FS.path FS.node) (path : FS.path)
    (partial_ms : Z) (a : GeminiStreamingAutoDLApp.t) :
  let a' := GeminiStreamingAutoDLApp._load_vosk_model f path partial_ms a in
  GeminiStreamingAutoDLApp.google_worker a'
  = GeminiStreamingAutoDLApp.google_worker a
  /\ (GeminiStreamingAutoDLApp.vosk_streamer a'
      = GeminiStreamingAutoDLApp.vosk_streamer a
      \/ exists vs,
          GeminiStreamingAutoDLApp.vosk_streamer a' = Some vs
          /\ VoskStreamer.running vs = true
          /\ VoskStreamer.rec vs <> None
          /\ VoskStreamer.model_path vs = path
          /\ FS.isdir f path = true).
Proof.
  cbn zeta.
  unfold GeminiStreamingAutoDLApp._load_vosk_model, VoskStreamer.load.
  cbn [VoskStreamer.__init__ VoskStreamer.model_path
         VoskStreamer.sample_rate].
  destruct vosk_import as [e |]; [cbn; split; [done | by left] |].
  destruct (FS.isdir f path) eqn:Hdir; cbn [negb];
    [| cbn; split; [done | by left] ].
  destruct (Model f path) as [e | m]; [cbn; split; [done | by left] |].
  cbn [VoskStreamer.set_model VoskStreamer.sample_rate].
  destruct (KaldiRecognizer m CONFIG.sample_rate) as [e | r];
    [cbn; split; [done | by left] |].
  cbn. split; [done |]. right. eexists. repeat split; done.
Qed.

End startup.

(** X20. The startup thread sends requests only when it has to: what it
    sends is a run of the candidate mirrors from the first on, and it
    sends any only if [vosk] can be imported and neither the configured
    model path nor the default one is a directory. The fallback worker
    runs afterwards in every case. Without [vosk] the disk, the settings
    and the recognizer are as before and the last message says so. The
    settings change only by pointing to the default directory; a
    recognizer installed by the thread runs, is loaded, and was read from
    the configured or the default path, which is a directory of the disk
    as the thread leaves it. *)
Theorem startup_fetches_only_when_needed `{E : Env} `{V : Vosk}
    (sr : surroundings) (m : machine) :
  let r := _auto_model_and_start sr m in
  let w := the_disk m in
  let configured :=
    default CONFIG.model_target_dir (vosk_model_path (the_settings m)) in
  (exists tried,
      requests (the_disk r.2) = requests w ++ tried
      /\ tried `prefix_of` CANDIDATE_URLS
      /\ (tried <> [] ->
          vosk_ok sr = true
          /\ FS.isdir (fs w) configured = false
          /\ FS.isdir (fs w) CONFIG.model_target_dir = false))
  /\ GoogleSegmentWorker.running
       (GeminiStreamingAutoDLApp.google_worker (the_app r.2)) = true
  /\ (vosk_ok sr = false ->
      r.1 = None
      /\ the_disk r.2 = w
      /\ the_settings r.2 = the_settings m
      /\ GeminiStreamingAutoDLApp.vosk_streamer (the_app r.2)
         = GeminiStreamingAutoDLApp.vosk_streamer (the_app m)
      /\ last (message_queue (GeminiStreamingAutoDLApp.q (the_app r.2)))
         = Some (MsgStatus "VOSK not available — running fallback"
                   CONFIG.error))
  /\ (the_settings r.2 = the_settings m
      \/ the_settings r.2
         = {| cfg_chunk_ms := cfg_chunk_ms (the_settings m);
              vosk_model_path := Some CONFIG.model_target_dir |})
  /\ (GeminiStreamingAutoDLApp.vosk_streamer (the_app r.2)
      = GeminiStreamingAutoDLApp.vosk_streamer (the_app m)
      \/ exists vs,
          GeminiStreamingAutoDLApp.vosk_streamer (the_app r.2) = Some vs
          /\ VoskStreamer.running vs = true
          /\ VoskStreamer.rec vs <> None
          /\ (VoskStreamer.model_path vs = configured
              \/ VoskStreamer.model_path vs = CONFIG.model_target_dir)
          /\ FS.isdir (fs (the_disk r.2)) (VoskStreamer.model_path vs)
             = true).
Proof.
  cbn zeta. unfold _auto_model_and_start.
  destruct (start_workers_result sr (the_settings m) (the_app m))
    as (Hgw & Hvs & _).
  set (a := start_workers sr (the_settings m) (the_app m)) in *.
  set (w := the_disk m). set (st := the_settings m).
  set (configured := default CONFIG.model_target_dir (vosk_model_path st)).
  assert (Hnone : exists tried : list string,
             requests w = requests w ++ tried
             /\ tried `prefix_of` CANDIDATE_URLS
             /\ (tried <> [] ->
                 vosk_ok sr = true
                 /\ FS.isdir (fs w) configured = false
                 /\ FS.isdir (fs w) CONFIG.model_target_dir = false)).
  { exists []. rewrite app_nil_r. repeat split; [apply prefix_nil | done..]. }
  destruct (vosk_ok sr) eqn:Hok; cbn [negb].
  2:{ cbn [fst snd the_app the_disk the_settings]. five.
      - exact Hnone.
      - exact Hgw.
      - intros _. repeat split; try done. cbn. by rewrite last_snoc.
      - by left.
      - by left. }
  destruct (FS.isdir (fs w) configured) eqn:Hconf.
  { cbn [fst snd the_app the_disk the_settings].
    destruct (load_vosk_model_streamer (fs w) configured (partial_var sr) a)
      as [Hg [Hsame | (vs & Hvs' & Hr & Hrec & Hp & Hd)]]; five;
      try exact Hnone; try (by rewrite Hg); try done; try (by left).
    - left. by rewrite Hsame.
    - right. exists vs. repeat split; try done; [by left | by rewrite Hp]. }
  destruct (FS.makedirs (fs w) (FS.dirname CONFIG.model_target_dir))
    as [e | f1] eqn:Hmk.
  { cbn [fst snd the_app the_disk the_settings]. five;
      try exact Hnone; try done; by left. }
  clear Hnone. set (w1 := set_fs _ f1 w).
  destruct (auto_download_requests CONFIG.model_target_dir CANDIDATE_URLS w1
              candidate_urls_accepted)
    as (tried & Hreq & Hpre & Hne).
  assert (Htried : tried <> [] ->
            true = true /\ false = false
            /\ FS.isdir (fs w) CONFIG.model_target_dir = false).
  { intros Ht. repeat split.
    destruct (FS.isdir (fs w) CONFIG.model_target_dir) eqn:Hd; [| done].
    apply (makedirs_keeps_isdir _ _ _ _ Hmk) in Hd.
    specialize (Hne Ht). cbn in Hne. congruence. }
  destruct (auto_download_model CONFIG.model_target_dir CANDIDATE_URLS w1)
    as [[e | [|]] w2]; cbn [fst snd the_app the_disk the_settings] in *.
  - five; try done; try (by left). by exists tried.
  - match goal with |- context [GeminiStreamingAutoDLApp._load_vosk_model
                                  ?f ?p ?pm ?a1] =>
      destruct (load_vosk_model_streamer f p pm a1)
        as [Hg [Hsame | (vs & Hvs' & Hr & Hrec & Hp & Hd)]] end; five;
      try (exists tried; by rewrite save_settings_requests);
      try (by rewrite Hg); try done; try (by right).
    + left. by rewrite Hsame.
    + right. exists vs. repeat split; try done; [by right | by rewrite Hp].
  - five; try done; try (by left). by exists tried.
Qed.

(** X21. [os.makedirs] of the startup thread is not guarded: with [vosk]
    importable, no model directory, and a regular file where the
    directory [models] should be, the thread ends with the exception. No
    request is sent, disk and settings are as before, no recognizer is
    installed, and no status message reports it: the only message the
    thread may have put is the one of a microphone that failed to
    start. *)
Theorem unguarded_makedirs_ends_startup `{E : Env} `{V : Vosk}
    (sr : surroundings) (m : machine) (content : bytes) :
  vosk_ok sr = true ->
  FS.isdir (fs (the_disk m))
    (default CONFIG.model_target_dir (vosk_model_path (the_settings m)))
  = false ->
  fs (the_disk m) !! ["models"] = Some (FS.File content) ->
  let r := _auto_model_and_start sr m in
  r.1 = Some "FileExistsError"
  /\ the_disk r.2 = the_disk m
  /\ the_settings r.2 = the_settings m
  /\ GeminiStreamingAutoDLApp.vosk_streamer (the_app r.2)
     = GeminiStreamingAutoDLApp.vosk_streamer (the_app m)
  /\ exists added,
       message_queue (GeminiStreamingAutoDLApp.q (the_app r.2))
       = message_queue (GeminiStreamingAutoDLApp.q (the_app m)) ++ added
       /\ (added = []
           \/ exists e, open_error sr = Some e
                        /\ added = [MsgStatus ("Mic start failed: " +:+ e)
                                      CONFIG.error]).
Proof.
  intros Hok Hconf Hfile. cbn zeta. unfold _auto_model_and_start.
  rewrite Hok, Hconf. cbn [negb].
  assert (Hmk : FS.makedirs (fs (the_disk m))
                  (FS.dirname CONFIG.model_target_dir)
                = inl "FileExistsError").
  { change (FS.dirname CONFIG.model_target_dir) with ["models"].
    cbn [FS.makedirs FS.mkdirs_from app]. unfold FS.mkdir_exist_ok.
    by rewrite Hfile. }
  rewrite Hmk. cbn [fst snd the_app the_disk the_settings].
  destruct (start_workers_result sr (the_settings m) (the_app m))
    as (_ & Hvs & Hadded).
  done.
Qed.

Lemma unguarded_makedirs_ends_startup_witness :
  let r := @_auto_model_and_start offline echo_decoder all_available
             models_is_a_file in
  r.1 = Some "FileExistsError"
  /\ the_disk r.2 = the_disk models_is_a_file
  /\ the_settings r.2 = the_settings models_is_a_file
  /\ GeminiStreamingAutoDLApp.vosk_streamer (the_app r.2)
     = GeminiStreamingAutoDLApp.vosk_streamer (the_app models_is_a_file)
  /\ exists added,
       message_queue (GeminiStreamingAutoDLApp.q (the_app r.2))
       = message_queue
           (GeminiStreamingAutoDLApp.q (the_app models_is_a_file)) ++ added
       /\ (added = []
           \/ exists e, open_error all_available = Some e
                        /\ added = [MsgStatus ("Mic start failed: " +:+ e)
                                      CONFIG.error]).
Proof.
  cbn zeta.
  apply (@unguarded_makedirs_ends_startup offline echo_decoder all_available
           models_is_a_file []); reflexivity.
Defined.

(** ** The device menu *)

Lemma list_ascii_of_string_app (a b : string) :
  list_ascii_of_string (a +:+ b)
  = list_ascii_of_string a ++ list_ascii_of_string b.
Proof.
  induction a as [| x a IH]; [done |].
  change (x :: list_ascii_of_string (a +:+ b)
          = x :: list_ascii_of_string a ++ list_ascii_of_string b).
  by f_equal.
Qed.

Lemma pretty_N_char_digit (d : N) :
  (d < 10)%N -> digit_value (pretty_N_char d) = Some (Z.of_N d).
Proof.
  intros Hd.
  assert (d = 0 \/ d = 1 \/ d = 2 \/ d = 3 \/ d = 4 \/ d = 5 \/ d = 6
          \/ d = 7 \/ d = 8 \/ d = 9)%N as Hcases by lia.
  repeat (destruct Hcases as [-> | Hcases]; [reflexivity |]).
  subst d. reflexivity.
Qed.

(** The characters [pretty_N_go] puts before [s]: decimal digits that
    read back as [x]. *)
Lemma pretty_N_go_digits (x : N) (s : string) :
  exists ds,
    list_ascii_of_string (pretty_N_go x s) = ds ++ list_ascii_of_string s
    /\ Forall (fun a => is_Some (digit_value a)) ds
    /\ ((0 < x)%N -> ds <> [])
    /\ forall acc b rest,
         int_digits acc b (ds ++ rest)
         = int_digits (acc * 10 ^ Z.of_nat (List.length ds) + Z.of_N x)
             (b || negb (bool_decide (ds = []))) rest.
Proof.
  revert s. induction (N.lt_wf_0 x) as [x _ IH]; intros s.
  destruct (decide (x = 0)%N) as [-> | Hx].
  { exists []. rewrite pretty_N_go_0. repeat split; try done.
    intros acc b rest. cbn. rewrite orb_false_r. f_equal. lia. }
  rewrite pretty_N_go_step by lia.
  destruct (IH (x `div` 10)%N) with
    (s := String (pretty_N_char (x `mod` 10)) s)
    as (ds & Hds & Hall & _ & Hval).
  { apply N.div_lt; lia. }
  assert (Hd : digit_value (pretty_N_char (x `mod` 10))
               = Some (Z.of_N (x `mod` 10))).
  { apply pretty_N_char_digit. apply N.mod_lt. lia. }
  exists (ds ++ [pretty_N_char (x `mod` 10)]). repeat split.
  - rewrite Hds. cbn. by rewrite <- app_assoc.
  - apply Forall_app. split; [done |]. by repeat constructor.
  - intros _. by destruct ds.
  - intros acc b rest. rewrite <- app_assoc. cbn [app].
    rewrite Hval. cbn [int_digits]. rewrite Hd.
    replace (b || negb (bool_decide (ds ++ [pretty_N_char (x `mod` 10)] = [])))
      with true.
    2:{ rewrite bool_decide_eq_false_2 by (by destruct ds).
        by rewrite orb_true_r. }
    f_equal. rewrite length_app. cbn [List.length].
    rewrite Nat2Z.inj_add, Z.pow_add_r by lia.
    pose proof (N.div_mod x 10 ltac:(lia)) as Hdm.
    apply (f_equal Z.of_N) in Hdm.
    rewrite N2Z.inj_add, N2Z.inj_mul in Hdm.
    change (Z.of_N 10) with 10 in Hdm. change (10 ^ Z.of_nat 1) with 10.
    lia.
Qed.

Lemma digits_before_colon (ds : list ascii) (rest : list ascii) :
  Forall (fun a => is_Some (digit_value a)) ds ->
  before_colon (ds ++ ":"%char :: rest) = ds.
Proof.
  induction 1 as [| a ds [d Ha] _ IH]; [done |].
  cbn [app before_colon].
  destruct (Ascii.eqb a ":") eqn:Heq; [| by rewrite IH].
  apply Ascii.eqb_eq in Heq. by subst a.
Qed.

Lemma digit_not_space (a : ascii) :
  is_Some (digit_value a) -> py_isspace a = false.
Proof.
  intros [d Ha]. unfold digit_value in Ha. unfold py_isspace.
  cbn zeta in *.
  destruct ((48 <=? N_of_ascii a)%N && (N_of_ascii a <=? 57)%N) eqn:Hr;
    [| done].
  apply andb_true_iff in Hr as [H1%N.leb_le H2%N.leb_le].
  destruct (N.leb_spec (N_of_ascii a) 13); [lia |].
  destruct (N.leb_spec (N_of_ascii a) 32); [lia |].
  destruct (N.eqb_spec (N_of_ascii a) 133); [lia |].
  destruct (N.eqb_spec (N_of_ascii a) 160); [lia |].
  by rewrite !andb_false_r.
Qed.

Lemma strip_digits (ds : list ascii) :
  Forall (fun a => is_Some (digit_value a)) ds -> ds <> [] ->
  list_ascii_of_string (strip (string_of_list_ascii ds)) = ds.
Proof.
  intros Hall Hne. unfold strip.
  rewrite !list_ascii_of_string_of_list_ascii.
  assert (Hl : forall l, Forall (fun a => is_Some (digit_value a)) l ->
                         lstrip_chars l = l).
  { intros [| a l] Hl; [done |]. cbn.
    apply Forall_cons in Hl as [Ha _]. by rewrite digit_not_space. }
  rewrite (Hl ds) by done. rewrite (Hl (rev ds)) by (by apply Forall_rev).
  apply rev_involutive.
Qed.

(** X22. Every entry [f"{i}: {n}"] the device menu is built from reads
    back as its index when the startup thread parses the selection,
    whatever the device is called (its name may hold colons); the entry
    "Default" and an empty selection give no index. *)
Theorem device_entry_reads_back (i : Z) (n : string) :
  parse_device (device_entry i n) = Some i
  /\ parse_device "Default" = None
  /\ parse_device "" = None.
Proof.
  split; [| done].
  assert (Hpos : forall p : positive, exists ds,
             list_ascii_of_string (pretty (Z.pos p)) = ds
             /\ Forall (fun a => is_Some (digit_value a)) ds
             /\ ds <> []
             /\ int_digits 0 false ds = Some (Z.pos p)).
  { intros p. unfold pretty, pretty_Z, pretty, pretty_positive, pretty,
      pretty_N. rewrite decide_False by done.
    destruct (pretty_N_go_digits (N.pos p) "") as (ds & Hds & Hall & Hne & Hv).
    exists ds. cbn in Hds. rewrite app_nil_r in Hds.
    repeat split; try done; [by apply Hne |].
    specialize (Hv 0 false []). rewrite app_nil_r in Hv. rewrite Hv.
    cbn [int_digits orb]. rewrite bool_decide_eq_false_2 by (by apply Hne).
    done. }
  unfold parse_device, device_entry.
  assert (Hentry : exists sign ds,
             list_ascii_of_string (pretty i) = sign ++ ds
             /\ (sign = [] \/ sign = ["-"%char])
             /\ Forall (fun a => is_Some (digit_value a)) ds
             /\ ds <> []
             /\ (if bool_decide (sign = []) then int_digits 0 false ds
                 else Z.opp <$> int_digits 0 false ds) = Some i).
  { destruct i as [| p | p].
    - exists [], ["0"%char]. repeat split; try done; [by left |].
      by repeat constructor.
    - destruct (Hpos p) as (ds & Hds & Hall & Hne & Hv).
      exists [], ds. rewrite Hv. repeat split; try done; by left.
    - destruct (Hpos p) as (ds & Hds & Hall & Hne & Hv).
      exists ["-"%char], ds. rewrite Hv. repeat split; try done.
      + change (pretty (Z.neg p)) with ("-" +:+ pretty (Z.pos p)).
        rewrite list_ascii_of_string_app, Hds. done.
      + by right. }
  destruct Hentry as (sign & ds & Hchars & Hsign & Hall & Hne & Hval).
  set (entry := pretty i +:+ ": " +:+ n).
  assert (Hl : list_ascii_of_string entry
               = sign ++ ds ++ ":"%char :: " "%char :: list_ascii_of_string n).
  { unfold entry. rewrite !list_ascii_of_string_app, Hchars.
    by rewrite <- app_assoc. }
  assert (Hhead : exists a rest, sign ++ ds = a :: rest
                                 /\ a <> "D"%char).
  { destruct Hsign as [-> | ->].
    - destruct ds as [| a ds]; [done |]. exists a, ds. split; [done |].
      apply Forall_cons in Hall as [[d Ha] _]. by intros ->.
    - by eexists _, _. }
  destruct Hhead as (a & rest & Hhead & HaD).
  assert (Htruthy : truthy entry = true).
  { destruct entry eqn:He; [| done]. cbn in Hl.
    rewrite app_assoc, Hhead in Hl. done. }
  assert (Hnd : String.eqb entry "Default" = false).
  { apply String.eqb_neq. intros He. rewrite He in Hl.
    rewrite app_assoc, Hhead in Hl. cbn in Hl. by simplify_eq. }
  assert (Hcolon : has_colon entry = true).
  { unfold has_colon. rewrite Hl, !existsb_app. cbn.
    by rewrite !orb_true_r. }
  rewrite Htruthy, Hnd, Hcolon. cbn [negb andb].
  rewrite Hl.
  assert (Hbefore : before_colon
                      (sign ++ ds ++ ":"%char :: " "%char
                       :: list_ascii_of_string n) = sign ++ ds).
  { destruct Hsign as [-> | ->]; cbn [app before_colon].
    - by apply digits_before_colon.
    - change (Ascii.eqb "-" ":") with false. cbn iota.
      by rewrite digits_before_colon. }
  rewrite Hbefore. unfold py_int.
  destruct Hsign as [-> | ->]; cbn [app] in *.
  - rewrite strip_digits by done.
    rewrite bool_decide_eq_true_2 in Hval by done.
    destruct ds as [| c ds]; [done |].
    apply Forall_cons in Hall as [[d Hc] _].
    destruct (Ascii.eqb_spec c "+") as [-> | _]; [done |].
    destruct (Ascii.eqb_spec c "-") as [-> | _]; [done |].
    revert Hval. unfold digit_value in Hc.
    by repeat case_match.
  - rewrite bool_decide_eq_false_2 in Hval by done.
    assert (Hs : list_ascii_of_string
                   (strip (string_of_list_ascii ("-"%char :: ds)))
                 = "-"%char :: ds).
    { unfold strip. rewrite !list_ascii_of_string_of_list_ascii.
      cbn [lstrip_chars]. change (py_isspace "-") with false. cbn iota.
      assert (Hr : rev ("-"%char :: ds) = rev ds ++ ["-"%char]) by done.
      rewrite Hr.
      destruct (rev ds) as [| c l] eqn:Hrev.
      { apply (f_equal (@rev ascii)) in Hrev.
        rewrite rev_involutive in Hrev. done. }
      assert (Hc : is_Some (digit_value c)).
      { apply Forall_rev in Hall. rewrite Hrev in Hall.
        by apply Forall_cons in Hall as [Hc _]. }
      cbn [app lstrip_chars]. rewrite digit_not_space by done.
      change (c :: l ++ ["-"%char]) with ((c :: l) ++ ["-"%char]).
      rewrite <- Hr. apply rev_involutive. }
    rewrite Hs. exact Hval.
Qed.

(** ** From the microphone to the fallback *)

Lemma fallback_iters_messages `{SR : SpeechRecognition}
    (w : GoogleSegmentWorker.t) (clks : list tick) (q : queues) :
  GoogleSegmentWorker.queue w = GoogleSegmentWorker.The_message_queue ->
  List.length clks = List.length (segment_queue q) ->
  message_queue (GoogleSegmentWorker._loop_iters w clks q)
  = message_queue q
    ++ List.concat
         (zip_with (fun clk raw =>
                      (GoogleSegmentWorker.recognize_chunk w raw clk).*2)
            clks (segment_queue q)).
Proof.
  intros Hw. revert q. induction clks as [| clk clks IH]; intros q Hlen.
  - cbn. by rewrite app_nil_r.
  - destruct (segment_queue q) as [| raw rest] eqn:Hq; [done |].
    cbn [GoogleSegmentWorker._loop_iters].
    assert (Hs : segment_queue (GoogleSegmentWorker._loop_iter w clk q)
                 = rest) by (by rewrite fallback_iter_queue, Hq).
    rewrite IH by (rewrite Hs; cbn in Hlen; lia). rewrite Hs.
    unfold GoogleSegmentWorker._loop_iter at 1. rewrite Hq.
    rewrite deliver_all_message_queue by done.
    cbn [zip_with List.concat set_segment_queue message_queue].
    by rewrite <- app_assoc.
Qed.

(** X23. From the microphone to the fallback: with the segment queue
    empty at first, a frame length that is not negative and whose quarter
    the clock takes as the length of a sleep, and reads of whole samples,
    the capture thread goes on and every frame it reads is taken by the
    fallback worker, in the order read, whether or not a streaming
    recognizer is loaded and running. After as many worker iterations as
    frames were read the segment queue is empty again, and the message
    queue holds the amplitude of each read followed by what the worker
    reports for each frame in turn. *)
Theorem captured_frames_all_reach_the_fallback `{V : Vosk}
    `{P : Platform} `{SR : SpeechRecognition} (pa_ok : bool) (chunk_ms : Z)
    (methods : list LowLatencyCapture.method)
    (reads : list (exn + bytes)) (clks : list tick)
    (a : GeminiStreamingAutoDLApp.t) :
  Forall whole_samples reads ->
  segment_queue (GeminiStreamingAutoDLApp.q a) = [] ->
  GoogleSegmentWorker.queue (GeminiStreamingAutoDLApp.google_worker a)
  = GoogleSegmentWorker.The_message_queue ->
  List.length clks = List.length (List.concat (frame_of <$> reads)) ->
  let c := used_capture pa_ok CONFIG.sample_rate chunk_ms methods in
  let w := GeminiStreamingAutoDLApp.google_worker a in
  0 <= LowLatencyCapture.chunk_ms c ->
  sleep_accepts (LowLatencyCapture.chunk_ms c) = true ->
  exists a',
    _read_loop_iters reads c a = (a', true)
    /\ GeminiStreamingAutoDLApp.vosk_streamer a'
       = GeminiStreamingAutoDLApp.vosk_streamer a
    /\ let q' := GoogleSegmentWorker._loop_iters w clks
                   (GeminiStreamingAutoDLApp.q a') in
       segment_queue q' = []
       /\ message_queue q'
          = message_queue (GeminiStreamingAutoDLApp.q a)
            ++ (amplitude_of <$> reads)
            ++ List.concat
                 (zip_with
                    (fun clk raw =>
                       (GoogleSegmentWorker.recognize_chunk w raw clk).*2)
                    clks (List.concat (frame_of <$> reads))).
Proof.
  intros Hall Hempty Hw Hlen. cbn zeta. intros H0 Hsl.
  pose proof (sink_never_set pa_ok CONFIG.sample_rate chunk_ms methods)
    as Hsink.
  destruct (read_loop_without_sink _ reads a Hsink
              (sleep_quarter_true _ H0 Hsl) Hall)
    as (a' & Hrun & Hm & Hs & _ & Hv & _ & _).
  rewrite Hempty in Hs. cbn [app] in Hs.
  exists a'. split; [done |]. split; [done |]. split.
  - rewrite fallback_iters_drain, Hs, Hlen. apply drop_all.
  - rewrite fallback_iters_messages by (by rewrite ?Hs).
    by rewrite Hm, Hs, <- app_assoc.
Qed.

(** Two frames and a failed read, with the echo recognizer loaded and
    running; the scripted service recognizes both frames. *)
Lemma captured_frames_all_reach_the_fallback_witness :
  let a := @GeminiStreamingAutoDLApp._load_vosk_model echo_decoder
             empty_model_dir CONFIG.model_target_dir
             CONFIG.partial_update_ms
             (@GeminiStreamingAutoDLApp.__init__ echo_decoder true true
                CONFIG.chunk_ms) in
  let reads := [inr [x10; x00]; inl "Input overflowed"; inr [xf0; xff]] in
  let clks := [at_ms 1000; at_ms 2000] in
  let c := used_capture true CONFIG.sample_rate CONFIG.chunk_ms
             [LowLatencyCapture.Start true None] in
  let w := GeminiStreamingAutoDLApp.google_worker a in
  exists a',
    @_read_loop_iters echo_decoder day_clock reads c a = (a', true)
    /\ GeminiStreamingAutoDLApp.vosk_streamer a'
       = GeminiStreamingAutoDLApp.vosk_streamer a
    /\ let q' := @GoogleSegmentWorker._loop_iters scripted_service w clks
                   (GeminiStreamingAutoDLApp.q a') in
       segment_queue q' = []
       /\ message_queue q'
          = message_queue (GeminiStreamingAutoDLApp.q a)
            ++ (amplitude_of <$> reads)
            ++ List.concat
                 (zip_with
                    (fun clk raw =>
                       (@GoogleSegmentWorker.recognize_chunk scripted_service
                          w raw clk).*2)
                    clks (List.concat (frame_of <$> reads))).
Proof.
  cbn zeta.
  apply (@captured_frames_all_reach_the_fallback echo_decoder day_clock
           scripted_service true CONFIG.chunk_ms
           [LowLatencyCapture.Start true None]
           [inr [x10; x00]; inl "Input overflowed"; inr [xf0; xff]]
           [at_ms 1000; at_ms 2000]).
  - repeat constructor; by exists 1%nat.
  - reflexivity.
  - reflexivity.
  - reflexivity.
  - vm_compute. discriminate.
  - vm_compute. reflexivity.
Defined.
